(** * LoreFit: the points ledger, the auth utilities, the validators and
      the auth-state hooks

    A shallow embedding of

    - [supabase/migrations/20250101000002_create_user_points_table.sql]
      (the [user_points] table, its row-level-security policies, the
      trigger [handle_new_profile_points] and the functions
      [award_points] and [spend_points]), together with the [profiles]
      policies and the [ON DELETE CASCADE] foreign key that reach the
      ledger;
    - [lib/auth/utils.ts] ([signUp], [login], [logout], [resetPassword],
      [updatePassword] and the three format validators);
    - [lib/auth/hooks.ts] ([useUser], [useRequireAuth],
      [useRedirectIfAuthenticated]).

    Definitions come first, module by module; the theorems follow. *)

From Stdlib Require Import ZArith NArith Lia.
From stdpp Require Import gmap strings list.

Set Warnings "-register-all".

(* ===================================================================== *)
(** * Part I. The SQL schema                                              *)
(* ===================================================================== *)

Module Schema.

(** ** SQL values and errors *)

(** A UUID and a [timestamptz] are kept in their text form; [NOW()] is an
    input of every statement that reads the clock. *)
Abbreviation uuid := string (only parsing).
Abbreviation timestamptz := string (only parsing).

(** The errors a statement can end with.  A statement (and a PL/pgSQL
    function called as one) that raises leaves the database as it was. *)
Inductive sql_error :=
| raise_exception (message : string)
| numeric_value_out_of_range
| not_null_violation (column : string)
| check_violation (constraint : string)
| unique_violation (constraint : string)
| rls_violation (table : string).

Inductive sql_result (A : Type) :=
| Ok (a : A)
| Raise (e : sql_error).
Arguments Ok {A} a.
Arguments Raise {A} e.

Definition sql_bind {A B} (m : sql_result A) (f : A → sql_result B) : sql_result B :=
  match m with
  | Ok a => f a
  | Raise e => Raise e
  end.

Notation "x ←! m ; k" := (sql_bind m (λ x, k))
  (at level 20, m at level 100, k at level 200, only parsing, right associativity).

(** [INTEGER] is a signed 32-bit integer; arithmetic outside the range
    raises, it does not wrap.  [None] is SQL [NULL]. *)
Definition int4_min : Z := -2147483648.
Definition int4_max : Z := 2147483647.

Definition int4 (z : Z) : sql_result Z :=
  if bool_decide (int4_min ≤ z ≤ int4_max)%Z then Ok z
  else Raise numeric_value_out_of_range.

Definition int4pl (a b : option Z) : sql_result (option Z) :=
  match a, b with
  | Some x, Some y => z ←! int4 (x + y); Ok (Some z)
  | _, _ => Ok None
  end.

Definition int4mi (a b : option Z) : sql_result (option Z) :=
  match a, b with
  | Some x, Some y => z ←! int4 (x - y); Ok (Some z)
  | _, _ => Ok None
  end.

Definition int4um (a : option Z) : sql_result (option Z) :=
  match a with
  | Some x => z ←! int4 (- x); Ok (Some z)
  | None => Ok None
  end.

(** Comparisons are three-valued; [IF c THEN] takes the branch only when
    [c] is true, so a [NULL] condition falls through. *)
Definition int4lt (a b : option Z) : option bool :=
  match a, b with
  | Some x, Some y => Some (bool_decide (x < y)%Z)
  | _, _ => None
  end.

Definition int4le (a b : option Z) : option bool :=
  match a, b with
  | Some x, Some y => Some (bool_decide (x ≤ y)%Z)
  | _, _ => None
  end.

Definition sql_if (c : option bool) : bool :=
  match c with
  | Some true => true
  | _ => false
  end.

Definition not_null {A} (column : string) (v : option A) : sql_result A :=
  match v with
  | Some x => Ok x
  | None => Raise (not_null_violation column)
  end.

Definition check (constraint : string) (c : bool) : sql_result unit :=
  if c then Ok tt else Raise (check_violation constraint).

(** ** JSONB *)

Inductive jsonb :=
| JNull
| JBool (b : bool)
| JNum (n : Z)
| JStr (s : string)
| JArr (elems : list jsonb)
| JObj (fields : list (string * jsonb)).

Definition jsonb_of_int (v : option Z) : jsonb :=
  match v with Some n => JNum n | None => JNull end.

Definition jsonb_of_text (v : option string) : jsonb :=
  match v with Some s => JStr s | None => JNull end.

(** [jsonb_build_object(k1, v1, k2, v2, ...)]; the fields are kept in the
    order of the call and read back by key with [jsonb_object_field]. *)
Definition jsonb_build_object (kvs : list (string * jsonb)) : jsonb := JObj kvs.

Fixpoint assoc (k : string) (kvs : list (string * jsonb)) : option jsonb :=
  match kvs with
  | [] => None
  | (k', v) :: rest => if bool_decide (k' = k) then Some v else assoc k rest
  end.

(** The [->] operator on an object. *)
Definition jsonb_object_field (j : jsonb) (k : string) : option jsonb :=
  match j with
  | JObj kvs => assoc k kvs
  | _ => None
  end.

Definition has_key (kvs : list (string * jsonb)) (k : string) : bool :=
  bool_decide (is_Some (assoc k kvs)).

(** The [||] operator on two (non-NULL) jsonb values: two arrays are
    concatenated, two objects are merged with the right one winning, and
    in every other case a non-array operand counts as a one-element
    array. *)
Definition jsonb_concat (a b : jsonb) : jsonb :=
  match a, b with
  | JObj x, JObj y => JObj (filter (λ kv, has_key y kv.1 = false) x ++ y)
  | JArr x, JArr y => JArr (x ++ y)
  | JArr x, _ => JArr (x ++ [b])
  | _, JArr y => JArr (a :: y)
  | _, _ => JArr [a; b]
  end.

(** The elements of a jsonb array ([None] when the value is no array). *)
Definition jsonb_array_elements (j : jsonb) : option (list jsonb) :=
  match j with
  | JArr l => Some l
  | _ => None
  end.

(** ** Tables *)

(** [public.user_points]; [user_id] is the primary key and is the key of
    the map, every other column is [NOT NULL]. *)
Record user_points_row := {
  current_balance : Z;
  total_earned : Z;
  total_spent : Z;
  level : Z;
  points_history : jsonb;
  weekly_goal : Z;
  updated_at : timestamptz
}.

(** [public.profiles], keyed by [id]; only the columns the trigger
    [handle_new_user] fills are kept. *)
Record profile := {
  username : string;
  display_name : option string
}.

Record database := {
  profiles : gmap uuid profile;
  user_points : gmap uuid user_points_row
}.

Definition empty_database : database :=
  {| profiles := ∅; user_points := ∅ |}.

Definition set_user_points (db : database) (t : gmap string user_points_row) : database :=
  {| profiles := profiles db; user_points := t |}.

(** The column defaults of [user_points]. *)
Definition default_row (now : timestamptz) : user_points_row :=
  {| current_balance := 0;
     total_earned := 0;
     total_spent := 0;
     level := 1;
     points_history := JArr [];
     weekly_goal := 100;
     updated_at := now |}.

(** The [CHECK] constraints of [user_points], in column order. *)
Definition user_points_checks (r : user_points_row) : sql_result unit :=
  _ ←! check "user_points_current_balance_check" (bool_decide (0 ≤ current_balance r)%Z);
  _ ←! check "user_points_total_earned_check" (bool_decide (0 ≤ total_earned r)%Z);
  _ ←! check "user_points_total_spent_check" (bool_decide (0 ≤ total_spent r)%Z);
  _ ←! check "user_points_level_check" (bool_decide (1 ≤ level r)%Z);
  check "user_points_weekly_goal_check" (bool_decide (0 < weekly_goal r)%Z).

(** The row a [WHERE user_id = p_user_id] reaches: none when the
    parameter is [NULL], at most one since [user_id] is the primary key. *)
Definition row_of (db : database) (p_user_id : option uuid) : option user_points_row :=
  u ← p_user_id; user_points db !! u.

(** ** [handle_new_profile_points]

    [INSERT INTO public.user_points (user_id) VALUES (NEW.id)], run as the
    function's owner ([SECURITY DEFINER]), so no policy applies. *)
Definition handle_new_profile_points (db : database) (now : timestamptz) (new_id : uuid)
  : sql_result database :=
  match user_points db !! new_id with
  | Some _ => Raise (unique_violation "user_points_pkey")
  | None =>
      _ ←! user_points_checks (default_row now);
      Ok (set_user_points db (<[new_id := default_row now]> (user_points db)))
  end.

(** ** [award_points]

    The parameters are nullable, as every PL/pgSQL parameter is; the
    defaults of [p_source] and [p_description] are filled in by the
    caller's side of the call and do not show in the body. *)

(** The [SET] list of the [UPDATE] in [award_points], evaluated on the old
    row; the [BEFORE UPDATE] trigger [handle_updated_at] then sets
    [updated_at], and the column constraints are checked. *)
Definition award_update (r : user_points_row) (now : timestamptz)
  (p_amount : option Z) (v_history_entry : jsonb) : sql_result user_points_row :=
  b ←! int4pl (Some (current_balance r)) p_amount;
  e ←! int4pl (Some (total_earned r)) p_amount;
  b ←! not_null "current_balance" b;
  e ←! not_null "total_earned" e;
  let r' := {| current_balance := b;
               total_earned := e;
               total_spent := total_spent r;
               level := level r;
               points_history := jsonb_concat (points_history r) v_history_entry;
               weekly_goal := weekly_goal r;
               updated_at := now |} in
  _ ←! user_points_checks r';
  Ok r'.

Definition award_points (db : database) (now : timestamptz)
  (p_user_id : option uuid) (p_amount : option Z)
  (p_source p_description : option string)
  : sql_result (database * list (option Z * option Z)) :=
  if sql_if (int4le p_amount (Some 0%Z)) then
    Raise (raise_exception "Points amount must be positive")
  else
    let v_history_entry :=
      jsonb_build_object
        [("amount", jsonb_of_int p_amount);
         ("source", jsonb_of_text p_source);
         ("description", jsonb_of_text p_description);
         ("timestamp", JStr now);
         ("type", JStr "earned")] in
    match p_user_id, row_of db p_user_id with
    | Some u, Some r =>
        r' ←! award_update r now p_amount v_history_entry;
        Ok (set_user_points db (<[u := r']> (user_points db)),
            [(Some (current_balance r'), Some (total_earned r'))])
    | _, _ =>
        (* no row matched: RETURNING ... INTO leaves both variables NULL *)
        Ok (db, [(None, None)])
    end.

(** ** [spend_points] *)

Definition spend_update (r : user_points_row) (now : timestamptz)
  (p_amount : option Z) (v_history_entry : jsonb) : sql_result user_points_row :=
  b ←! int4mi (Some (current_balance r)) p_amount;
  s ←! int4pl (Some (total_spent r)) p_amount;
  b ←! not_null "current_balance" b;
  s ←! not_null "total_spent" s;
  let r' := {| current_balance := b;
               total_earned := total_earned r;
               total_spent := s;
               level := level r;
               points_history := jsonb_concat (points_history r) v_history_entry;
               weekly_goal := weekly_goal r;
               updated_at := now |} in
  _ ←! user_points_checks r';
  Ok r'.

Definition spend_points (db : database) (now : timestamptz)
  (p_user_id : option uuid) (p_amount : option Z)
  (p_purpose p_description : option string)
  : sql_result (database * list (option Z * option bool)) :=
  if sql_if (int4le p_amount (Some 0%Z)) then
    Raise (raise_exception "Points amount must be positive")
  else
    (* SELECT current_balance INTO v_current_balance: NULL when no row *)
    let v_current_balance := current_balance <$> row_of db p_user_id in
    if sql_if (int4lt v_current_balance p_amount) then
      Ok (db, [(v_current_balance, Some false)])
    else
      neg ←! int4um p_amount;
      let v_history_entry :=
        jsonb_build_object
          [("amount", jsonb_of_int neg);
           ("purpose", jsonb_of_text p_purpose);
           ("description", jsonb_of_text p_description);
           ("timestamp", JStr now);
           ("type", JStr "spent")] in
      match p_user_id, row_of db p_user_id with
      | Some u, Some r =>
          r' ←! spend_update r now p_amount v_history_entry;
          Ok (set_user_points db (<[u := r']> (user_points db)),
              [(Some (current_balance r'), Some true)])
      | _, _ =>
          Ok (db, [(None, Some true)])
      end.

(** ** Row-level security *)

Inductive sql_command := SELECT | INSERT | UPDATE | DELETE.

#[global] Instance sql_command_eq_dec : EqDecision sql_command.
Proof. solve_decision. Defined.

(** A policy expression reads [auth.uid()] ([NULL] for an anonymous
    client), the key of the row and the row; it is three-valued. *)
Definition policy_expr (R : Type) : Type := option string → string → R → option bool.

Record policy (R : Type) := {
  pol_name : string;
  pol_command : sql_command;
  pol_using : option (policy_expr R);
  pol_with_check : option (policy_expr R)
}.
Arguments pol_name {R} p.
Arguments pol_command {R} p.
Arguments pol_using {R} p.
Arguments pol_with_check {R} p.

Definition expr_true {R} : policy_expr R := λ _ _ _, Some true.
Definition expr_false {R} : policy_expr R := λ _ _ _, Some false.

(** [auth.uid() = id] *)
Definition expr_uid_is_id {R} : policy_expr R :=
  λ uid id _, match uid with
              | Some u => Some (bool_decide (u = id))
              | None => None
              end.

Definition user_points_policies : list (policy user_points_row) :=
  [ {| pol_name := "Points are viewable by everyone";
       pol_command := SELECT;
       pol_using := Some expr_true;
       pol_with_check := None |};
    {| pol_name := "System can insert points";
       pol_command := INSERT;
       pol_using := None;
       pol_with_check := Some expr_false |};
    {| pol_name := "System can update points";
       pol_command := UPDATE;
       pol_using := Some expr_false;
       pol_with_check := Some expr_false |} ].

Definition profiles_policies : list (policy profile) :=
  [ {| pol_name := "Profiles are viewable by everyone";
       pol_command := SELECT;
       pol_using := Some expr_true;
       pol_with_check := None |};
    {| pol_name := "Users can insert own profile";
       pol_command := INSERT;
       pol_using := None;
       pol_with_check := Some expr_uid_is_id |};
    {| pol_name := "Users can update own profile";
       pol_command := UPDATE;
       pol_using := Some expr_uid_is_id;
       pol_with_check := Some expr_uid_is_id |};
    {| pol_name := "Users can delete own profile";
       pol_command := DELETE;
       pol_using := Some expr_uid_is_id;
       pol_with_check := None |} ].

(** With row-level security enabled the (permissive) policies of a
    command are OR-ed; with no policy for the command nothing passes. *)
Definition rls_using {R} (pols : list (policy R)) (c : sql_command)
  (uid : option string) (id : string) (r : R) : bool :=
  existsb (λ p, bool_decide (pol_command p = c) &&
                match pol_using p with
                | Some e => sql_if (e uid id r)
                | None => false
                end) pols.

(** [WITH CHECK]; a policy without one checks its [USING] expression. *)
Definition rls_with_check {R} (pols : list (policy R)) (c : sql_command)
  (uid : option string) (id : string) (r : R) : bool :=
  existsb (λ p, bool_decide (pol_command p = c) &&
                match pol_with_check p, pol_using p with
                | Some e, _ => sql_if (e uid id r)
                | None, Some e => sql_if (e uid id r)
                | None, None => false
                end) pols.

(** ** Statements a client sends to [user_points] directly *)

Definition client_select_user_points (db : database) (uid : option string)
  : gmap string user_points_row :=
  filter (λ kv, rls_using user_points_policies SELECT uid kv.1 kv.2 = true)
         (user_points db).

Definition client_insert_user_points (db : database) (uid : option string)
  (id : string) (r : user_points_row) : sql_result database :=
  if rls_with_check user_points_policies INSERT uid id r then
    _ ←! user_points_checks r;
    match user_points db !! id with
    | Some _ => Raise (unique_violation "user_points_pkey")
    | None => Ok (set_user_points db (<[id := r]> (user_points db)))
    end
  else Raise (rls_violation "user_points").

(** The rows an [UPDATE ... WHERE] of a client reaches. *)
Definition client_update_targets (db : database) (uid : option string)
  (where_ : string → user_points_row → bool) : gmap string user_points_row :=
  filter (λ kv, (where_ kv.1 kv.2 &&
                 rls_using user_points_policies UPDATE uid kv.1 kv.2) = true)
         (user_points db).

Definition with_updated_at (r : user_points_row) (now : timestamptz) : user_points_row :=
  {| current_balance := current_balance r;
     total_earned := total_earned r;
     total_spent := total_spent r;
     level := level r;
     points_history := points_history r;
     weekly_goal := weekly_goal r;
     updated_at := now |}.

Definition client_update_user_points (db : database) (uid : option string)
  (now : timestamptz) (where_ : string → user_points_row → bool)
  (set_ : user_points_row → user_points_row) : sql_result database :=
  t ←! foldr (λ kv acc,
               t ←! acc;
               let r' := with_updated_at (set_ kv.2) now in
               if rls_with_check user_points_policies UPDATE uid kv.1 r' then
                 _ ←! user_points_checks r';
                 Ok (<[kv.1 := r']> t)
               else Raise (rls_violation "user_points"))
            (Ok (user_points db))
            (map_to_list (client_update_targets db uid where_));
  Ok (set_user_points db t).

Definition client_delete_user_points (db : database) (uid : option string)
  (where_ : string → user_points_row → bool) : sql_result database :=
  Ok (set_user_points db
        (filter (λ kv, (where_ kv.1 kv.2 &&
                        rls_using user_points_policies DELETE uid kv.1 kv.2) = false)
                (user_points db))).

(** ** [profiles]: inserts fire the trigger, deletes cascade *)

Definition username_taken (db : database) (name : string) : bool :=
  bool_decide (map_Exists (λ _ p, username p = name) (profiles db)).

(** An [INSERT INTO profiles] past the policies: primary key, [UNIQUE]
    username, then the [AFTER INSERT] trigger
    [on_profile_created_init_points].  The foreign key of [profiles.id]
    to [auth.users] is left out: [auth.users] belongs to the platform. *)
Definition insert_profile (db : database) (now : timestamptz)
  (id : string) (p : profile) : sql_result database :=
  match profiles db !! id with
  | Some _ => Raise (unique_violation "profiles_pkey")
  | None =>
      if username_taken db (username p) then
        Raise (unique_violation "profiles_username_key")
      else
        handle_new_profile_points
          {| profiles := <[id := p]> (profiles db);
             user_points := user_points db |} now id
  end.

(** The trigger on [auth.users]: [handle_new_user] ([SECURITY DEFINER]). *)
Definition handle_new_user (db : database) (now : timestamptz) (new_id : string)
  (meta_username meta_display_name email : option string) : sql_result database :=
  insert_profile db now new_id
    {| username := default ("user_" +:+ String.substring 0 8 new_id) meta_username;
       display_name := match meta_display_name with
                       | Some d => Some d
                       | None => email
                       end |}.

Definition client_insert_profile (db : database) (uid : option string)
  (now : timestamptz) (id : string) (p : profile) : sql_result database :=
  if rls_with_check profiles_policies INSERT uid id p then insert_profile db now id p
  else Raise (rls_violation "profiles").

(** [DELETE FROM profiles WHERE ...] by a client; the foreign key of
    [user_points.user_id] is [ON DELETE CASCADE], and referential actions
    are not subject to the policies of the referencing table. *)
Definition client_delete_profile (db : database) (uid : option string)
  (where_ : string → profile → bool) : sql_result database :=
  let kept := filter (λ kv, (where_ kv.1 kv.2 &&
                             rls_using profiles_policies DELETE uid kv.1 kv.2) = false)
                     (profiles db) in
  Ok {| profiles := kept;
        user_points := filter (λ kv, is_Some (kept !! kv.1) ∨
                                     profiles db !! kv.1 = None)
                              (user_points db) |}.

(** The rows an [UPDATE profiles ... WHERE] of a client reaches. *)
Definition client_update_profile_targets (db : database) (uid : option string)
  (where_ : string → profile → bool) : gmap string profile :=
  filter (λ kv, (where_ kv.1 kv.2 &&
                 rls_using profiles_policies UPDATE uid kv.1 kv.2) = true)
         (profiles db).

(** [UPDATE profiles SET ... WHERE ...] by a client.  [set_] gives the
    kept columns of the new row from the key and the old row.  The key
    itself stays: the policy reaches rows with [id = auth.uid()] only and
    wants [id = auth.uid()] of the new row again.  [username] is
    [UNIQUE], so a name that another profile has raises; it is [NOT
    NULL], and an [UPDATE] that would store [NULL] there raises and so
    changes nothing.  Nothing here touches [user_points]. *)
Definition client_update_profile (db : database) (uid : option string)
  (where_ : string → profile → bool) (set_ : string → profile → profile)
  : sql_result database :=
  t ←! foldr (λ kv acc,
               t ←! acc;
               let p' := set_ kv.1 kv.2 in
               if rls_with_check profiles_policies UPDATE uid kv.1 p' then
                 if bool_decide (map_Exists (λ j q, j ≠ kv.1 ∧ username q = username p') t)
                 then Raise (unique_violation "profiles_username_key")
                 else Ok (<[kv.1 := p']> t)
               else Raise (rls_violation "profiles"))
            (Ok (profiles db))
            (map_to_list (client_update_profile_targets db uid where_));
  Ok {| profiles := t; user_points := user_points db |}.

(** ** The statements that can reach the ledger or the profiles

    [check_challenge_completion] reaches the ledger through
    [award_points] and counts as an execution of it. *)

Inductive event :=
| ev_new_user (new_id : string) (meta_username meta_display_name email : option string)
| ev_client_insert_profile (uid : option string) (id : string) (p : profile)
| ev_client_delete_profile (uid : option string) (where_ : string → profile → bool)
| ev_client_update_profile (uid : option string) (where_ : string → profile → bool)
    (set_ : string → profile → profile)
| ev_award_points (p_user_id : option string) (p_amount : option Z)
    (p_source p_description : option string)
| ev_spend_points (p_user_id : option string) (p_amount : option Z)
    (p_purpose p_description : option string)
| ev_client_insert_points (uid : option string) (id : string) (r : user_points_row)
| ev_client_update_points (uid : option string)
    (where_ : string → user_points_row → bool) (set_ : user_points_row → user_points_row)
| ev_client_delete_points (uid : option string) (where_ : string → user_points_row → bool).

Definition exec (db : database) (now : timestamptz) (ev : event) : sql_result database :=
  match ev with
  | ev_new_user id mu md em => handle_new_user db now id mu md em
  | ev_client_insert_profile uid id p => client_insert_profile db uid now id p
  | ev_client_delete_profile uid w => client_delete_profile db uid w
  | ev_client_update_profile uid w s => client_update_profile db uid w s
  | ev_award_points u a s d => out ←! award_points db now u a s d; Ok out.1
  | ev_spend_points u a s d => out ←! spend_points db now u a s d; Ok out.1
  | ev_client_insert_points uid id r => client_insert_user_points db uid id r
  | ev_client_update_points uid w s => client_update_user_points db uid now w s
  | ev_client_delete_points uid w => client_delete_user_points db uid w
  end.

(** A statement that raises is rolled back. *)
Definition step (db : database) (now : timestamptz) (ev : event) : database :=
  match exec db now ev with
  | Ok db' => db'
  | Raise _ => db
  end.

Inductive reachable : database → Prop :=
| reachable_empty : reachable empty_database
| reachable_step db now ev : reachable db → reachable (step db now ev).

(** The statements that run [award_points], [spend_points] or the
    initialisation trigger. *)
Definition by_ledger_function (ev : event) : bool :=
  match ev with
  | ev_award_points _ _ _ _ | ev_spend_points _ _ _ _ => true
  | ev_new_user _ _ _ _ | ev_client_insert_profile _ _ _ => true
  | _ => false
  end.

(** ** The predicates the theorems speak about *)

(** The accounting equation and the sign constraints of a ledger row. *)
Definition ledger_inv (r : user_points_row) : Prop :=
  current_balance r = (total_earned r - total_spent r)%Z ∧
  (0 ≤ current_balance r)%Z ∧ (0 ≤ total_earned r)%Z ∧ (0 ≤ total_spent r)%Z.

(** What every stored row satisfies: the equation, the [INTEGER] range,
    the two remaining [CHECK] constraints and a history that is a JSON
    array. *)
Definition row_wf (r : user_points_row) : Prop :=
  ledger_inv r ∧ (total_earned r ≤ int4_max)%Z ∧
  (1 ≤ level r)%Z ∧ (0 < weekly_goal r)%Z ∧
  is_Some (jsonb_array_elements (points_history r)).

(** [h] is the array [h0] followed by [more]. *)
Definition history_extends (h0 h : jsonb) (more : list jsonb) : Prop :=
  ∃ l, h0 = JArr l ∧ h = JArr (l ++ more).

(** A history entry of the given type and amount. *)
Definition is_entry (e : jsonb) (type : string) (amount : Z) : Prop :=
  jsonb_object_field e "type" = Some (JStr type) ∧
  jsonb_object_field e "amount" = Some (JNum amount).

(** How one statement can change the row of user [u]: not at all, by the
    initialisation trigger, by the [UPDATE] of [award_points] or of
    [spend_points], or by the cascade of a profile deletion. *)
Inductive row_change (now : timestamptz) (u : string) (ev : event)
  : option user_points_row → option user_points_row → Prop :=
| rc_same o : row_change now u ev o o
| rc_init :
    (∃ mu md em, ev = ev_new_user u mu md em) ∨
    (∃ uid p, ev = ev_client_insert_profile uid u p) →
    row_change now u ev None (Some (default_row now))
| rc_award r r' a s d e :
    ev = ev_award_points (Some u) (Some a) s d →
    (0 < a)%Z → is_entry e "earned" a → (∃ kvs, e = JObj kvs) →
    award_update r now (Some a) e = Ok r' →
    row_change now u ev (Some r) (Some r')
| rc_spend r r' a s d e :
    ev = ev_spend_points (Some u) (Some a) s d →
    (0 < a ≤ current_balance r)%Z → is_entry e "spent" (- a) → (∃ kvs, e = JObj kvs) →
    spend_update r now (Some a) e = Ok r' →
    row_change now u ev (Some r) (Some r')
| rc_cascade r uid where_ :
    ev = ev_client_delete_profile uid where_ →
    row_change now u ev (Some r) None.

(** ** Sample databases *)

(** A signup of [u1], then ten points awarded. *)
Definition db_u1 : database :=
  step (step empty_database "2025-01-01T00:00:00Z"
          (ev_new_user "u1" (Some "alice") None (Some "alice@example.com")))
       "2025-01-02T00:00:00Z"
       (ev_award_points (Some "u1") (Some 10%Z) (Some "manual") (Some "")).

Definition row_u1 : user_points_row :=
  {| current_balance := 10;
     total_earned := 10;
     total_spent := 0;
     level := 1;
     points_history :=
       JArr [JObj [("amount", JNum 10); ("source", JStr "manual");
                   ("description", JStr ""); ("timestamp", JStr "2025-01-02T00:00:00Z");
                   ("type", JStr "earned")]];
     weekly_goal := 100;
     updated_at := "2025-01-02T00:00:00Z" |}.

(** [DELETE FROM profiles WHERE id = 'u1'], sent by [u1]. *)
Definition delete_own_profile_u1 : event :=
  ev_client_delete_profile (Some "u1") (λ id _, bool_decide (id = "u1")).

End Schema.

(* ===================================================================== *)
(** * Part II. [lib/auth/utils.ts]: the request wrappers                  *)
(* ===================================================================== *)

Module AuthUtils.

(** The [User] object of the SDK; only its identity matters here. *)
Record User := { user_id : string; user_email : option string }.

Module SignUpData.
Record t := {
  email : string;
  password : string;
  username : string;
  displayName : string
}.
End SignUpData.

Module LoginData.
Record t := {
  email : string;
  password : string
}.
End LoginData.

Module AuthError.
Record t := {
  message : string;
  field : option string
}.
End AuthError.

(** The error object a resolved SDK call carries: [message] and (for the
    REST layer) [code] are the only properties the wrappers read. *)
Module BackendError.
Record t := {
  message : string;
  code : option string
}.
End BackendError.

(** What a [catch (err)] can receive: an [Error] with its message, or any
    other value. *)
Inductive thrown :=
| thrown_Error (message : string)
| thrown_other.

(** The calls the wrappers make on the client returned by
    [createClient()]. *)
Inductive request :=
| profiles_select_username_eq (username : string)
| auth_signUp (email password username display_name : string)
| auth_signInWithPassword (email password : string)
| auth_signOut
| auth_getUser
| auth_resetPasswordForEmail (email redirectTo : string)
| auth_updateUser (password : string).

(** The [data] part of each response, as far as it is read: the matching
    row of [.maybeSingle()], or [data.user]. *)
Definition data_of (r : request) : Type :=
  match r with
  | profiles_select_username_eq _ => option string
  | auth_signUp _ _ _ _ => option User
  | auth_signInWithPassword _ _ => option User
  | auth_getUser => option User
  | auth_signOut => unit
  | auth_resetPasswordForEmail _ _ => unit
  | auth_updateUser _ => unit
  end.

(** An awaited call either resolves to [{ data, error }] or rejects. *)
Inductive outcome (D : Type) :=
| resolved (data : D) (error : option BackendError.t)
| rejected (t : thrown).
Arguments resolved {D} data error.
Arguments rejected {D} t.

(** [createClient()] of [@/lib/supabase/client].  The module is not
    among the sources, so how a call of it ends is a parameter of a run:
    it returns the client, or it throws. *)
Inductive creation :=
| client_created
| creation_failed (t : thrown).

(** An [async] function body: it returns, throws, awaits a call on the
    client, or calls [createClient()]. *)
Inductive prog (A : Type) : Type :=
| ret (a : A)
| throw (t : thrown)
| call (r : request) (k : outcome (data_of r) → prog A)
| create (k : creation → prog A).
Arguments ret {A} a.
Arguments throw {A} t.
Arguments call {A} r k.
Arguments create {A} k.

Fixpoint bind {A B} (p : prog A) (f : A → prog B) : prog B :=
  match p with
  | ret a => f a
  | throw t => throw t
  | call r k => call r (λ o, bind (k o) f)
  | create k => create (λ c, bind (k c) f)
  end.

Notation "x ←? m ; k" := (bind m (λ x, k))
  (at level 20, m at level 100, k at level 200, only parsing, right associativity).

Definition await (r : request) : prog (data_of r * option BackendError.t) :=
  call r (λ o, match o with
               | resolved d e => ret (d, e)
               | rejected t => throw t
               end).

(** [const supabase = createClient();] *)
Definition createClient : prog unit :=
  create (λ c, match c with
               | client_created => ret tt
               | creation_failed t => throw t
               end).

Fixpoint try_catch {A} (p : prog A) (handler : thrown → prog A) : prog A :=
  match p with
  | ret a => ret a
  | throw t => handler t
  | call r k => call r (λ o, try_catch (k o) handler)
  | create k => create (λ c, try_catch (k c) handler)
  end.

(** [err instanceof Error ? err.message : 'An unknown error occurred'] *)
Definition catch_message (err : thrown) : string :=
  match err with
  | thrown_Error m => m
  | thrown_other => "An unknown error occurred"
  end.

Module UserResult.
Record t := {
  user : option User;
  error : option AuthError.t
}.
End UserResult.

Module ErrorResult.
Record t := {
  error : option AuthError.t
}.
End ErrorResult.

Definition user_failure (message : string) (field : option string) : UserResult.t :=
  {| UserResult.user := None;
     UserResult.error := Some {| AuthError.message := message; AuthError.field := field |} |}.

Definition error_failure (message : string) : ErrorResult.t :=
  {| ErrorResult.error := Some {| AuthError.message := message; AuthError.field := None |} |}.

(** Every wrapper calls [createClient()] first and opens its [try] only
    after it. *)
Definition signUp (data : SignUpData.t) : prog UserResult.t :=
  _ ←? createClient;
  try_catch
    (check ←? await (profiles_select_username_eq (SignUpData.username data));
     let '(existingUser, checkError) := check in
     match existingUser with
     | Some _ => ret (user_failure "Username already taken" (Some "username"))
     | None =>
         (* checkError && checkError.code !== 'PGRST116' *)
         match checkError ≫= (λ e, if bool_decide (BackendError.code e ≠ Some "PGRST116")
                                   then Some e else None) with
         | Some e => ret (user_failure (BackendError.message e) None)
         | None =>
             created ←? await (auth_signUp (SignUpData.email data)
                                 (SignUpData.password data)
                                 (SignUpData.username data)
                                 (SignUpData.displayName data));
             let '(authData_user, authError) := created in
             match authError with
             | Some e => ret (user_failure (BackendError.message e) None)
             | None => ret {| UserResult.user := authData_user;
                              UserResult.error := None |}
             end
         end
     end)
    (λ err, ret (user_failure (catch_message err) None)).

Definition login (data : LoginData.t) : prog UserResult.t :=
  _ ←? createClient;
  try_catch
    (signed ←? await (auth_signInWithPassword (LoginData.email data)
                        (LoginData.password data));
     let '(authData_user, authError) := signed in
     match authError with
     | Some e => ret (user_failure (BackendError.message e) None)
     | None => ret {| UserResult.user := authData_user; UserResult.error := None |}
     end)
    (λ err, ret (user_failure (catch_message err) None)).

Definition logout : prog ErrorResult.t :=
  _ ←? createClient;
  try_catch
    (out ←? await auth_signOut;
     match out.2 with
     | Some e => ret (error_failure (BackendError.message e))
     | None => ret {| ErrorResult.error := None |}
     end)
    (λ err, ret (error_failure (catch_message err))).

Definition getCurrentUser : prog (option User) :=
  _ ←? createClient;
  try_catch
    (got ←? await auth_getUser; ret got.1)
    (λ _, ret None).

(** [NEXT_PUBLIC_APP_URL] is read from the environment; an unset variable
    prints as [undefined] in the template string. *)
Definition resetPassword (NEXT_PUBLIC_APP_URL : option string) (email : string)
  : prog ErrorResult.t :=
  _ ←? createClient;
  try_catch
    (out ←? await (auth_resetPasswordForEmail email
                     (default "undefined" NEXT_PUBLIC_APP_URL +:+ "/auth/reset-password"));
     match out.2 with
     | Some e => ret (error_failure (BackendError.message e))
     | None => ret {| ErrorResult.error := None |}
     end)
    (λ err, ret (error_failure (catch_message err))).

Definition updatePassword (newPassword : string) : prog ErrorResult.t :=
  _ ←? createClient;
  try_catch
    (out ←? await (auth_updateUser newPassword);
     match out.2 with
     | Some e => ret (error_failure (BackendError.message e))
     | None => ret {| ErrorResult.error := None |}
     end)
    (λ err, ret (error_failure (catch_message err))).

(** ** Running a wrapper against a backend

    A backend answers each call knowing the calls made before it in the
    invocation; that covers every way the service can behave.  [run]
    is given how [createClient()] ends and the backend behind the client,
    and returns the calls made on the client, in order, and how the
    wrapper ended. *)
Definition backend : Type := list request → ∀ r : request, outcome (data_of r).

Fixpoint run {A} (c : creation) (b : backend) (log : list request) (p : prog A)
  : list request * (A + thrown) :=
  match p with
  | ret a => (log, inl a)
  | throw t => (log, inr t)
  | call r k => run c b (log ++ [r]) (k (b log r))
  | create k => run c b log (k c)
  end.

Definition requests {A} (c : creation) (b : backend) (p : prog A) : list request :=
  (run c b [] p).1.
Definition result {A} (c : creation) (b : backend) (p : prog A) : A + thrown :=
  (run c b [] p).2.

(** ** What the wrappers are said to answer

    Given how the one call of a wrapper ended: the error message of the
    backend, unchanged and without a field, when the call resolved with
    an error; no error when it resolved without one; and the message of
    the exception (or the fixed text) when it rejected. *)
Definition passed_through_user (o : outcome (option User)) : UserResult.t :=
  match o with
  | resolved _ (Some e) => user_failure (BackendError.message e) None
  | resolved u None => {| UserResult.user := u; UserResult.error := None |}
  | rejected t => user_failure (catch_message t) None
  end.

Definition passed_through_error (o : outcome unit) : ErrorResult.t :=
  match o with
  | resolved _ (Some e) => error_failure (BackendError.message e)
  | resolved _ None => {| ErrorResult.error := None |}
  | rejected t => error_failure (catch_message t)
  end.

(** The two calls of [signUp]. *)
Definition username_lookup (data : SignUpData.t) : request :=
  profiles_select_username_eq (SignUpData.username data).

Definition account_creation (data : SignUpData.t) : request :=
  auth_signUp (SignUpData.email data) (SignUpData.password data)
              (SignUpData.username data) (SignUpData.displayName data).

(** ** Sample backends *)

Definition alice : SignUpData.t :=
  {| SignUpData.email := "alice@example.com";
     SignUpData.password := "TestPass123";
     SignUpData.username := "alice";
     SignUpData.displayName := "Alice" |}.

(** No profile has the username, and the account is created. *)
Definition backend_username_free : backend :=
  λ _ r,
    match r as r' return outcome (data_of r') with
    | profiles_select_username_eq _ => resolved None None
    | auth_signUp e _ _ _ =>
        resolved (Some {| user_id := "id-1"; user_email := Some e |}) None
    | auth_signInWithPassword e _ =>
        resolved (Some {| user_id := "id-1"; user_email := Some e |}) None
    | auth_getUser => resolved None None
    | auth_signOut => resolved tt None
    | auth_resetPasswordForEmail _ _ => resolved tt None
    | auth_updateUser _ => resolved tt None
    end.

(** A profile has the username: the lookup returns its row. *)
Definition backend_username_taken : backend :=
  λ log r,
    match r as r' return outcome (data_of r') with
    | profiles_select_username_eq name => resolved (Some name) None
    | r' => backend_username_free log r'
    end.

End AuthUtils.

(* ===================================================================== *)
(** * Part III. [lib/auth/utils.ts]: the format validators                *)
(* ===================================================================== *)

Module Validators.

(** A JavaScript string is a sequence of UTF-16 code units; [length] and
    the (non-unicode) regular expressions below work on code units. *)
Abbreviation jsstring := (list N) (only parsing).

Definition js (s : string) : list N :=
  map Ascii.N_of_ascii (String.list_ascii_of_string s).

Definition between (lo hi c : N) : bool := ((lo <=? c) && (c <=? hi))%N.

Definition is_upper : N → bool := between 65 90.   (* [A-Z] *)
Definition is_lower : N → bool := between 97 122.  (* [a-z] *)
Definition is_digit : N → bool := between 48 57.   (* [0-9] *)
Definition is_char (x c : N) : bool := (c =? x)%N.
Definition at_sign : N := 64.
Definition full_stop : N := 46.
Definition low_line : N := 95.

(** [\s]: the white space and line terminator code points of ECMAScript. *)
Definition is_space (c : N) : bool :=
  between 9 13 c || is_char 32 c || is_char 160 c || is_char 5760 c ||
  between 8192 8202 c || is_char 8232 c || is_char 8233 c ||
  is_char 8239 c || is_char 8287 c || is_char 12288 c || is_char 65279 c.

(** [[^\s@]] *)
Definition not_space_at (c : N) : bool := negb (is_space c || is_char at_sign c).

(** [[a-zA-Z0-9_]] *)
Definition is_word (c : N) : bool :=
  is_lower c || is_upper c || is_digit c || is_char low_line c.

(** The pattern constructs the three validators use: a class (or a single
    character), a sequence, and [+]. *)
Inductive regex :=
| Class (p : N → bool)
| Cat (r1 r2 : regex)
| Plus (r : regex).

(** A literal [/^...$/] or [/.../]. *)
Record RegExp := {
  from_start : bool;
  body : regex;
  to_end : bool
}.

(** The backtracking matcher of ECMAScript, in continuation style:
    [rmatch fuel r s k] tries every way [r] can match a prefix of [s] and
    hands the rest to [k].  An iteration of [+] spends one unit of fuel;
    [test] supplies the length of the input, which is enough since every
    iteration consumes a code unit. *)
Fixpoint rmatch (fuel : nat) : regex → list N → (list N → bool) → bool :=
  fix go (r : regex) (s : list N) (k : list N → bool) : bool :=
    match r with
    | Class p =>
        match s with
        | c :: s' => p c && k s'
        | [] => false
        end
    | Cat r1 r2 => go r1 s (λ s', go r2 s' k)
    | Plus r1 =>
        go r1 s (λ s', match fuel with
                       | S fuel' => rmatch fuel' (Plus r1) s' k
                       | O => false
                       end || k s')
    end.

Definition at_end (to_end : bool) (rest : list N) : bool :=
  if to_end then bool_decide (rest = []) else true.

Definition match_at (re : RegExp) (s : list N) : bool :=
  rmatch (length s) (body re) s (at_end (to_end re)).

(** Without [^] the match may start at any index. *)
Fixpoint search (re : RegExp) (s : list N) : bool :=
  match_at re s ||
  match s with
  | [] => false
  | _ :: s' => search re s'
  end.

Definition test (re : RegExp) (s : list N) : bool :=
  if from_start re then match_at re s else search re s.

Definition emailRegex : RegExp :=
  {| from_start := true;
     body := Cat (Plus (Class not_space_at))
            (Cat (Class (is_char at_sign))
            (Cat (Plus (Class not_space_at))
            (Cat (Class (is_char full_stop))
                 (Plus (Class not_space_at)))));
     to_end := true |}.

Definition isValidEmail (email : list N) : bool := test emailRegex email.

Record ValidationResult := {
  valid : bool;
  message : option string
}.

Definition invalid (m : string) : ValidationResult :=
  {| valid := false; message := Some m |}.

Definition unanchored (r : regex) : RegExp :=
  {| from_start := false; body := r; to_end := false |}.

Definition validatePassword (password : list N) : ValidationResult :=
  if bool_decide (length password < 8) then
    invalid "Password must be at least 8 characters"
  else if negb (test (unanchored (Class is_upper)) password) then
    invalid "Password must contain at least one uppercase letter"
  else if negb (test (unanchored (Class is_lower)) password) then
    invalid "Password must contain at least one lowercase letter"
  else if negb (test (unanchored (Class is_digit)) password) then
    invalid "Password must contain at least one number"
  else {| valid := true; message := None |}.

Definition usernameRegex : RegExp :=
  {| from_start := true; body := Plus (Class is_word); to_end := true |}.

Definition validateUsername (username : list N) : ValidationResult :=
  if bool_decide (length username < 3) then
    invalid "Username must be at least 3 characters"
  else if bool_decide (20 < length username) then
    invalid "Username must be no more than 20 characters"
  else if negb (test usernameRegex username) then
    invalid "Username can only contain letters, numbers, and underscores"
  else {| valid := true; message := None |}.

(** The language of a pattern, for stating what [test] decides. *)
Inductive lang : regex → list N → Prop :=
| lang_class p c : p c = true → lang (Class p) [c]
| lang_cat r1 r2 s1 s2 : lang r1 s1 → lang r2 s2 → lang (Cat r1 r2) (s1 ++ s2)
| lang_plus_one r s : lang r s → lang (Plus r) s
| lang_plus_more r s1 s2 : lang r s1 → lang (Plus r) s2 → lang (Plus r) (s1 ++ s2).

(** ** The character sets the claims name, by code point *)

Definition ascii_letter (c : N) : Prop := (65 ≤ c ≤ 90 ∨ 97 ≤ c ≤ 122)%N.
Definition uppercase_letter (c : N) : Prop := (65 ≤ c ≤ 90)%N.
Definition lowercase_letter (c : N) : Prop := (97 ≤ c ≤ 122)%N.
Definition digit (c : N) : Prop := (48 ≤ c ≤ 57)%N.
Definition underscore (c : N) : Prop := c = 95%N.

Definition whitespace (c : N) : Prop :=
  (9 ≤ c ≤ 13 ∨ c = 32 ∨ c = 160 ∨ c = 5760 ∨ 8192 ≤ c ≤ 8202 ∨ c = 8232 ∨
   c = 8233 ∨ c = 8239 ∨ c = 8287 ∨ c = 12288 ∨ c = 65279)%N.

(** Neither white space nor [@]. *)
Definition address_char (c : N) : Prop := ¬ whitespace c ∧ c ≠ 64%N.

(** One or more [address_char]s. *)
Definition address_part (s : list N) : Prop := s ≠ [] ∧ Forall address_char s.

End Validators.

(* ===================================================================== *)
(** * Part IV. [lib/auth/hooks.ts]                                        *)
(* ===================================================================== *)

Module Hooks.

Section hooks.

(** [User] values are references to the SDK's user objects; the equality
    on them is the one React compares dependencies with. *)
Context {User : Type} `{EqDecision User}.

Record Session := { session_user : User }.

(** The state [useUser] keeps: [useState(null)] and [useState(true)]. *)
Record user_state := {
  user : option User;
  loading : bool
}.

#[local] Instance user_state_eq_dec : EqDecision user_state.
Proof. solve_decision. Defined.

Definition useUser_initial : user_state := {| user := None; loading := true |}.

Inductive set_state :=
| setUser (u : option User)
| setLoading (b : bool).

Definition apply_set (st : user_state) (a : set_state) : user_state :=
  match a with
  | setUser u => {| user := u; loading := loading st |}
  | setLoading b => {| user := user st; loading := b |}
  end.

(** What the two callbacks registered by [useUser]'s effect receive. *)
Inductive auth_event :=
| getUser_resolved (u : option User)
| onAuthStateChange (session : option Session).

(** The state updates a callback makes, in order. *)
Definition callback (ev : auth_event) : list set_state :=
  match ev with
  | getUser_resolved u => [setUser u; setLoading false]
  | onAuthStateChange session => [setUser (session_user <$> session); setLoading false]
  end.

(** The states rendered after a callback: one render for the whole
    callback when updates are batched, one per update otherwise. *)
Fixpoint states_after (st : user_state) (updates : list set_state) : list user_state :=
  match updates with
  | [] => []
  | a :: rest => apply_set st a :: states_after (apply_set st a) rest
  end.

Definition renders (batched : bool) (st : user_state) (ev : auth_event) : list user_state :=
  if batched then [foldl apply_set st (callback ev)]
  else states_after st (callback ev).

(** The router: the paths pushed, in order. *)
Definition useRequireAuth_effect (st : user_state) : list string :=
  if negb (loading st) && negb (bool_decide (is_Some (user st))) then ["/auth/login"]
  else [].

(** [redirectTo] is [None] when the argument is left out. *)
Definition useRedirectIfAuthenticated_effect (redirectTo : option string)
  (st : user_state) : list string :=
  let redirectTo := default "/dashboard" redirectTo in
  if negb (loading st) && bool_decide (is_Some (user st)) then [redirectTo]
  else [].

(** An effect runs after the first render and after each render in which
    one of its dependencies changed; of [[user, loading, router,
    redirectTo]] only [user] and [loading] ever change. *)
Fixpoint effect_runs (effect : user_state → list string) (prev : user_state)
  (rendered : list user_state) : list (user_state * list string) :=
  match rendered with
  | [] => []
  | st :: rest =>
      (if bool_decide (st = prev) then [] else [(st, effect st)]) ++
      effect_runs effect st rest
  end.

Fixpoint all_renders (batched : bool) (st : user_state) (evs : list auth_event)
  : list user_state :=
  match evs with
  | [] => []
  | ev :: rest =>
      renders batched st ev ++
      all_renders batched (foldl apply_set st (callback ev)) rest
  end.

(** A mounted component using the hook: the effect runs, each paired with
    the state it ran in. *)
Definition mounted (batched : bool) (effect : user_state → list string)
  (evs : list auth_event) : list (user_state * list string) :=
  (useUser_initial, effect useUser_initial) ::
  effect_runs effect useUser_initial (all_renders batched useUser_initial evs).

Definition navigations (runs : list (user_state * list string)) : list string :=
  concat (map snd runs).

End hooks.

End Hooks.

(* ===================================================================== *)
(** * Part IV-a. Reading the ledger back                                  *)
(* ===================================================================== *)

Module Reconcile.
Import Schema.

(** [(e->>'amount')::int], 0 when the entry has no integer amount. *)
Definition entry_amount (e : jsonb) : Z :=
  match jsonb_object_field e "amount" with
  | Some (JNum n) => n
  | _ => 0%Z
  end.

Definition entry_has_type (type : string) (e : jsonb) : bool :=
  match jsonb_object_field e "type" with
  | Some (JStr s) => bool_decide (s = type)
  | _ => false
  end.

Definition sum_amounts (l : list jsonb) : Z :=
  foldr (λ e acc, (entry_amount e + acc)%Z) 0%Z l.

(** The sum of the amounts of the entries of a history. *)
Definition history_total (h : jsonb) : Z :=
  sum_amounts (default [] (jsonb_array_elements h)).

(** The same sum over the entries of one type. *)
Definition history_total_of (type : string) (h : jsonb) : Z :=
  sum_amounts (filter (λ e, entry_has_type type e = true)
                      (default [] (jsonb_array_elements h))).

(** What a row's history says about its three counters. *)
Definition reconciles (r : user_points_row) : Prop :=
  total_earned r = history_total_of "earned" (points_history r) ∧
  total_spent r = (- history_total_of "spent" (points_history r))%Z ∧
  current_balance r = history_total (points_history r).

End Reconcile.

(* ===================================================================== *)
(** * Part IV-b. [20250101000006_create_user_challenges_table.sql]        *)
(* ===================================================================== *)

Module Challenges.
Import Schema.

(** The three [TEXT] columns with a [CHECK (... IN (...))]. *)
Inductive challenge_type := weekly | monthly | special.
Inductive challenge_metric := workouts | minutes | distance | calories | points.
Inductive challenge_status := active | completed | failed | expired.

#[global] Instance challenge_status_eq_dec : EqDecision challenge_status.
Proof. solve_decision. Defined.

(** [public.user_challenges], keyed by [id].  The time stamps of this
    table are compared with [NOW()], so they are kept as instants
    (microseconds); [status] and [points_reward] are nullable. *)
Record user_challenge := {
  user_id : uuid;
  type_ : challenge_type;
  title : string;
  description : option string;
  target_value : Z;
  current_value : Z;
  metric : challenge_metric;
  status : option challenge_status;
  points_reward : option Z;
  starts_at : Z;
  ends_at : Z;
  completed_at : option Z;
  created_at : Z
}.

#[global] Instance challenge_type_eq_dec : EqDecision challenge_type.
Proof. solve_decision. Defined.

#[global] Instance challenge_metric_eq_dec : EqDecision challenge_metric.
Proof. solve_decision. Defined.

#[global] Instance user_challenge_eq_dec : EqDecision user_challenge.
Proof. solve_decision. Defined.

(** The ledger tables together with [user_challenges]. *)
Record state := {
  db : database;
  user_challenges : gmap uuid user_challenge
}.

Definition int4gt (a b : option Z) : option bool := int4lt b a.
Definition int4ge (a b : option Z) : option bool := int4le b a.

Definition set_status (c : user_challenge) (s : challenge_status)
  (completed : option Z) : user_challenge :=
  {| user_id := user_id c;
     type_ := type_ c;
     title := title c;
     description := description c;
     target_value := target_value c;
     current_value := current_value c;
     metric := metric c;
     status := Some s;
     points_reward := points_reward c;
     starts_at := starts_at c;
     ends_at := ends_at c;
     completed_at := completed;
     created_at := created_at c |}.

(** [SELECT * INTO v_challenge ... WHERE id = p_challenge_id AND status =
    'active'] *)
Definition active_challenge (st : state) (p_challenge_id : option uuid)
  : option user_challenge :=
  id ← p_challenge_id;
  c ← user_challenges st !! id;
  if bool_decide (status c = Some active) then Some c else None.

Section functions.

(** How a [timestamptz] prints, for the history entry [award_points]
    writes. *)
Variable timestamptz_out : Z → string.

Definition check_challenge_completion (st : state) (now : Z)
  (p_challenge_id : option uuid) : sql_result (state * option bool) :=
  match p_challenge_id, active_challenge st p_challenge_id with
  | Some id, Some v_challenge =>
      if sql_if (int4ge (Some (current_value v_challenge))
                        (Some (target_value v_challenge))) then
        let marked :=
          <[id := set_status v_challenge completed (Some now)]> (user_challenges st) in
        if sql_if (int4gt (points_reward v_challenge) (Some 0%Z)) then
          out ←! award_points (db st) (timestamptz_out now)
                   (Some (user_id v_challenge)) (points_reward v_challenge)
                   (Some "challenge_completion")
                   (Some ("Completed: " +:+ title v_challenge));
          Ok ({| db := out.1; user_challenges := marked |}, Some true)
        else
          Ok ({| db := db st; user_challenges := marked |}, Some true)
      else Ok (st, Some false)
  | _, _ => Ok (st, Some false)
  end.

End functions.

(** The [WHERE] clause of [expire_old_challenges]. *)
Definition expirable (now : Z) (c : user_challenge) : bool :=
  bool_decide (status c = Some active) &&
  bool_decide (ends_at c < now)%Z &&
  bool_decide (current_value c < target_value c)%Z.

(** What the [UPDATE] does to one row; [completed_at] is not in the [SET]
    list and keeps its value. *)
Definition expire_row (now : Z) (c : user_challenge) : user_challenge :=
  if expirable now c then set_status c expired (completed_at c) else c.

Definition expire_old_challenges (st : state) (now : Z)
  : sql_result (state * option Z) :=
  let updated := expire_row now <$> user_challenges st in
  (* GET DIAGNOSTICS v_expired_count = ROW_COUNT *)
  v_expired_count ←!
    int4 (Z.of_nat (size (filter (λ kv, expirable now kv.2 = true)
                                 (user_challenges st))));
  Ok ({| db := db st; user_challenges := updated |}, Some v_expired_count).

(** ** Row-level security of [user_challenges] *)

(** [auth.uid() = user_id] *)
Definition expr_uid_is_owner : policy_expr user_challenge :=
  λ uid _ c, match uid with
             | Some u => Some (bool_decide (u = user_id c))
             | None => None
             end.

Definition user_challenges_policies : list (policy user_challenge) :=
  [ {| pol_name := "Users can view own challenges";
       pol_command := SELECT;
       pol_using := Some expr_uid_is_owner;
       pol_with_check := None |};
    {| pol_name := "System can insert challenges";
       pol_command := INSERT;
       pol_using := None;
       pol_with_check := Some expr_uid_is_owner |};
    {| pol_name := "System can update challenges";
       pol_command := UPDATE;
       pol_using := Some expr_uid_is_owner;
       pol_with_check := Some expr_uid_is_owner |};
    {| pol_name := "Users can delete own challenges";
       pol_command := DELETE;
       pol_using := Some expr_uid_is_owner;
       pol_with_check := None |} ].

(** What a row of [user_challenges] has to satisfy: the three [INTEGER]
    columns in range, and the [CHECK] constraints on them (a [CHECK] on
    [NULL] passes).  The [CHECK (... IN (...))] constraints hold by the
    types of the columns. *)
Definition user_challenge_checks (c : user_challenge) : sql_result unit :=
  _ ←! int4 (target_value c);
  _ ←! int4 (current_value c);
  _ ←! match points_reward c with
       | Some r => int4 r
       | None => Ok 0%Z
       end;
  _ ←! check "user_challenges_target_value_check" (bool_decide (0 < target_value c)%Z);
  _ ←! check "user_challenges_current_value_check" (bool_decide (0 ≤ current_value c)%Z);
  check "user_challenges_points_reward_check"
        (match points_reward c with
         | Some r => bool_decide (0 ≤ r)%Z
         | None => true
         end).

(** The rows an [UPDATE user_challenges ... WHERE] of a client reaches. *)
Definition client_update_challenge_targets (st : state) (uid : option string)
  (where_ : string → user_challenge → bool) : gmap string user_challenge :=
  filter (λ kv, (where_ kv.1 kv.2 &&
                 rls_using user_challenges_policies UPDATE uid kv.1 kv.2) = true)
         (user_challenges st).

(** [UPDATE user_challenges SET ... WHERE ...] by a client; [set_] gives
    the new row from the key and the old row.  The table has no trigger.
    The new [user_id] has to be [auth.uid()] again, so the reference to
    [profiles] stays what it was. *)
Definition client_update_challenge (st : state) (uid : option string)
  (where_ : string → user_challenge → bool)
  (set_ : string → user_challenge → user_challenge) : sql_result state :=
  t ←! foldr (λ kv acc,
               t ←! acc;
               let c' := set_ kv.1 kv.2 in
               if rls_with_check user_challenges_policies UPDATE uid kv.1 c' then
                 _ ←! user_challenge_checks c';
                 Ok (<[kv.1 := c']> t)
               else Raise (rls_violation "user_challenges"))
            (Ok (user_challenges st))
            (map_to_list (client_update_challenge_targets st uid where_));
  Ok {| db := db st; user_challenges := t |}.

(** [SET status = 'active'] *)
Definition reactivated (c : user_challenge) : user_challenge :=
  set_status c active (completed_at c).

(** ** A sample state: [u1] has met a weekly challenge worth 50 points *)

Definition challenge_c1 : user_challenge :=
  {| user_id := "u1";
     type_ := weekly;
     title := "Three workouts";
     description := None;
     target_value := 3;
     current_value := 3;
     metric := workouts;
     status := Some active;
     points_reward := Some 50%Z;
     starts_at := 1735689600000000;
     ends_at := 1736294400000000;
     completed_at := None;
     created_at := 1735689600000000 |}.

Definition state_u1 : state :=
  {| db := db_u1; user_challenges := {[ "c1" := challenge_c1 ]} |}.

(** The same challenge without a reward, and [u1] with a ledger close to
    the top of [INTEGER]. *)
Definition challenge_c2 : user_challenge :=
  {| user_id := "u1";
     type_ := special;
     title := "Warm-up";
     description := None;
     target_value := 1;
     current_value := 2;
     metric := workouts;
     status := Some active;
     points_reward := None;
     starts_at := 1735689600000000;
     ends_at := 1736294400000000;
     completed_at := None;
     created_at := 1735689600000000 |}.

Definition state_no_reward : state :=
  {| db := db_u1; user_challenges := {[ "c2" := challenge_c2 ]} |}.

Definition state_rich : state :=
  {| db := step db_u1 "2025-01-03T00:00:00Z"
             (ev_award_points (Some "u1") (Some 2147483600%Z) None None);
     user_challenges := {[ "c1" := challenge_c1 ]} |}.

(** A weekly challenge of [u1] that ended short of its target. *)
Definition challenge_c3 : user_challenge :=
  {| user_id := "u1";
     type_ := weekly;
     title := "Run 20 km";
     description := None;
     target_value := 20;
     current_value := 12;
     metric := distance;
     status := Some active;
     points_reward := Some 30%Z;
     starts_at := 1735689600000000;
     ends_at := 1736294400000000;
     completed_at := None;
     created_at := 1735689600000000 |}.

Definition state_overdue : state :=
  {| db := db_u1;
     user_challenges := {[ "c1" := challenge_c1; "c3" := challenge_c3 ]} |}.

(** A rendering that is good enough to run the samples. *)
Definition sample_timestamptz_out (t : Z) : string := "2025-01-05T00:00:00Z".

End Challenges.

(* ===================================================================== *)
(** * Part IV-c. [lib/auth/hooks.ts]: [useAuth] and the state of [useUser] *)
(* ===================================================================== *)

Module HooksMore.
Import Hooks.

(** [signOut] of [useAuth]: [await supabase.auth.signOut();
    router.push('/')], with no [try] around it.  [supabase] is the client
    the body of the hook created when it rendered, so [signOut] itself
    makes no call of [createClient()].  The result is the list of paths
    pushed. *)
Definition useAuth_signOut : AuthUtils.prog (list string) :=
  AuthUtils.bind (AuthUtils.await AuthUtils.auth_signOut)
                 (λ _, AuthUtils.ret ["/"]).

Section hooks.

Context {User : Type} `{EqDecision User}.

(** [isAuthenticated: !!user] *)
Definition isAuthenticated (st : @user_state User) : bool :=
  bool_decide (is_Some (user st)).

(** The user a callback announces: [user], or [session?.user ?? null]. *)
Definition announced (ev : @auth_event User) : option User :=
  match ev with
  | getUser_resolved u => u
  | onAuthStateChange session => session_user <$> session
  end.

(** The state [useUser] is in after the callbacks [evs]. *)
Definition useUser_after (evs : list (@auth_event User)) : @user_state User :=
  foldl (λ st ev, foldl apply_set st (callback ev)) useUser_initial evs.

End hooks.

End HooksMore.

(* ===================================================================== *)
(** * Part IV-d. [app/auth/signup/page.tsx] and [app/auth/login/page.tsx] *)
(* ===================================================================== *)

Module Pages.
Import Validators.

(** What a form shows: the [loading] flag, the [errors] object (a key per
    field, and [general]) and the paths pushed on the router. *)
Record view := {
  loading : bool;
  errors : gmap string string;
  pushed : list string
}.

(** [!s] for a string: true exactly for the empty string. *)
Definition is_empty (s : list N) : bool :=
  match s with
  | [] => true
  | _ :: _ => false
  end.

(** [error.field || 'general'] *)
Definition field_or_general (field : option string) : string :=
  match field with
  | Some f => if bool_decide (f = "") then "general" else f
  | None => "general"
  end.

(** [Object.keys(newErrors).length === 0] *)
Definition no_errors (newErrors : gmap string string) : bool :=
  bool_decide (size newErrors = 0).

Module SignUpPage.

Record formData := {
  email : list N;
  password : list N;
  confirmPassword : list N;
  username : list N;
  displayName : list N
}.

(** [validateForm]: the errors it sets and the boolean it returns.
    [passwordCheck.message!] is the message of the failed rule; the
    validators set one whenever [valid] is false. *)
Definition validateForm (f : formData) : gmap string string * bool :=
  let newErrors : gmap string string := ∅ in
  let newErrors :=
    if is_empty (email f) then <["email" := "Email is required"]> newErrors
    else if negb (isValidEmail (email f)) then
           <["email" := "Please enter a valid email"]> newErrors
    else newErrors in
  let newErrors :=
    if is_empty (password f) then <["password" := "Password is required"]> newErrors
    else
      let passwordCheck := validatePassword (password f) in
      if negb (valid passwordCheck) then
        <["password" := default "" (message passwordCheck)]> newErrors
      else newErrors in
  let newErrors :=
    if is_empty (confirmPassword f) then
      <["confirmPassword" := "Please confirm your password"]> newErrors
    else if bool_decide (password f ≠ confirmPassword f) then
      <["confirmPassword" := "Passwords do not match"]> newErrors
    else newErrors in
  let newErrors :=
    if is_empty (username f) then <["username" := "Username is required"]> newErrors
    else
      let usernameCheck := validateUsername (username f) in
      if negb (valid usernameCheck) then
        <["username" := default "" (message usernameCheck)]> newErrors
      else newErrors in
  let newErrors :=
    if is_empty (displayName f) then
      <["displayName" := "Display name is required"]> newErrors
    else if bool_decide (length (displayName f) < 2) then
      <["displayName" := "Display name must be at least 2 characters"]> newErrors
    else newErrors in
  (newErrors, no_errors newErrors).

Section submit.

(** The form holds JavaScript strings, the request wrappers of Part II
    take their arguments as text; [text_of] is that change of carrier. *)
Variable text_of : list N → string.

Definition handleSubmit (f : formData) (v : view) : AuthUtils.prog view :=
  let '(newErrors, ok) := validateForm f in
  if negb ok then
    AuthUtils.ret {| loading := loading v; errors := newErrors; pushed := pushed v |}
  else
    (* setLoading(true); setErrors({}) *)
    AuthUtils.bind
      (AuthUtils.signUp
         {| AuthUtils.SignUpData.email := text_of (email f);
            AuthUtils.SignUpData.password := text_of (password f);
            AuthUtils.SignUpData.username := text_of (username f);
            AuthUtils.SignUpData.displayName := text_of (displayName f) |})
      (λ res,
         match AuthUtils.UserResult.error res with
         | Some error =>
             AuthUtils.ret
               {| loading := false;
                  errors := {[ field_or_general (AuthUtils.AuthError.field error) :=
                                 AuthUtils.AuthError.message error ]};
                  pushed := pushed v |}
         | None =>
             match AuthUtils.UserResult.user res with
             | Some _ =>
                 AuthUtils.ret {| loading := true; errors := ∅;
                                  pushed := pushed v ++ ["/dashboard"] |}
             | None =>
                 AuthUtils.ret {| loading := true; errors := ∅; pushed := pushed v |}
             end
         end).

End submit.

End SignUpPage.

Module LoginPage.

Record formData := {
  email : list N;
  password : list N
}.

Definition validateForm (f : formData) : gmap string string * bool :=
  let newErrors : gmap string string := ∅ in
  let newErrors :=
    if is_empty (email f) then <["email" := "Email is required"]> newErrors
    else if negb (isValidEmail (email f)) then
           <["email" := "Please enter a valid email"]> newErrors
    else newErrors in
  let newErrors :=
    if is_empty (password f) then <["password" := "Password is required"]> newErrors
    else newErrors in
  (newErrors, no_errors newErrors).

Section submit.

Variable text_of : list N → string.

Definition handleSubmit (f : formData) (v : view) : AuthUtils.prog view :=
  let '(newErrors, ok) := validateForm f in
  if negb ok then
    AuthUtils.ret {| loading := loading v; errors := newErrors; pushed := pushed v |}
  else
    AuthUtils.bind
      (AuthUtils.login
         {| AuthUtils.LoginData.email := text_of (email f);
            AuthUtils.LoginData.password := text_of (password f) |})
      (λ res,
         match AuthUtils.UserResult.error res with
         | Some error =>
             AuthUtils.ret
               {| loading := false;
                  errors := {[ "general" := AuthUtils.AuthError.message error ]};
                  pushed := pushed v |}
         | None =>
             match AuthUtils.UserResult.user res with
             | Some _ =>
                 AuthUtils.ret {| loading := true; errors := ∅;
                                  pushed := pushed v ++ ["/dashboard"] |}
             | None =>
                 AuthUtils.ret {| loading := true; errors := ∅; pushed := pushed v |}
             end
         end).

End submit.

End LoginPage.

(** ** The error of each field, for stating what [validateForm] sets *)

(** [newErrors[key] = msg] when there is a message. *)
Definition set_error (key : string) (o : option string) (m : gmap string string)
  : gmap string string :=
  match o with
  | Some msg => <[key := msg]> m
  | None => m
  end.

Definition email_error (email : list N) : option string :=
  if is_empty email then Some "Email is required"
  else if negb (isValidEmail email) then Some "Please enter a valid email"
  else None.

Definition password_error (password : list N) : option string :=
  if is_empty password then Some "Password is required"
  else if negb (valid (validatePassword password)) then
         Some (default "" (message (validatePassword password)))
  else None.

Definition confirm_error (password confirmPassword : list N) : option string :=
  if is_empty confirmPassword then Some "Please confirm your password"
  else if bool_decide (password ≠ confirmPassword) then Some "Passwords do not match"
  else None.

Definition username_error (username : list N) : option string :=
  if is_empty username then Some "Username is required"
  else if negb (valid (validateUsername username)) then
         Some (default "" (message (validateUsername username)))
  else None.

Definition display_error (displayName : list N) : option string :=
  if is_empty displayName then Some "Display name is required"
  else if bool_decide (length displayName < 2) then
         Some "Display name must be at least 2 characters"
  else None.

(** The view a form is left in once [signUp] or [login] has answered;
    [key] is where the page files the error. *)
Definition view_after (key : AuthUtils.AuthError.t → string) (v : view)
  (res : AuthUtils.UserResult.t) : view :=
  match AuthUtils.UserResult.error res with
  | Some error =>
      {| loading := false;
         errors := {[ key error := AuthUtils.AuthError.message error ]};
         pushed := pushed v |}
  | None =>
      {| loading := true;
         errors := ∅;
         pushed := pushed v ++ match AuthUtils.UserResult.user res with
                               | Some _ => ["/dashboard"]
                               | None => []
                               end |}
  end.

(** ** What the pages hand to the wrappers *)

Definition signup_data (text_of : list N → string) (f : SignUpPage.formData) :
  AuthUtils.SignUpData.t :=
  {| AuthUtils.SignUpData.email := text_of (SignUpPage.email f);
     AuthUtils.SignUpData.password := text_of (SignUpPage.password f);
     AuthUtils.SignUpData.username := text_of (SignUpPage.username f);
     AuthUtils.SignUpData.displayName := text_of (SignUpPage.displayName f) |}.

Definition login_request (text_of : list N → string) (f : LoginPage.formData) :
  AuthUtils.request :=
  AuthUtils.auth_signInWithPassword (text_of (LoginPage.email f))
                                    (text_of (LoginPage.password f)).

(** ** Sample forms *)

Definition blank_view : view := {| loading := false; errors := ∅; pushed := [] |}.

Definition signup_alice : SignUpPage.formData :=
  {| SignUpPage.email := js "alice@example.com";
     SignUpPage.password := js "TestPass123";
     SignUpPage.confirmPassword := js "TestPass123";
     SignUpPage.username := js "alice";
     SignUpPage.displayName := js "Alice" |}.

Definition signup_long_username : SignUpPage.formData :=
  {| SignUpPage.email := js "alice@example.com";
     SignUpPage.password := js "TestPass123";
     SignUpPage.confirmPassword := js "TestPass123";
     SignUpPage.username := js "testuser1700000000000";
     SignUpPage.displayName := js "Alice" |}.

Definition login_alice : LoginPage.formData :=
  {| LoginPage.email := js "alice@example.com";
     LoginPage.password := js "TestPass123" |}.

(** The code units of a string as text, for the samples. *)
Definition sample_text_of (s : list N) : string :=
  String.string_of_list_ascii (map Ascii.ascii_of_N s).

End Pages.


(* ===================================================================== *)
(** * Part V. The ledger: theorems                                        *)
(* ===================================================================== *)

Module SchemaFacts.
Import Schema.

#[local] Open Scope Z_scope.

Lemma int4_Ok z z' : int4 z = Ok z' ↔ z' = z ∧ int4_min ≤ z ≤ int4_max.
Proof.
  unfold int4. case_bool_decide; split.
  - intros [= ->]. done.
  - by intros [-> _].
  - discriminate.
  - intros [_ ?]. contradiction.
Qed.

Lemma int4_in_range z : int4_min ≤ z ≤ int4_max → int4 z = Ok z.
Proof. intros. by apply int4_Ok. Qed.

Lemma set_user_points_id db : set_user_points db (user_points db) = db.
Proof. by destruct db. Qed.

Lemma user_points_checks_Ok r :
  user_points_checks r = Ok tt ↔
  0 ≤ current_balance r ∧ 0 ≤ total_earned r ∧ 0 ≤ total_spent r ∧
  1 ≤ level r ∧ 0 < weekly_goal r.
Proof.
  unfold user_points_checks, check, sql_bind.
  repeat case_bool_decide; split; intros H'; try done; try lia.
Qed.

(** What a successful [UPDATE] of [award_points] did to the row. *)
Lemma award_update_Ok r now p e r' :
  award_update r now p e = Ok r' →
  ∃ a, p = Some a ∧
       r' = {| current_balance := current_balance r + a;
               total_earned := total_earned r + a;
               total_spent := total_spent r;
               level := level r;
               points_history := jsonb_concat (points_history r) e;
               weekly_goal := weekly_goal r;
               updated_at := now |} ∧
       current_balance r + a ≤ int4_max ∧ total_earned r + a ≤ int4_max ∧
       0 ≤ current_balance r + a ∧ 0 ≤ total_earned r + a ∧ 0 ≤ total_spent r.
Proof.
  unfold award_update. destruct p as [a|]; simpl; [|discriminate].
  destruct (int4 (current_balance r + a)) as [b|] eqn:Hb; simpl; [|discriminate].
  destruct (int4 (total_earned r + a)) as [t|] eqn:Ht; simpl; [|discriminate].
  apply int4_Ok in Hb as [-> [_ Hb]]. apply int4_Ok in Ht as [-> [_ Ht]].
  destruct (user_points_checks _) as [[]|] eqn:Hc; simpl; [|discriminate].
  intros [= <-]. apply user_points_checks_Ok in Hc. simpl in Hc.
  exists a. repeat split; tauto.
Qed.

Lemma spend_update_Ok r now p e r' :
  spend_update r now p e = Ok r' →
  ∃ a, p = Some a ∧
       r' = {| current_balance := current_balance r - a;
               total_earned := total_earned r;
               total_spent := total_spent r + a;
               level := level r;
               points_history := jsonb_concat (points_history r) e;
               weekly_goal := weekly_goal r;
               updated_at := now |} ∧
       total_spent r + a ≤ int4_max ∧
       0 ≤ current_balance r - a ∧ 0 ≤ total_earned r ∧ 0 ≤ total_spent r + a.
Proof.
  unfold spend_update. destruct p as [a|]; simpl; [|discriminate].
  destruct (int4 (current_balance r - a)) as [b|] eqn:Hb; simpl; [|discriminate].
  destruct (int4 (total_spent r + a)) as [t|] eqn:Ht; simpl; [|discriminate].
  apply int4_Ok in Hb as [-> [_ Hb]]. apply int4_Ok in Ht as [-> [_ Ht]].
  destruct (user_points_checks _) as [[]|] eqn:Hc; simpl; [|discriminate].
  intros [= <-]. apply user_points_checks_Ok in Hc. simpl in Hc.
  exists a. repeat split; tauto.
Qed.

Lemma row_of_Some db u : row_of db (Some u) = user_points db !! u.
Proof. done. Qed.

Lemma positive_amount_passes a : 0 < a → sql_if (int4le (Some a) (Some 0)) = false.
Proof. intros. simpl. case_bool_decide; [lia | done]. Qed.

(** [award_points] on an existing row is the [UPDATE] of that row. *)
Lemma award_points_on_row db now u r a s d :
  user_points db !! u = Some r → 0 < a →
  award_points db now (Some u) (Some a) s d =
  (r' ←! award_update r now (Some a)
           (jsonb_build_object
              [("amount", JNum a); ("source", jsonb_of_text s);
               ("description", jsonb_of_text d); ("timestamp", JStr now);
               ("type", JStr "earned")]);
   Ok (set_user_points db (<[u := r']> (user_points db)),
       [(Some (current_balance r'), Some (total_earned r'))])).
Proof.
  intros Hr Ha. unfold award_points.
  rewrite positive_amount_passes by done. rewrite row_of_Some, Hr. done.
Qed.

(** [spend_points] on an existing row with enough balance is the [UPDATE]
    of that row. *)
Lemma spend_points_on_row db now u r a s d :
  user_points db !! u = Some r → 0 < a ≤ current_balance r → a ≤ int4_max →
  spend_points db now (Some u) (Some a) s d =
  (r' ←! spend_update r now (Some a)
           (jsonb_build_object
              [("amount", JNum (- a)); ("purpose", jsonb_of_text s);
               ("description", jsonb_of_text d); ("timestamp", JStr now);
               ("type", JStr "spent")]);
   Ok (set_user_points db (<[u := r']> (user_points db)),
       [(Some (current_balance r'), Some true)])).
Proof.
  intros Hr Ha Hmax. unfold spend_points.
  rewrite positive_amount_passes by lia. rewrite row_of_Some, Hr. simpl.
  case_bool_decide; [lia|]. simpl.
  rewrite int4_in_range by (unfold int4_min, int4_max in *; lia). done.
Qed.

Lemma not_nonpositive a : sql_if (int4le (Some a) (Some 0)) = false → 0 < a.
Proof. simpl. case_bool_decide; [done | lia]. Qed.

Lemma rls_user_points_update uid id r :
  rls_using user_points_policies UPDATE uid id r = false.
Proof. reflexivity. Qed.

Lemma rls_user_points_delete uid id r :
  rls_using user_points_policies DELETE uid id r = false.
Proof. reflexivity. Qed.

Lemma rls_user_points_insert uid id r :
  rls_with_check user_points_policies INSERT uid id r = false.
Proof. reflexivity. Qed.

Lemma rls_user_points_select uid id r :
  rls_using user_points_policies SELECT uid id r = true.
Proof. reflexivity. Qed.

Lemma client_update_targets_empty db uid where_ :
  client_update_targets db uid where_ = ∅.
Proof.
  unfold client_update_targets. apply map_empty. intros id.
  apply map_lookup_filter_None. right. intros r _. cbn [fst snd].
  rewrite rls_user_points_update, andb_false_r. done.
Qed.

(** A direct [UPDATE] reaches no row. *)
Lemma client_update_user_points_noop db uid now where_ set_ :
  client_update_user_points db uid now where_ set_ = Ok db.
Proof.
  unfold client_update_user_points.
  rewrite client_update_targets_empty, map_to_list_empty. simpl.
  by rewrite set_user_points_id.
Qed.

(** A direct [DELETE] reaches no row. *)
Lemma client_delete_user_points_noop db uid where_ :
  client_delete_user_points db uid where_ = Ok db.
Proof.
  unfold client_delete_user_points. f_equal.
  rewrite map_filter_id; [apply set_user_points_id|].
  intros id r _. cbn [fst snd].
  by rewrite rls_user_points_delete, andb_false_r.
Qed.

(** A direct [INSERT] is refused. *)
Lemma client_insert_user_points_refused db uid id r :
  client_insert_user_points db uid id r = Raise (rls_violation "user_points").
Proof. unfold client_insert_user_points. by rewrite rls_user_points_insert. Qed.

(** Every client reads every row. *)
Lemma client_select_user_points_all db uid :
  client_select_user_points db uid = user_points db.
Proof.
  unfold client_select_user_points. apply map_filter_id.
  intros id r _. cbn [fst snd]. apply rls_user_points_select.
Qed.

Lemma handle_new_profile_points_Ok db now id db' :
  handle_new_profile_points db now id = Ok db' →
  user_points db !! id = None ∧
  db' = set_user_points db (<[id := default_row now]> (user_points db)).
Proof.
  unfold handle_new_profile_points.
  destruct (user_points db !! id); [discriminate|].
  simpl. by intros [= <-].
Qed.

Lemma insert_profile_Ok db now id p db' :
  insert_profile db now id p = Ok db' →
  profiles db !! id = None ∧ user_points db !! id = None ∧
  profiles db' = <[id := p]> (profiles db) ∧
  user_points db' = <[id := default_row now]> (user_points db).
Proof.
  unfold insert_profile.
  destruct (profiles db !! id); [discriminate|].
  destruct (username_taken db (username p)); [discriminate|].
  intros [Hnone ->]%handle_new_profile_points_Ok. done.
Qed.

Lemma insert_profile_row_change db now id p db' u ev :
  (∃ mu md em, ev = ev_new_user id mu md em) ∨
  (∃ uid p, ev = ev_client_insert_profile uid id p) →
  insert_profile db now id p = Ok db' →
  row_change now u ev (user_points db !! u) (user_points db' !! u).
Proof.
  intros Hev (_ & Hnone & _ & ->)%insert_profile_Ok.
  destruct (decide (id = u)) as [->|Hne].
  - rewrite lookup_insert_eq, Hnone. by apply rc_init.
  - rewrite lookup_insert_ne by done. apply rc_same.
Qed.

Lemma award_points_row_change db now p_user_id p_amount s d db' out u :
  award_points db now p_user_id p_amount s d = Ok (db', out) →
  row_change now u (ev_award_points p_user_id p_amount s d)
    (user_points db !! u) (user_points db' !! u).
Proof.
  unfold award_points.
  destruct (sql_if (int4le p_amount (Some 0))) eqn:Hpos; [discriminate|].
  destruct p_user_id as [v|]; [|intros [= <- _]; apply rc_same].
  rewrite row_of_Some.
  destruct (user_points db !! v) as [r|] eqn:Hr; [|intros [= <- _]; apply rc_same].
  destruct (award_update _ _ _ _) as [r'|] eqn:Hu; simpl; [|discriminate].
  intros [= <- _]. simpl.
  destruct (decide (v = u)) as [->|Hne].
  - rewrite lookup_insert_eq, Hr.
    destruct (award_update_Ok _ _ _ _ _ Hu) as (a & -> & _).
    eapply rc_award; [done | by apply not_nonpositive | | by eexists | exact Hu].
    by split.
  - rewrite lookup_insert_ne by done. apply rc_same.
Qed.

Lemma spend_points_row_change db now p_user_id p_amount s d db' out u :
  spend_points db now p_user_id p_amount s d = Ok (db', out) →
  row_change now u (ev_spend_points p_user_id p_amount s d)
    (user_points db !! u) (user_points db' !! u).
Proof.
  unfold spend_points.
  destruct (sql_if (int4le p_amount (Some 0))) eqn:Hpos; [discriminate|].
  destruct (sql_if (int4lt _ _)) eqn:Hlt; [intros [= <- _]; apply rc_same|].
  destruct (int4um p_amount) as [neg|] eqn:Hneg; simpl; [|discriminate].
  destruct p_user_id as [v|]; [|intros [= <- _]; apply rc_same].
  rewrite row_of_Some in *.
  destruct (user_points db !! v) as [r|] eqn:Hr; [|intros [= <- _]; apply rc_same].
  destruct (spend_update _ _ _ _) as [r'|] eqn:Hu; simpl; [|discriminate].
  intros [= <- _]. simpl.
  destruct (decide (v = u)) as [->|Hne].
  - rewrite lookup_insert_eq, Hr.
    destruct (spend_update_Ok _ _ _ _ _ Hu) as (a & -> & _).
    simpl in Hlt, Hneg.
    destruct (int4 (- a)) as [n|] eqn:Hn; simpl in Hneg; [|discriminate].
    apply int4_Ok in Hn as [-> _]. injection Hneg as <-.
    eapply rc_spend; [done | | | by eexists | exact Hu].
    + split; [by apply not_nonpositive|]. case_bool_decide; [done | lia].
    + by split.
  - rewrite lookup_insert_ne by done. apply rc_same.
Qed.

Lemma client_delete_profile_row_change db uid where_ db' now u :
  client_delete_profile db uid where_ = Ok db' →
  row_change now u (ev_client_delete_profile uid where_)
    (user_points db !! u) (user_points db' !! u).
Proof.
  intros [= <-]. simpl.
  destruct (user_points db !! u) as [r|] eqn:Hr.
  - match goal with |- row_change _ _ _ _ ?o => destruct o as [r'|] eqn:Hf end.
    + apply map_lookup_filter_Some in Hf as [Hf _].
      rewrite Hr in Hf. injection Hf as <-. apply rc_same.
    + by eapply rc_cascade.
  - match goal with |- row_change _ _ _ _ ?o => destruct o as [r'|] eqn:Hf end.
    + apply map_lookup_filter_Some in Hf as [Hf _]. congruence.
    + apply rc_same.
Qed.

(** Every statement changes each ledger row in one of the five ways. *)
Lemma exec_row_change db now ev db' u :
  exec db now ev = Ok db' →
  row_change now u ev (user_points db !! u) (user_points db' !! u).
Proof.
  destruct ev; simpl.
  - unfold handle_new_user. apply insert_profile_row_change. left. eauto.
  - unfold client_insert_profile.
    destruct (rls_with_check _ _ _ _ _); [|discriminate].
    apply insert_profile_row_change. right. eauto.
  - apply client_delete_profile_row_change.
  - unfold client_update_profile. destruct (foldr _ _ _) as [t|]; simpl; [|discriminate].
    intros [= <-]. apply rc_same.
  - destruct (award_points _ _ _ _ _ _) as [[db1 out]|] eqn:E; simpl; [|discriminate].
    intros [= <-]. by eapply award_points_row_change.
  - destruct (spend_points _ _ _ _ _ _) as [[db1 out]|] eqn:E; simpl; [|discriminate].
    intros [= <-]. by eapply spend_points_row_change.
  - by rewrite client_insert_user_points_refused.
  - rewrite client_update_user_points_noop. intros [= <-]. apply rc_same.
  - rewrite client_delete_user_points_noop. intros [= <-]. apply rc_same.
Qed.

Lemma step_row_change db now ev u :
  row_change now u ev (user_points db !! u) (user_points (step db now ev) !! u).
Proof.
  unfold step. destruct (exec db now ev) eqn:E.
  - by apply exec_row_change.
  - apply rc_same.
Qed.

Lemma default_row_wf now : row_wf (default_row now).
Proof.
  unfold row_wf, ledger_inv, int4_max. simpl. repeat split; try lia. by eexists.
Qed.

Lemma award_update_ledger_inv r now p e r' :
  award_update r now p e = Ok r' → ledger_inv r → ledger_inv r'.
Proof.
  intros (a & -> & -> & ?)%award_update_Ok (? & ? & ? & ?).
  unfold ledger_inv. simpl. lia.
Qed.

Lemma spend_update_ledger_inv r now p e r' :
  spend_update r now p e = Ok r' → ledger_inv r → ledger_inv r'.
Proof.
  intros (a & -> & -> & ?)%spend_update_Ok (? & ? & ? & ?).
  unfold ledger_inv. simpl. lia.
Qed.

(** A row change keeps the accounting equation. *)
Lemma row_change_ledger_inv now u ev o o' :
  row_change now u ev o o' →
  (∀ r, o = Some r → ledger_inv r) → ∀ r', o' = Some r' → ledger_inv r'.
Proof.
  intros Hc Ho r' Hr'. destruct Hc; simplify_eq.
  - by apply Ho.
  - destruct (default_row_wf now) as [? _]. done.
  - eapply award_update_ledger_inv; eauto.
  - eapply spend_update_ledger_inv; eauto.
Qed.

Lemma row_change_wf now u ev o o' :
  row_change now u ev o o' →
  (∀ r, o = Some r → row_wf r) → ∀ r', o' = Some r' → row_wf r'.
Proof.
  intros Hc Ho r' Hr'. destruct Hc as [| |r r1 a s d e _ _ _ [kvs ->] Hu
                                       |r r1 a s d e _ _ _ [kvs ->] Hu|]; simplify_eq.
  - by apply Ho.
  - apply default_row_wf.
  - destruct (Ho r eq_refl) as (Hinv & Hmax & Hl & Hw & [l Hl']).
    split; [by eapply award_update_ledger_inv|].
    apply award_update_Ok in Hu as (? & [= <-] & -> & ?). simpl.
    destruct (points_history r); try discriminate Hl'. simpl.
    repeat split; first [done | lia | by eexists].
  - destruct (Ho r eq_refl) as (Hinv & Hmax & Hl & Hw & [l Hl']).
    split; [by eapply spend_update_ledger_inv|].
    apply spend_update_Ok in Hu as (? & [= <-] & -> & ?). simpl.
    destruct (points_history r); try discriminate Hl'. simpl.
    repeat split; first [done | lia | by eexists].
Qed.

(** Every row of a reachable database is well-formed. *)
Lemma reachable_wf db : reachable db → ∀ u r, user_points db !! u = Some r → row_wf r.
Proof.
  induction 1 as [|db now ev Hreach IH]; intros u r Hr.
  - simpl in Hr. by rewrite lookup_empty in Hr.
  - eapply row_change_wf; [apply (step_row_change db now ev u) | | exact Hr].
    intros r0. apply IH.
Qed.

Lemma db_u1_reachable : reachable db_u1.
Proof. unfold db_u1. do 2 apply reachable_step. apply reachable_empty. Qed.

Lemma db_u1_row : user_points db_u1 !! "u1" = Some row_u1.
Proof. vm_compute. reflexivity. Qed.

Lemma db_u1_table : user_points db_u1 = <["u1" := row_u1]> ∅.
Proof. vm_compute. reflexivity. Qed.

Lemma history_extends_entry h kvs :
  is_Some (jsonb_array_elements h) →
  history_extends h (jsonb_concat h (JObj kvs)) [JObj kvs].
Proof.
  intros [l Hl]. destruct h; try discriminate Hl. by exists elems.
Qed.

(** The [UPDATE] of [award_points] succeeds on a well-formed row as long
    as [total_earned] stays an [INTEGER]. *)
Lemma award_update_succeeds r now a e :
  row_wf r → 0 < a → total_earned r + a ≤ int4_max →
  ∃ r', award_update r now (Some a) e = Ok r'.
Proof.
  intros ((Heq & ? & ? & ?) & ? & ? & ? & _) Ha Hmax.
  unfold award_update. simpl.
  rewrite !int4_in_range by (unfold int4_min, int4_max in *; lia). simpl.
  match goal with |- context [user_points_checks ?x] =>
    assert (user_points_checks x = Ok tt) as -> by (apply user_points_checks_Ok; simpl; lia)
  end.
  simpl. by eexists.
Qed.

(** The [UPDATE] of [spend_points] succeeds on a well-formed row whose
    balance covers the amount. *)
Lemma spend_update_succeeds r now a e :
  row_wf r → 0 < a ≤ current_balance r →
  ∃ r', spend_update r now (Some a) e = Ok r'.
Proof.
  intros ((Heq & ? & ? & ?) & ? & ? & ? & _) Ha.
  unfold spend_update. simpl.
  rewrite !int4_in_range by (unfold int4_min, int4_max in *; lia). simpl.
  match goal with |- context [user_points_checks ?x] =>
    assert (user_points_checks x = Ok tt) as -> by (apply user_points_checks_Ok; simpl; lia)
  end.
  simpl. by eexists.
Qed.

(** C1.  In every reachable database, for a user [u] with a ledger row
    and an amount [a > 0]: a call of [award_points(u, a)] that succeeds
    adds exactly [a] to [current_balance] and to [total_earned], appends
    exactly one entry of type ['earned'] and amount [a] to
    [points_history], and returns the new balance and the new
    [total_earned] (and the call does succeed whenever [total_earned + a]
    is still an [INTEGER]); a call of [spend_points(u, a)] with
    [current_balance >= a] succeeds, takes exactly [a] from
    [current_balance], adds exactly [a] to [total_spent], appends exactly
    one entry of type ['spent'] and amount [-a], and returns the new
    balance with [success = true]. *)
Theorem award_and_spend_adjust_the_ledger db now u r a :
  reachable db → user_points db !! u = Some r → 0 < a →
  (∀ s d db' out,
     award_points db now (Some u) (Some a) s d = Ok (db', out) →
     ∃ r' e,
       user_points db' = <[u := r']> (user_points db) ∧
       current_balance r' = current_balance r + a ∧
       total_earned r' = total_earned r + a ∧
       total_spent r' = total_spent r ∧
       history_extends (points_history r) (points_history r') [e] ∧
       is_entry e "earned" a ∧
       out = [(Some (current_balance r'), Some (total_earned r'))]) ∧
  (∀ s d, total_earned r + a ≤ int4_max →
     ∃ db' out, award_points db now (Some u) (Some a) s d = Ok (db', out)) ∧
  (∀ s d, a ≤ current_balance r →
     ∃ db' r' e,
       spend_points db now (Some u) (Some a) s d =
         Ok (db', [(Some (current_balance r'), Some true)]) ∧
       user_points db' = <[u := r']> (user_points db) ∧
       current_balance r' = current_balance r - a ∧
       total_spent r' = total_spent r + a ∧
       total_earned r' = total_earned r ∧
       history_extends (points_history r) (points_history r') [e] ∧
       is_entry e "spent" (- a)).
Proof.
  intros Hreach Hr Ha.
  pose proof (reachable_wf db Hreach u r Hr) as Hwf.
  assert (Harr : is_Some (jsonb_array_elements (points_history r))) by apply Hwf.
  split; [|split].
  - intros s d db' out. rewrite (award_points_on_row db now u r a s d Hr Ha).
    destruct (award_update _ _ _ _) as [r'|] eqn:Hu; simpl; [|discriminate].
    intros [= <- <-].
    apply award_update_Ok in Hu as (? & [= <-] & -> & _).
    eexists _, _. simpl.
    split_and!; try done; [by apply history_extends_entry | split; reflexivity].
  - intros s d Hmax. rewrite (award_points_on_row db now u r a s d Hr Ha).
    edestruct (award_update_succeeds r now a) as [r' ->]; [done..|].
    simpl. by eexists _, _.
  - intros s d Hbal.
    assert (a ≤ int4_max).
    { destruct Hwf as ((? & ? & ? & ?) & ? & _). lia. }
    rewrite (spend_points_on_row db now u r a s d Hr) by (try split; done).
    edestruct (spend_update_succeeds r now a) as [r' Hu]; [done | by split |].
    rewrite Hu. simpl.
    pose proof Hu as (? & [= <-] & Hr' & _)%spend_update_Ok.
    eexists _, r', _. split; [reflexivity|]. split; [reflexivity|].
    rewrite Hr'. simpl.
    split_and!; try done; [by apply history_extends_entry | split; reflexivity].
Qed.

Lemma award_and_spend_adjust_the_ledger_witness :
  reachable db_u1 ∧ user_points db_u1 !! "u1" = Some row_u1 ∧ 0 < 4 ∧
  ∃ db' r' e,
    spend_points db_u1 "2025-01-03T00:00:00Z" (Some "u1") (Some 4) None None =
      Ok (db', [(Some (current_balance r'), Some true)]) ∧
    user_points db' = <[ "u1" := r']> (user_points db_u1) ∧
    current_balance r' = current_balance row_u1 - 4 ∧
    total_spent r' = total_spent row_u1 + 4 ∧
    total_earned r' = total_earned row_u1 ∧
    history_extends (points_history row_u1) (points_history r') [e] ∧
    is_entry e "spent" (- 4).
Proof.
  split; [exact db_u1_reachable|]. split; [exact db_u1_row|]. split; [lia|].
  apply (award_and_spend_adjust_the_ledger db_u1 "2025-01-03T00:00:00Z" "u1" row_u1 4
           db_u1_reachable db_u1_row); [lia | simpl; lia].
Defined.

(** C2.  For a user [u] with a ledger row and an amount [a > 0] larger
    than [current_balance], [spend_points(u, a)] returns
    [success = false] with the current balance and leaves the database,
    hence every field of the row, as it was. *)
Theorem spend_points_insufficient_balance db now u r a s d :
  user_points db !! u = Some r → 0 < a → current_balance r < a →
  spend_points db now (Some u) (Some a) s d =
    Ok (db, [(Some (current_balance r), Some false)]) ∧
  step db now (ev_spend_points (Some u) (Some a) s d) = db.
Proof.
  intros Hr Ha Hlt.
  assert (spend_points db now (Some u) (Some a) s d =
          Ok (db, [(Some (current_balance r), Some false)])) as Hs.
  { unfold spend_points. rewrite positive_amount_passes by done.
    rewrite row_of_Some, Hr. simpl. case_bool_decide; [done | lia]. }
  split; [done|]. unfold step. simpl. by rewrite Hs.
Qed.

Lemma spend_points_insufficient_balance_witness :
  user_points db_u1 !! "u1" = Some row_u1 ∧ 0 < 25 ∧ current_balance row_u1 < 25 ∧
  spend_points db_u1 "2025-01-03T00:00:00Z" (Some "u1") (Some 25) None (Some "scene") =
    Ok (db_u1, [(Some 10, Some false)]) ∧
  step db_u1 "2025-01-03T00:00:00Z"
    (ev_spend_points (Some "u1") (Some 25) None (Some "scene")) = db_u1.
Proof.
  split; [exact db_u1_row|]. split; [lia|]. split; [simpl; lia|].
  apply (spend_points_insufficient_balance db_u1 "2025-01-03T00:00:00Z" "u1" row_u1 25
           None (Some "scene") db_u1_row); [lia | simpl; lia].
Defined.

(** C9.  For a user id without a ledger row and an amount [a > 0],
    [spend_points] reports no failure: the fetched balance is [NULL], the
    comparison with [a] does not fire, the [UPDATE] reaches no row, and
    the call returns a [NULL] balance with [success = true]; likewise
    [award_points] raises nothing and returns two [NULL]s.  The database
    is unchanged in both cases. *)
Theorem missing_row_is_not_reported db now id a s d :
  user_points db !! id = None → 0 < a → a ≤ int4_max →
  int4lt (current_balance <$> row_of db (Some id)) (Some a) = None ∧
  spend_points db now (Some id) (Some a) s d = Ok (db, [(None, Some true)]) ∧
  award_points db now (Some id) (Some a) s d = Ok (db, [(None, None)]).
Proof.
  intros Hnone Ha Hmax. rewrite row_of_Some, Hnone. split; [done|]. split.
  - unfold spend_points. rewrite positive_amount_passes by done.
    rewrite row_of_Some, Hnone. simpl.
    rewrite int4_in_range by (unfold int4_min, int4_max in *; lia). done.
  - unfold award_points. rewrite positive_amount_passes by done.
    by rewrite row_of_Some, Hnone.
Qed.

Lemma missing_row_is_not_reported_witness :
  user_points db_u1 !! "u2" = None ∧ 0 < 5 ∧ 5 ≤ int4_max ∧
  int4lt (current_balance <$> row_of db_u1 (Some "u2")) (Some 5) = None ∧
  spend_points db_u1 "2025-01-03T00:00:00Z" (Some "u2") (Some 5) None None =
    Ok (db_u1, [(None, Some true)]) ∧
  award_points db_u1 "2025-01-03T00:00:00Z" (Some "u2") (Some 5) None None =
    Ok (db_u1, [(None, None)]).
Proof.
  assert (Hnone : user_points db_u1 !! "u2" = None) by (vm_compute; reflexivity).
  split; [exact Hnone|]. split; [lia|]. split; [unfold int4_max; lia|].
  apply (missing_row_is_not_reported db_u1 "2025-01-03T00:00:00Z" "u2" 5 None None Hnone);
    [lia | unfold int4_max; lia].
Defined.

(** C8.  The accounting equation [current_balance = total_earned -
    total_spent] with the three sign constraints holds for the row the
    trigger [handle_new_profile_points] creates (all three columns are
    0), and a database in which every row satisfies it still does after
    any execution of [award_points] and of [spend_points], on the path
    that updates, on the insufficient-balance path and when the call
    raises. *)
Theorem ledger_accounting_invariant db now :
  (∀ u r, user_points db !! u = Some r → ledger_inv r) →
  (∀ id db', handle_new_profile_points db now id = Ok db' →
     ∃ r, user_points db' !! id = Some r ∧
          current_balance r = 0 ∧ total_earned r = 0 ∧ total_spent r = 0 ∧
          ledger_inv r) ∧
  (∀ p_user_id p_amount s d db' out,
     award_points db now p_user_id p_amount s d = Ok (db', out) →
     ∀ u r, user_points db' !! u = Some r → ledger_inv r) ∧
  (∀ p_user_id p_amount s d db' out,
     spend_points db now p_user_id p_amount s d = Ok (db', out) →
     ∀ u r, user_points db' !! u = Some r → ledger_inv r) ∧
  (∀ ev u r, user_points (step db now ev) !! u = Some r → ledger_inv r).
Proof.
  intros Hinv. split_and!.
  - intros id db' [_ ->]%handle_new_profile_points_Ok.
    exists (default_row now). simpl. rewrite lookup_insert_eq.
    split_and!; try done; apply default_row_wf.
  - intros p_user_id p_amount s d db' out Hcall u r Hr.
    eapply row_change_ledger_inv;
      [by eapply (award_points_row_change _ _ _ _ _ _ _ _ u) | | exact Hr].
    intros r0. apply Hinv.
  - intros p_user_id p_amount s d db' out Hcall u r Hr.
    eapply row_change_ledger_inv;
      [by eapply (spend_points_row_change _ _ _ _ _ _ _ _ u) | | exact Hr].
    intros r0. apply Hinv.
  - intros ev u r Hr.
    eapply row_change_ledger_inv; [apply (step_row_change db now ev u) | | exact Hr].
    intros r0. apply Hinv.
Qed.

Lemma ledger_accounting_invariant_witness :
  (∀ u r, user_points db_u1 !! u = Some r → ledger_inv r) ∧
  ∃ r, user_points (step db_u1 "2025-01-03T00:00:00Z"
                      (ev_spend_points (Some "u1") (Some 4) None None)) !! "u1" = Some r ∧
       current_balance r = 6 ∧ total_earned r = 10 ∧ total_spent r = 4 ∧
       ledger_inv r.
Proof.
  assert (Hinv : ∀ u r, user_points db_u1 !! u = Some r → ledger_inv r).
  { intros u r Hr. destruct (decide (u = "u1")) as [->|Hne].
    - rewrite db_u1_row in Hr. injection Hr as <-.
      unfold ledger_inv. simpl. lia.
    - rewrite db_u1_table, lookup_insert_ne, lookup_empty in Hr by done. discriminate. }
  split; [exact Hinv|].
  destruct (ledger_accounting_invariant db_u1 "2025-01-03T00:00:00Z" Hinv)
    as (_ & _ & _ & Hstep).
  eexists. split; [vm_compute; reflexivity|]. split_and!; try reflexivity.
  apply (Hstep (ev_spend_points (Some "u1") (Some 4) None None) "u1").
  vm_compute. reflexivity.
Defined.

(** C3 (as amended).  Whoever the client is, the policies refuse every
    direct [INSERT] into [user_points], let a direct [UPDATE] and a
    direct [DELETE] reach no row, and show every row to a [SELECT].  So a
    statement that creates a ledger row or changes one is an execution of
    [award_points], of [spend_points] or of the initialisation trigger;
    the one other change a ledger row can undergo is its removal by the
    [ON DELETE CASCADE] of a profile deletion. *)
Theorem direct_ledger_writes_are_refused db now uid :
  (∀ id r, client_insert_user_points db uid id r = Raise (rls_violation "user_points")) ∧
  (∀ where_ set_, client_update_user_points db uid now where_ set_ = Ok db) ∧
  (∀ where_, client_delete_user_points db uid where_ = Ok db) ∧
  client_select_user_points db uid = user_points db ∧
  (∀ ev u, user_points (step db now ev) !! u ≠ user_points db !! u →
     (by_ledger_function ev = true ∧ is_Some (user_points (step db now ev) !! u)) ∨
     (user_points (step db now ev) !! u = None ∧
      ∃ uid' where_, ev = ev_client_delete_profile uid' where_)).
Proof.
  split_and!.
  - intros. apply client_insert_user_points_refused.
  - intros. apply client_update_user_points_noop.
  - intros. apply client_delete_user_points_noop.
  - apply client_select_user_points_all.
  - intros ev u Hne.
    destruct (step_row_change db now ev u) as [|[(?&?&?&->)|(?&?&->)]|? ? ? ? ? ? ->|? ? ? ? ? ? ->|];
      try (left; split; [reflexivity | by eexists]).
    + done.
    + right. split; [done|]. by eexists _, _.
Qed.

(** The claim as stated fails: [u1] deletes their own profile, which the
    policy "Users can delete own profile" allows, and the cascade removes
    the ledger row, through none of the three functions. *)
Lemma ledger_row_removed_by_cascade :
  reachable db_u1 ∧
  user_points db_u1 !! "u1" = Some row_u1 ∧
  user_points (step db_u1 "2025-01-03T00:00:00Z" delete_own_profile_u1) !! "u1" = None ∧
  by_ledger_function delete_own_profile_u1 = false.
Proof.
  split; [exact db_u1_reachable|]. split; [exact db_u1_row|].
  split; vm_compute; reflexivity.
Qed.

(** C4 (as amended).  In a reachable database, for a user [u] with a
    ledger row: a successful [award_points] and a [spend_points] that
    reports success leave the old history as a prefix of the new one and
    append exactly one entry; a [spend_points] that reports failure
    changes nothing; and after any statement the row is either still
    there, with the old history as a prefix of the new one and at most
    one entry more, or it is gone and the statement was a profile
    deletion, whose cascade removes the row with its history. *)
Theorem points_history_is_append_only db now u r :
  reachable db → user_points db !! u = Some r →
  (∀ a s d db' out,
     award_points db now (Some u) a s d = Ok (db', out) →
     ∃ r' e, user_points db' !! u = Some r' ∧
             history_extends (points_history r) (points_history r') [e]) ∧
  (∀ a s d db' b,
     spend_points db now (Some u) a s d = Ok (db', [(b, Some true)]) →
     ∃ r' e, user_points db' !! u = Some r' ∧
             history_extends (points_history r) (points_history r') [e]) ∧
  (∀ a s d db' b,
     spend_points db now (Some u) a s d = Ok (db', [(b, Some false)]) → db' = db) ∧
  (∀ ev,
     match user_points (step db now ev) !! u with
     | Some r' => ∃ more, history_extends (points_history r) (points_history r') more ∧
                          (length more ≤ 1)%nat
     | None => ∃ uid where_, ev = ev_client_delete_profile uid where_
     end).
Proof.
  intros Hreach Hr.
  pose proof (reachable_wf db Hreach u r Hr) as Hwf.
  assert (Harr : is_Some (jsonb_array_elements (points_history r))) by apply Hwf.
  split_and!.
  - intros a s d db' out. unfold award_points.
    destruct (sql_if _); [discriminate|]. rewrite row_of_Some, Hr.
    destruct (award_update _ _ _ _) as [r'|] eqn:Hu; simpl; [|discriminate].
    intros [= <- _]. simpl. rewrite lookup_insert_eq.
    apply award_update_Ok in Hu as (? & _ & -> & _).
    eexists _, _. split; [done|]. by apply history_extends_entry.
  - intros a s d db' b. unfold spend_points.
    destruct (sql_if _); [discriminate|].
    destruct (sql_if _); [discriminate|].
    destruct (int4um a); simpl; [|discriminate]. rewrite Hr.
    destruct (spend_update _ _ _ _) as [r'|] eqn:Hu; simpl; [|discriminate].
    intros [= <- _]. simpl. rewrite lookup_insert_eq.
    apply spend_update_Ok in Hu as (? & _ & -> & _).
    eexists _, _. split; [done|]. by apply history_extends_entry.
  - intros a s d db' b. unfold spend_points.
    destruct (sql_if _); [discriminate|].
    destruct (sql_if _); [by intros [= <-]|].
    destruct (int4um a); simpl; [|discriminate]. rewrite Hr.
    destruct (spend_update _ _ _ _); simpl; discriminate.
  - intros ev. pose proof (step_row_change db now ev u) as Hc.
    rewrite Hr in Hc.
    inversion Hc as [o Ho| |r0 r' a s d e _ _ _ [kvs ->] Hu
                    |r0 r' a s d e _ _ _ [kvs ->] Hu|]; subst.
    + destruct Harr as [l Hl]. exists []. split; [|simpl; lia].
      destruct (points_history r); try discriminate Hl.
      eexists. by rewrite app_nil_r.
    + apply award_update_Ok in Hu as (? & _ & -> & _). simpl.
      eexists. split; [by apply history_extends_entry | simpl; lia].
    + apply spend_update_Ok in Hu as (? & _ & -> & _). simpl.
      eexists. split; [by apply history_extends_entry | simpl; lia].
    + by eexists _, _.
Qed.

Lemma points_history_is_append_only_witness :
  reachable db_u1 ∧ user_points db_u1 !! "u1" = Some row_u1 ∧
  ∃ db' out r' e,
    award_points db_u1 "2025-01-03T00:00:00Z" (Some "u1") (Some 5) None None =
      Ok (db', out) ∧
    user_points db' !! "u1" = Some r' ∧
    history_extends (points_history row_u1) (points_history r') [e].
Proof.
  split; [exact db_u1_reachable|]. split; [exact db_u1_row|].
  destruct (points_history_is_append_only db_u1 "2025-01-03T00:00:00Z" "u1" row_u1
              db_u1_reachable db_u1_row) as (Haward & _).
  assert (∃ db' out,
            award_points db_u1 "2025-01-03T00:00:00Z" (Some "u1") (Some 5) None None =
              Ok (db', out)) as (db' & out & Hcall).
  { eexists _, _. vm_compute. reflexivity. }
  destruct (Haward _ _ _ _ _ Hcall) as (r' & e & Hrow & Hext).
  exists db', out, r', e. done.
Defined.

(** The claim as stated fails: after the award, [u1] deletes and
    re-creates their own profile; the entry is gone and the history of
    [u1] is empty again. *)
Lemma history_discarded_by_cascade :
  reachable db_u1 ∧
  points_history <$> user_points db_u1 !! "u1" =
    Some (JArr [JObj [("amount", JNum 10); ("source", JStr "manual");
                      ("description", JStr "");
                      ("timestamp", JStr "2025-01-02T00:00:00Z");
                      ("type", JStr "earned")]]) ∧
  user_points (step db_u1 "2025-01-03T00:00:00Z" delete_own_profile_u1) !! "u1" = None ∧
  points_history <$>
    user_points
      (step (step db_u1 "2025-01-03T00:00:00Z" delete_own_profile_u1)
            "2025-01-04T00:00:00Z"
            (ev_client_insert_profile (Some "u1") "u1"
               {| username := "alice"; display_name := None |})) !! "u1" =
    Some (JArr []).
Proof.
  split; [exact db_u1_reachable|]. split_and!; vm_compute; reflexivity.
Qed.

End SchemaFacts.

(* ===================================================================== *)
(** * Part VI. The request wrappers: theorems                             *)
(* ===================================================================== *)

Module AuthUtilsFacts.
Import AuthUtils.

(** Case analysis on how the awaited call ended. *)
Ltac by_outcome :=
  simpl;
  match goal with
  | |- context [?b [] ?r] => destruct (b [] r) as [? [?|]|?]; reflexivity
  end.

(** ** When [createClient()] throws

    The call stands before the [try], so nothing catches the exception:
    the wrapper rejects with it and has made no call. *)

Lemma run_signUp_no_client t b d :
  run (creation_failed t) b [] (signUp d) = ([], inr t).
Proof. reflexivity. Qed.

Lemma run_login_no_client t b d :
  run (creation_failed t) b [] (login d) = ([], inr t).
Proof. reflexivity. Qed.

Lemma run_logout_no_client t b :
  run (creation_failed t) b [] logout = ([], inr t).
Proof. reflexivity. Qed.

Lemma run_resetPassword_no_client t b env email :
  run (creation_failed t) b [] (resetPassword env email) = ([], inr t).
Proof. reflexivity. Qed.

Lemma run_updatePassword_no_client t b pw :
  run (creation_failed t) b [] (updatePassword pw) = ([], inr t).
Proof. reflexivity. Qed.

(** ** When [createClient()] returns *)

Lemma run_login b d :
  run client_created b [] (login d) =
  ([auth_signInWithPassword (LoginData.email d) (LoginData.password d)],
   inl (passed_through_user
          (b [] (auth_signInWithPassword (LoginData.email d) (LoginData.password d))))).
Proof.
  unfold login. by_outcome.
Qed.

Lemma run_logout b :
  run client_created b [] logout =
  ([auth_signOut], inl (passed_through_error (b [] auth_signOut))).
Proof.
  unfold logout. by_outcome.
Qed.

Lemma run_resetPassword b env email :
  let r := auth_resetPasswordForEmail email
             (default "undefined" env +:+ "/auth/reset-password") in
  run client_created b [] (resetPassword env email) =
  ([r], inl (passed_through_error (b [] r))).
Proof.
  unfold resetPassword. by_outcome.
Qed.

Lemma run_updatePassword b pw :
  run client_created b [] (updatePassword pw) =
  ([auth_updateUser pw], inl (passed_through_error (b [] (auth_updateUser pw)))).
Proof.
  unfold updatePassword. by_outcome.
Qed.

(** [signUp], by how the username lookup ended. *)
Lemma run_signUp b d :
  run client_created b [] (signUp d) =
  match b [] (username_lookup d) with
  | rejected t => ([username_lookup d], inl (user_failure (catch_message t) None))
  | resolved (Some _) _ =>
      ([username_lookup d], inl (user_failure "Username already taken" (Some "username")))
  | resolved None checkError =>
      match checkError with
      | Some e =>
          if bool_decide (BackendError.code e = Some "PGRST116") then
            ([username_lookup d; account_creation d],
             inl (passed_through_user (b [username_lookup d] (account_creation d))))
          else ([username_lookup d], inl (user_failure (BackendError.message e) None))
      | None =>
          ([username_lookup d; account_creation d],
           inl (passed_through_user (b [username_lookup d] (account_creation d))))
      end
  end.
Proof.
  unfold signUp, username_lookup, account_creation. simpl.
  destruct (b [] _) as [[row|] [e|]|t]; simpl; try reflexivity.
  - destruct (bool_decide_reflect (BackendError.code e = Some "PGRST116")) as [Hc|Hc].
    + rewrite bool_decide_eq_false_2 by (by intros []). simpl.
      destruct (b _ _) as [u [e'|]|t]; reflexivity.
    + rewrite bool_decide_eq_true_2 by done. reflexivity.
  - destruct (b _ _) as [u [e'|]|t]; reflexivity.
Qed.

Lemma passed_through_user_no_field o e :
  UserResult.error (passed_through_user o) = Some e → AuthError.field e = None.
Proof. destruct o as [u [e'|]|t]; simpl; by intros [= <-]. Qed.

Lemma passed_through_error_no_field o e :
  ErrorResult.error (passed_through_error o) = Some e → AuthError.field e = None.
Proof. destruct o as [u [e'|]|t]; simpl; by intros [= <-]. Qed.

(** [signUp] makes the lookup, then at most the account creation, and
    returns. *)
Lemma signUp_calls b d :
  (requests client_created b (signUp d) = [username_lookup d] ∨
   requests client_created b (signUp d) = [username_lookup d; account_creation d]) ∧
  ∃ r, result client_created b (signUp d) = inl r.
Proof.
  unfold requests, result. rewrite run_signUp.
  destruct (b [] _) as [[row|] [e|]|t]; simpl; eauto.
  case_bool_decide; simpl; eauto.
Qed.

(** C5 (as amended).  Every wrapper calls [createClient()] before its
    [try].  When that call throws, the wrapper makes no call on the
    backend and rejects with what was thrown.  When it returns, then
    against every backend and on every input the wrapper returns a
    value, it does not throw.  [login], [logout], [resetPassword] and
    [updatePassword] make exactly one call; [signUp] makes the username
    lookup and then at most one account-creation call, so one or two
    calls, and no call is made twice.  The result passes the last call
    through: the message of its error unchanged, without a field (and
    with [user = null] for [signUp] and [login]), when it resolved with
    an error; the message of the thrown [Error], or ['An unknown error
    occurred'], when it rejected; [error = null] when it resolved without
    an error.  In [signUp] a lookup error with code [PGRST116] is ignored
    and a username found taken is reported without a second call. *)
Theorem wrappers_pass_backend_errors_through (b : backend) :
  (∀ t,
     (∀ d, run (creation_failed t) b [] (signUp d) = ([], inr t)) ∧
     (∀ d, run (creation_failed t) b [] (login d) = ([], inr t)) ∧
     run (creation_failed t) b [] logout = ([], inr t) ∧
     (∀ env email,
        run (creation_failed t) b [] (resetPassword env email) = ([], inr t)) ∧
     (∀ pw, run (creation_failed t) b [] (updatePassword pw) = ([], inr t))) ∧
  (∀ d, let r := auth_signInWithPassword (LoginData.email d) (LoginData.password d) in
        run client_created b [] (login d) =
        ([r], inl (passed_through_user (b [] r)))) ∧
  run client_created b [] logout =
    ([auth_signOut], inl (passed_through_error (b [] auth_signOut))) ∧
  (∀ env email,
     let r := auth_resetPasswordForEmail email
                (default "undefined" env +:+ "/auth/reset-password") in
     run client_created b [] (resetPassword env email) =
     ([r], inl (passed_through_error (b [] r)))) ∧
  (∀ pw, let r := auth_updateUser pw in
         run client_created b [] (updatePassword pw) =
         ([r], inl (passed_through_error (b [] r)))) ∧
  (∀ d,
     (∃ r, result client_created b (signUp d) = inl r) ∧
     1 ≤ length (requests client_created b (signUp d)) ≤ 2 ∧
     NoDup (requests client_created b (signUp d)) ∧
     run client_created b [] (signUp d) =
     match b [] (username_lookup d) with
     | rejected t => ([username_lookup d], inl (user_failure (catch_message t) None))
     | resolved (Some _) _ =>
         ([username_lookup d],
          inl (user_failure "Username already taken" (Some "username")))
     | resolved None checkError =>
         match checkError with
         | Some e =>
             if bool_decide (BackendError.code e = Some "PGRST116") then
               ([username_lookup d; account_creation d],
                inl (passed_through_user (b [username_lookup d] (account_creation d))))
             else ([username_lookup d], inl (user_failure (BackendError.message e) None))
         | None =>
             ([username_lookup d; account_creation d],
              inl (passed_through_user (b [username_lookup d] (account_creation d))))
         end
     end).
Proof.
  split_and!.
  - intros t. split_and!.
    + intros d. apply run_signUp_no_client.
    + intros d. apply run_login_no_client.
    + apply run_logout_no_client.
    + intros env email. apply run_resetPassword_no_client.
    + intros pw. apply run_updatePassword_no_client.
  - intros d. apply run_login.
  - apply run_logout.
  - intros env email. apply run_resetPassword.
  - intros pw. apply run_updatePassword.
  - intros d. destruct (signUp_calls b d) as [Hreq Hres].
    split; [done|]. split; [|split; [|apply run_signUp]].
    + destruct Hreq as [-> | ->]; simpl; lia.
    + destruct Hreq as [-> | ->].
      * apply NoDup_singleton.
      * apply NoDup_cons. split; [|apply NoDup_singleton].
        rewrite list_elem_of_singleton. discriminate.
Qed.

(** The claim as stated fails: with the client created, the username
    free and the account created, [signUp] makes two calls, not one; and
    when [createClient()] throws, [login] throws too. *)
Lemma signUp_makes_two_calls :
  requests client_created backend_username_free (signUp alice) =
    [profiles_select_username_eq "alice";
     auth_signUp "alice@example.com" "TestPass123" "alice" "Alice"] ∧
  length (requests client_created backend_username_free (signUp alice)) ≠ 1 ∧
  result client_created backend_username_free (signUp alice) =
    inl {| UserResult.user := Some {| user_id := "id-1";
                                      user_email := Some "alice@example.com" |};
           UserResult.error := None |} ∧
  run (creation_failed (thrown_Error "supabaseUrl is required")) backend_username_free []
      (login {| LoginData.email := "alice@example.com";
                LoginData.password := "TestPass123" |}) =
    ([], inr (thrown_Error "supabaseUrl is required")).
Proof. split_and!; [reflexivity | discriminate | reflexivity | reflexivity]. Qed.

(** C10.  When the lookup finds the username (it returns the row of the
    profile that has it), [signUp] returns [{user: null, error: {message:
    'Username already taken', field: 'username'}}] after that one call:
    no [auth.signUp] call is made.  The lookup is a call on the client,
    so [createClient()] has returned.  And in none of the wrappers,
    however [createClient()] ended, does any other path fill the [field]
    of the error. *)
Theorem signUp_username_taken (b : backend) d row err :
  b [] (username_lookup d) = resolved (Some row) err →
  run client_created b [] (signUp d) =
    ([username_lookup d],
     inl {| UserResult.user := None;
            UserResult.error :=
              Some {| AuthError.message := "Username already taken";
                      AuthError.field := Some "username" |} |}) ∧
  (∀ c e p u n, auth_signUp e p u n ∉ requests c b (signUp d)) ∧
  (∀ c' b' d' r e f,
     result c' b' (signUp d') = inl r → UserResult.error r = Some e →
     AuthError.field e = Some f →
     f = "username" ∧ AuthError.message e = "Username already taken" ∧
     ∃ row' err', b' [] (username_lookup d') = resolved (Some row') err') ∧
  (∀ c' b' d' r e,
     result c' b' (login d') = inl r → UserResult.error r = Some e →
     AuthError.field e = None) ∧
  (∀ c' b' r e,
     result c' b' logout = inl r → ErrorResult.error r = Some e →
     AuthError.field e = None) ∧
  (∀ c' b' env email r e,
     result c' b' (resetPassword env email) = inl r → ErrorResult.error r = Some e →
     AuthError.field e = None) ∧
  (∀ c' b' pw r e,
     result c' b' (updatePassword pw) = inl r → ErrorResult.error r = Some e →
     AuthError.field e = None).
Proof.
  intros Hfound.
  assert (Hrun : run client_created b [] (signUp d) =
                 ([username_lookup d],
                  inl (user_failure "Username already taken" (Some "username")))).
  { rewrite run_signUp, Hfound. reflexivity. }
  split_and!.
  - exact Hrun.
  - intros [|t] e p u n; unfold requests.
    + rewrite Hrun. simpl. rewrite list_elem_of_singleton. discriminate.
    + rewrite run_signUp_no_client. simpl. apply not_elem_of_nil.
  - intros [|t] b' d' r e f; unfold result;
      [|by rewrite run_signUp_no_client]. rewrite run_signUp.
    destruct (b' [] _) as [[row'|] [e'|]|t]; simpl.
    + intros [= <-] [= <-] [= <-]. eauto.
    + intros [= <-] [= <-] [= <-]. eauto.
    + case_bool_decide; simpl.
      * intros [= <-] He Hf. apply passed_through_user_no_field in He. congruence.
      * intros [= <-] [= <-] [=].
    + intros [= <-] He Hf. apply passed_through_user_no_field in He. congruence.
    + intros [= <-] [= <-] [=].
  - intros [|t] b' d' r e; unfold result;
      [|by rewrite run_login_no_client]. rewrite run_login. simpl.
    intros [= <-]. apply passed_through_user_no_field.
  - intros [|t] b' r e; unfold result;
      [|by rewrite run_logout_no_client]. rewrite run_logout. simpl.
    intros [= <-]. apply passed_through_error_no_field.
  - intros [|t] b' env email r e; unfold result;
      [|by rewrite run_resetPassword_no_client]. rewrite run_resetPassword. simpl.
    intros [= <-]. apply passed_through_error_no_field.
  - intros [|t] b' pw r e; unfold result;
      [|by rewrite run_updatePassword_no_client]. rewrite run_updatePassword. simpl.
    intros [= <-]. apply passed_through_error_no_field.
Qed.

Lemma signUp_username_taken_witness :
  backend_username_taken [] (username_lookup alice) = resolved (Some "alice") None ∧
  run client_created backend_username_taken [] (signUp alice) =
    ([profiles_select_username_eq "alice"],
     inl {| UserResult.user := None;
            UserResult.error :=
              Some {| AuthError.message := "Username already taken";
                      AuthError.field := Some "username" |} |}).
Proof.
  split; [reflexivity|].
  apply (signUp_username_taken backend_username_taken alice "alice" None).
  reflexivity.
Defined.

End AuthUtilsFacts.

(* ===================================================================== *)
(** * Part VII. The format validators: theorems                           *)
(* ===================================================================== *)

Module ValidatorsFacts.
Import Validators.

Lemma rmatch_class fuel p s k :
  rmatch fuel (Class p) s k =
  match s with
  | c :: s' => p c && k s'
  | [] => false
  end.
Proof. by destruct fuel. Qed.

Lemma rmatch_cat fuel r1 r2 s k :
  rmatch fuel (Cat r1 r2) s k = rmatch fuel r1 s (λ s', rmatch fuel r2 s' k).
Proof. by destruct fuel. Qed.

Lemma rmatch_plus fuel r s k :
  rmatch fuel (Plus r) s k =
  rmatch fuel r s (λ s', match fuel with
                         | S fuel' => rmatch fuel' (Plus r) s' k
                         | O => false
                         end || k s').
Proof. by destruct fuel. Qed.

(** No pattern of this grammar matches the empty string. *)
Lemma lang_nonempty r s : lang r s → s ≠ [].
Proof.
  induction 1 as [p c Hp|r1 r2 s1 s2 H1 IH1 H2 IH2|r s H IH|r s1 s2 H1 IH1 H2 IH2].
  - done.
  - destruct s1; [done | discriminate].
  - done.
  - destruct s1; [done | discriminate].
Qed.

Lemma lang_length r s : lang r s → 0 < length s.
Proof. intros H%lang_nonempty. destruct s; [done | simpl; lia]. Qed.

(** The matcher finds a split of the input exactly when there is one. *)
Lemma rmatch_spec fuel :
  ∀ r s k, length s ≤ fuel →
    rmatch fuel r s k = true ↔
    ∃ s1 s2, s = s1 ++ s2 ∧ lang r s1 ∧ k s2 = true.
Proof.
  induction fuel as [fuel IHfuel] using lt_wf_ind.
  induction r as [p|r1 IH1 r2 IH2|r IH]; intros s k Hlen.
  - rewrite rmatch_class. destruct s as [|c s'].
    + split; [done|]. intros (s1 & s2 & Hs & Hl & _).
      apply lang_nonempty in Hl. by destruct s1.
    + rewrite andb_true_iff. split.
      * intros [Hp Hk]. exists [c], s'. split_and!; [done | by constructor | done].
      * intros (s1 & s2 & Hs & Hl & Hk). inversion Hl; subst.
        simpl in Hs. injection Hs as -> ->. done.
  - rewrite rmatch_cat, IH1 by done. split.
    + intros (s1 & s2 & -> & Hl1 & Hr).
      apply IH2 in Hr as (s3 & s4 & -> & Hl2 & Hk);
        [|rewrite length_app in Hlen; lia].
      exists (s1 ++ s3), s4. rewrite <- app_assoc. split_and!; [done | by constructor | done].
    + intros (s12 & s4 & -> & Hl & Hk). inversion Hl as [|? ? s1 s3 Hl1 Hl2| |]; subst.
      exists s1, (s3 ++ s4). rewrite <- app_assoc. split_and!; [done..|].
      apply IH2; [rewrite <- app_assoc, length_app in Hlen; lia|]. eauto.
  - rewrite rmatch_plus, IH by done. split.
    + intros (s1 & s2 & -> & Hl1 & Hr). apply orb_true_iff in Hr as [Hr|Hk].
      * destruct fuel as [|fuel']; [done|].
        pose proof (lang_length _ _ Hl1). rewrite length_app in Hlen.
        apply IHfuel in Hr as (s3 & s4 & -> & Hl2 & Hk); [|lia..].
        exists (s1 ++ s3), s4. rewrite <- app_assoc.
        split_and!; [done | by apply lang_plus_more | done].
      * exists s1, s2. split_and!; [done | by apply lang_plus_one | done].
    + intros (s12 & s4 & -> & Hl & Hk).
      inversion Hl as [| |? ? Hl1|? s1 s3 Hl1 Hl2]; subst.
      * exists s12, s4. split_and!; [done..|]. rewrite Hk. apply orb_true_r.
      * exists s1, (s3 ++ s4). rewrite <- app_assoc. split_and!; [done..|].
        pose proof (lang_length _ _ Hl1).
        rewrite <- app_assoc, !length_app in Hlen.
        destruct fuel as [|fuel']; [lia|].
        apply orb_true_iff. left. apply IHfuel; [lia | rewrite length_app; lia |]. eauto.
Qed.

(** A literal anchored at both ends tests membership in the language of
    its body. *)
Lemma test_anchored r s :
  test {| from_start := true; body := r; to_end := true |} s = true ↔ lang r s.
Proof.
  unfold test, match_at. simpl. rewrite rmatch_spec by done. split.
  - intros (s1 & s2 & -> & Hl & Hk). apply bool_decide_eq_true in Hk as ->.
    by rewrite app_nil_r.
  - intros Hl. exists s, []. rewrite app_nil_r. split_and!; [done..|].
    by apply bool_decide_eq_true.
Qed.

(** An unanchored class finds a code unit of the class anywhere. *)
Lemma test_unanchored_class p s :
  test (unanchored (Class p)) s = true ↔ Exists (λ c, p c = true) s.
Proof.
  unfold test. simpl. induction s as [|c s IH].
  - simpl. unfold match_at. simpl. split; [done | by inversion 1].
  - simpl. rewrite Exists_cons, orb_true_iff, IH.
    unfold match_at. simpl. rewrite andb_true_r. done.
Qed.

(** [[...]+] matches the non-empty strings over the class. *)
Lemma lang_plus_class p s :
  lang (Plus (Class p)) s ↔ s ≠ [] ∧ Forall (λ c, p c = true) s.
Proof.
  split.
  - intros Hl. split; [by eapply lang_nonempty|].
    remember (Plus (Class p)) as r eqn:Hr.
    induction Hl as [| |r s H _|r s1 s2 H1 _ H2 IH2]; try discriminate;
      injection Hr as ->.
    + inversion H; subst. by repeat constructor.
    + inversion H1; subst. constructor; [done | by apply IH2].
  - intros [Hne Hall]. induction Hall as [|c s Hc Hall IH]; [done|].
    destruct s as [|c' s'].
    + apply lang_plus_one. by constructor.
    + apply (lang_plus_more _ [c]); [by constructor | by apply IH].
Qed.

Lemma lang_char x s : lang (Class (is_char x)) s ↔ s = [x].
Proof.
  split.
  - inversion 1 as [? c Hc| | |]; subst. unfold is_char in Hc.
    by apply N.eqb_eq in Hc as ->.
  - intros ->. constructor. unfold is_char. apply N.eqb_refl.
Qed.

Lemma lang_cat_inv r1 r2 s :
  lang (Cat r1 r2) s ↔ ∃ s1 s2, s = s1 ++ s2 ∧ lang r1 s1 ∧ lang r2 s2.
Proof.
  split.
  - inversion 1; subst. eauto.
  - intros (s1 & s2 & -> & ? & ?). by constructor.
Qed.

Lemma between_spec lo hi c : between lo hi c = true ↔ (lo ≤ c ≤ hi)%N.
Proof. unfold between. rewrite andb_true_iff, !N.leb_le. done. Qed.

Lemma is_char_spec x c : is_char x c = true ↔ c = x.
Proof. apply N.eqb_eq. Qed.

Lemma is_upper_spec c : is_upper c = true ↔ uppercase_letter c.
Proof. apply between_spec. Qed.

Lemma is_lower_spec c : is_lower c = true ↔ lowercase_letter c.
Proof. apply between_spec. Qed.

Lemma is_digit_spec c : is_digit c = true ↔ digit c.
Proof. apply between_spec. Qed.

Lemma is_word_spec c : is_word c = true ↔ ascii_letter c ∨ digit c ∨ underscore c.
Proof.
  unfold is_word, ascii_letter, digit, underscore, is_lower, is_upper, is_digit, low_line.
  rewrite !orb_true_iff, !between_spec, is_char_spec. tauto.
Qed.

Lemma is_space_spec c : is_space c = true ↔ whitespace c.
Proof.
  unfold is_space, whitespace.
  rewrite !orb_true_iff, !between_spec, !is_char_spec. tauto.
Qed.

Lemma not_space_at_spec c : not_space_at c = true ↔ address_char c.
Proof.
  unfold not_space_at, address_char, at_sign.
  rewrite negb_true_iff, orb_false_iff, <- !not_true_iff_false.
  by rewrite is_space_spec, is_char_spec.
Qed.

Lemma lang_address_part s : lang (Plus (Class not_space_at)) s ↔ address_part s.
Proof.
  rewrite lang_plus_class. unfold address_part.
  split; intros [Hne Hall]; (split; [done|]);
    (eapply Forall_impl; [exact Hall|]); intros c; apply not_space_at_spec.
Qed.

Lemma isValidEmail_spec e :
  isValidEmail e = true ↔
  ∃ a b c, e = a ++ [64%N] ++ b ++ [46%N] ++ c ∧
           address_part a ∧ address_part b ∧ address_part c.
Proof.
  unfold isValidEmail, emailRegex. rewrite test_anchored.
  rewrite lang_cat_inv. setoid_rewrite lang_cat_inv.
  setoid_rewrite lang_cat_inv. setoid_rewrite lang_cat_inv.
  setoid_rewrite lang_char. setoid_rewrite lang_address_part.
  split.
  - intros (a & ? & -> & Ha & ? & ? & -> & -> & b & ? & -> & Hb & ? & c & -> & -> & Hc).
    by exists a, b, c.
  - intros (a & b & c & -> & Ha & Hb & Hc).
    exists a, ([64%N] ++ b ++ [46%N] ++ c). split_and!; [done..|].
    exists [64%N], (b ++ [46%N] ++ c). split_and!; [done..|].
    exists b, ([46%N] ++ c). split_and!; [done..|].
    exists [46%N], c. done.
Qed.

Lemma validateUsername_valid u :
  valid (validateUsername u) = true ↔
  3 ≤ length u ≤ 20 ∧ Forall (λ c, ascii_letter c ∨ digit c ∨ underscore c) u.
Proof.
  unfold validateUsername.
  case_bool_decide; [simpl; split; [done | lia]|].
  case_bool_decide; [simpl; split; [done | lia]|].
  destruct (test usernameRegex u) eqn:Ht; simpl.
  - apply test_anchored, lang_plus_class in Ht as [_ Hall].
    split; [|done]. intros _. split; [lia|].
    eapply Forall_impl; [exact Hall|]. intros c. apply is_word_spec.
  - split; [done|]. intros [_ Hall].
    assert (test usernameRegex u = true) as Ht'; [|congruence].
    apply test_anchored, lang_plus_class. split.
    + destruct u; [simpl in *; lia | done].
    + eapply Forall_impl; [exact Hall|]. intros c. apply is_word_spec.
Qed.

Lemma test_class_spec p (P : N → Prop) s :
  (∀ c, p c = true ↔ P c) →
  test (unanchored (Class p)) s = true ↔ Exists P s.
Proof.
  intros HP. rewrite test_unanchored_class.
  split; intros H; (eapply Exists_impl; [exact H|]); intros c; apply HP.
Qed.

Lemma validatePassword_valid p :
  valid (validatePassword p) = true ↔
  8 ≤ length p ∧ Exists uppercase_letter p ∧ Exists lowercase_letter p ∧
  Exists digit p.
Proof.
  unfold validatePassword.
  rewrite <- (test_class_spec _ _ p is_upper_spec).
  rewrite <- (test_class_spec _ _ p is_lower_spec).
  rewrite <- (test_class_spec _ _ p is_digit_spec).
  case_bool_decide; [simpl; split; [done | lia]|].
  destruct (test (unanchored (Class is_upper)) p); simpl; [|split; [done | tauto]].
  destruct (test (unanchored (Class is_lower)) p); simpl; [|split; [done | tauto]].
  destruct (test (unanchored (Class is_digit)) p); simpl; [|split; [done | tauto]].
  split; [|done]. intros _. split_and!; [lia | done..].
Qed.

(** The inputs of the end-to-end tests. *)
Example isValidEmail_test_address : isValidEmail (js "test@example.com") = true.
Proof. reflexivity. Qed.

Example isValidEmail_invalid_email : isValidEmail (js "invalid-email") = false.
Proof. reflexivity. Qed.

Example validatePassword_weak :
  validatePassword (js "weak") = invalid "Password must be at least 8 characters".
Proof. reflexivity. Qed.

Example validatePassword_TestPass123 :
  validatePassword (js "TestPass123") = {| valid := true; message := None |}.
Proof. reflexivity. Qed.

(** [redirecttest] followed by a 13-digit time stamp has 25 code units. *)
Example validateUsername_redirecttest :
  validateUsername (js "redirecttest1700000000000") =
  invalid "Username must be no more than 20 characters".
Proof. reflexivity. Qed.

(** C6.  [validateUsername(u).valid] holds exactly when [u] has 3 to 20
    code units, all of them ASCII letters, digits or underscores;
    [validatePassword(p).valid] exactly when [p] has at least 8 code
    units and contains an uppercase letter [A-Z], a lowercase letter
    [a-z] and a digit; [isValidEmail(e)] exactly when [e] is one or more
    characters that are neither white space nor [@], then [@], then one
    or more such characters, then [.], then one or more such characters.
    The two validators with messages return [valid = false] with the
    message of the first rule that fails. *)
Theorem validators_accept_the_well_formed :
  (∀ u, valid (validateUsername u) = true ↔
        3 ≤ length u ≤ 20 ∧ Forall (λ c, ascii_letter c ∨ digit c ∨ underscore c) u) ∧
  (∀ p, valid (validatePassword p) = true ↔
        8 ≤ length p ∧ Exists uppercase_letter p ∧ Exists lowercase_letter p ∧
        Exists digit p) ∧
  (∀ e, isValidEmail e = true ↔
        ∃ a b c, e = a ++ [64%N] ++ b ++ [46%N] ++ c ∧
                 address_part a ∧ address_part b ∧ address_part c) ∧
  (∀ u, length u < 3 →
        validateUsername u = invalid "Username must be at least 3 characters") ∧
  (∀ u, 20 < length u →
        validateUsername u = invalid "Username must be no more than 20 characters") ∧
  (∀ u, 3 ≤ length u ≤ 20 →
        ¬ Forall (λ c, ascii_letter c ∨ digit c ∨ underscore c) u →
        validateUsername u =
          invalid "Username can only contain letters, numbers, and underscores") ∧
  (∀ p, length p < 8 →
        validatePassword p = invalid "Password must be at least 8 characters") ∧
  (∀ p, 8 ≤ length p → ¬ Exists uppercase_letter p →
        validatePassword p =
          invalid "Password must contain at least one uppercase letter") ∧
  (∀ p, 8 ≤ length p → Exists uppercase_letter p → ¬ Exists lowercase_letter p →
        validatePassword p =
          invalid "Password must contain at least one lowercase letter") ∧
  (∀ p, 8 ≤ length p → Exists uppercase_letter p → Exists lowercase_letter p →
        ¬ Exists digit p →
        validatePassword p = invalid "Password must contain at least one number").
Proof.
  split_and!.
  - apply validateUsername_valid.
  - apply validatePassword_valid.
  - apply isValidEmail_spec.
  - intros u Hlen. unfold validateUsername. by rewrite bool_decide_eq_true_2.
  - intros u Hlen. unfold validateUsername.
    rewrite bool_decide_eq_false_2 by lia. by rewrite bool_decide_eq_true_2.
  - intros u Hlen Hbad. pose proof (validateUsername_valid u) as Hv.
    unfold validateUsername in *.
    rewrite !bool_decide_eq_false_2 in * by lia.
    destruct (test usernameRegex u); simpl in *; [|done].
    exfalso. apply Hbad. by apply Hv.
  - intros p Hlen. unfold validatePassword. by rewrite bool_decide_eq_true_2.
  - intros p Hlen Hno. unfold validatePassword.
    rewrite bool_decide_eq_false_2 by lia.
    destruct (test (unanchored (Class is_upper)) p) eqn:Hu; [|done].
    exfalso. apply Hno. by apply (test_class_spec _ _ p is_upper_spec).
  - intros p Hlen Hup Hno. unfold validatePassword.
    rewrite bool_decide_eq_false_2 by lia.
    apply (test_class_spec _ _ p is_upper_spec) in Hup as ->. simpl.
    destruct (test (unanchored (Class is_lower)) p) eqn:Hl; [|done].
    exfalso. apply Hno. by apply (test_class_spec _ _ p is_lower_spec).
  - intros p Hlen Hup Hlow Hno. unfold validatePassword.
    rewrite bool_decide_eq_false_2 by lia.
    apply (test_class_spec _ _ p is_upper_spec) in Hup as ->.
    apply (test_class_spec _ _ p is_lower_spec) in Hlow as ->. simpl.
    destruct (test (unanchored (Class is_digit)) p) eqn:Hd; [|done].
    exfalso. apply Hno. by apply (test_class_spec _ _ p is_digit_spec).
Qed.

End ValidatorsFacts.

(* ===================================================================== *)
(** * Part VIII. The auth-state hooks: theorems                           *)
(* ===================================================================== *)

Module HooksFacts.
Import Hooks.

Section hooks.

Context {User : Type} `{EqDecision User}.

Implicit Types (st : @user_state User) (evs : list (@auth_event User)).







End hooks.

(** A session: [getUser()] resolves without a user, then a sign-in is
    announced.  [useRequireAuth] sends to the login page once, after the
    first callback; [useRedirectIfAuthenticated] sends to the dashboard
    once, after the second. *)
Example session_requireAuth :
  navigations (mounted true useRequireAuth_effect
                 [getUser_resolved None;
                  onAuthStateChange (Some {| session_user := "user-1" |})]) =
  ["/auth/login"].
Proof. reflexivity. Qed.

Example session_redirectIfAuthenticated :
  navigations (mounted false (useRedirectIfAuthenticated_effect None)
                 [getUser_resolved None;
                  onAuthStateChange (Some {| session_user := "user-1" |})]) =
  ["/dashboard"].
Proof. reflexivity. Qed.

End HooksFacts.

(* ===================================================================== *)
(** * Part IX. The ledger: further properties                             *)
(* ===================================================================== *)

Module SchemaMore.
Import Schema SchemaFacts Reconcile.

#[local] Open Scope Z_scope.

(** A property of rows that the default row has and that the two
    [UPDATE]s keep holds for every row of a reachable database. *)
Lemma reachable_rows_ind (P : user_points_row → Prop) :
  (∀ now, P (default_row now)) →
  (∀ r r' now a e,
     P r → row_wf r → 0 < a → is_entry e "earned" a →
     award_update r now (Some a) e = Ok r' → P r') →
  (∀ r r' now a e,
     P r → row_wf r → 0 < a ≤ current_balance r → is_entry e "spent" (- a) →
     spend_update r now (Some a) e = Ok r' → P r') →
  ∀ db, reachable db → ∀ u r, user_points db !! u = Some r → P r.
Proof.
  intros Hinit Haward Hspend db Hreach.
  induction Hreach as [|db now ev Hreach IH]; intros u r Hr.
  - simpl in Hr. by rewrite lookup_empty in Hr.
  - pose proof (step_row_change db now ev u) as Hc. rewrite Hr in Hc.
    inversion Hc; subst.
    + eapply IH; eauto.
    + apply Hinit.
    + eapply Haward; [eapply IH | eapply reachable_wf | ..]; eauto.
    + eapply Hspend; [eapply IH | eapply reachable_wf | ..]; eauto.
Qed.

Lemma step_award_Ok db now u a s d db' out :
  award_points db now u a s d = Ok (db', out) →
  step db now (ev_award_points u a s d) = db'.
Proof. intros Hcall. unfold step. simpl. by rewrite Hcall. Qed.

Lemma step_spend_Ok db now u a s d db' out :
  spend_points db now u a s d = Ok (db', out) →
  step db now (ev_spend_points u a s d) = db'.
Proof. intros Hcall. unfold step. simpl. by rewrite Hcall. Qed.

(** X1.  An amount that is zero or negative is refused by both functions
    with the exception ['Points amount must be positive'], whoever the
    user is and whether or not a row exists; the database stays as it
    was. *)
Theorem nonpositive_amount_is_refused db now u a s d :
  a ≤ 0 →
  award_points db now u (Some a) s d =
    Raise (raise_exception "Points amount must be positive") ∧
  spend_points db now u (Some a) s d =
    Raise (raise_exception "Points amount must be positive") ∧
  step db now (ev_award_points u (Some a) s d) = db ∧
  step db now (ev_spend_points u (Some a) s d) = db.
Proof.
  intros Ha.
  assert (sql_if (int4le (Some a) (Some 0)) = true) as Hif.
  { simpl. by rewrite bool_decide_eq_true_2. }
  unfold step, exec, award_points, spend_points. rewrite Hif. done.
Qed.

Lemma nonpositive_amount_is_refused_witness :
  0 ≤ 0 ∧
  award_points db_u1 "2025-01-03T00:00:00Z" (Some "u1") (Some 0) None None =
    Raise (raise_exception "Points amount must be positive").
Proof.
  split; [lia|].
  apply (nonpositive_amount_is_refused db_u1 "2025-01-03T00:00:00Z" (Some "u1") 0 None None).
  lia.
Defined.

(** X2.  On a row of a reachable database [award_points] with [a > 0]
    succeeds exactly when [total_earned + a] is still an [INTEGER]; past
    2147483647 it raises [numeric_value_out_of_range] (the sum does not
    wrap) and stores nothing. *)
Theorem award_points_overflow db now u r a s d :
  reachable db → user_points db !! u = Some r → 0 < a →
  (total_earned r + a ≤ int4_max ↔
   ∃ db' out, award_points db now (Some u) (Some a) s d = Ok (db', out)) ∧
  (int4_max < total_earned r + a →
   award_points db now (Some u) (Some a) s d = Raise numeric_value_out_of_range ∧
   step db now (ev_award_points (Some u) (Some a) s d) = db).
Proof.
  intros Hreach Hr Ha.
  pose proof (reachable_wf db Hreach u r Hr) as Hwf.
  assert (Hover : int4_max < total_earned r + a →
                  award_points db now (Some u) (Some a) s d =
                    Raise numeric_value_out_of_range).
  { intros Hbig. rewrite (award_points_on_row db now u r a s d Hr Ha).
    unfold award_update. simpl. unfold int4.
    destruct Hwf as ((? & ? & ? & ?) & ? & _).
    case_bool_decide; simpl; [|done].
    rewrite (bool_decide_eq_false_2 (int4_min ≤ total_earned r + a ≤ int4_max)) by lia.
    done. }
  split; [split|].
  - intros Hfit. rewrite (award_points_on_row db now u r a s d Hr Ha).
    edestruct (award_update_succeeds r now a) as [r' ->]; [done..|].
    simpl. by eexists _, _.
  - intros (db' & out & Hcall).
    destruct (decide (total_earned r + a ≤ int4_max)) as [|Hbig]; [done|].
    rewrite Hover in Hcall by lia. discriminate.
  - intros Hbig. split; [by apply Hover|].
    unfold step. simpl. by rewrite Hover.
Qed.

Lemma award_points_overflow_witness :
  reachable db_u1 ∧ user_points db_u1 !! "u1" = Some row_u1 ∧ 0 < 2147483640 ∧
  int4_max < total_earned row_u1 + 2147483640 ∧
  award_points db_u1 "2025-01-03T00:00:00Z" (Some "u1") (Some 2147483640) None None =
    Raise numeric_value_out_of_range.
Proof.
  split; [exact db_u1_reachable|]. split; [exact db_u1_row|]. split; [lia|].
  split; [unfold int4_max; simpl; lia|].
  apply (award_points_overflow db_u1 "2025-01-03T00:00:00Z" "u1" row_u1 2147483640
           None None db_u1_reachable db_u1_row); [lia | unfold int4_max; simpl; lia].
Defined.

(** A successful call returns the database it was given, or that
    database with the one matching row replaced. *)
Lemma award_points_Ok_shape db now p_user_id p_amount s d db' out :
  award_points db now p_user_id p_amount s d = Ok (db', out) →
  db' = db ∨
  ∃ u r r', p_user_id = Some u ∧ user_points db !! u = Some r ∧
            db' = set_user_points db (<[u:=r']> (user_points db)).
Proof.
  unfold award_points. destruct (sql_if _); [discriminate|].
  destruct p_user_id as [u|]; [|intros [= <- _]; by left].
  rewrite row_of_Some. destruct (user_points db !! u) as [r|] eqn:Hr;
    [|intros [= <- _]; by left].
  destruct (award_update _ _ _ _) as [r'|]; simpl; [|discriminate].
  intros [= <- _]. right. by exists u, r, r'.
Qed.

Lemma spend_points_Ok_shape db now p_user_id p_amount s d db' out :
  spend_points db now p_user_id p_amount s d = Ok (db', out) →
  db' = db ∨
  ∃ u r r', p_user_id = Some u ∧ user_points db !! u = Some r ∧
            db' = set_user_points db (<[u:=r']> (user_points db)).
Proof.
  unfold spend_points. destruct (sql_if _); [discriminate|].
  destruct (sql_if _); [intros [= <- _]; by left|].
  destruct (int4um _); simpl; [|discriminate].
  destruct p_user_id as [u|]; [|intros [= <- _]; by left].
  simpl. destruct (user_points db !! u) as [r|] eqn:Hr; [|intros [= <- _]; by left].
  destruct (spend_update _ _ _ _) as [r'|]; simpl; [|discriminate].
  intros [= <- _]. right. by exists u, r, r'.
Qed.

Lemma replaced_row_frame db db' p_user_id :
  (db' = db ∨
   ∃ u r r', p_user_id = Some u ∧ user_points db !! u = Some r ∧
             db' = set_user_points db (<[u:=r']> (user_points db))) →
  profiles db' = profiles db ∧
  (∀ v, p_user_id ≠ Some v → user_points db' !! v = user_points db !! v) ∧
  (∀ v, is_Some (user_points db' !! v) ↔ is_Some (user_points db !! v)).
Proof.
  intros [->|(u & r & r' & -> & Hr & ->)]; [done|]. simpl.
  split; [done|]. split.
  - intros v Hv. apply lookup_insert_ne. congruence.
  - intros v. destruct (decide (u = v)) as [<-|Hne].
    + rewrite lookup_insert_eq, Hr. split; by eexists.
    + by rewrite lookup_insert_ne.
Qed.

(** X3.  A call of [award_points] or [spend_points] for user [u] leaves
    the [profiles] table and the ledger row of every other user exactly
    as they were. *)
Theorem ledger_functions_touch_one_row db now p_user_id p_amount s d :
  (∀ db' out,
     award_points db now p_user_id p_amount s d = Ok (db', out) →
     profiles db' = profiles db ∧
     ∀ v, p_user_id ≠ Some v → user_points db' !! v = user_points db !! v) ∧
  (∀ db' out,
     spend_points db now p_user_id p_amount s d = Ok (db', out) →
     profiles db' = profiles db ∧
     ∀ v, p_user_id ≠ Some v → user_points db' !! v = user_points db !! v).
Proof.
  split; intros db' out Hcall.
  - apply award_points_Ok_shape, (replaced_row_frame db db' p_user_id) in Hcall. tauto.
  - apply spend_points_Ok_shape, (replaced_row_frame db db' p_user_id) in Hcall. tauto.
Qed.

(** X4.  Awarding [a] points and then spending [a] points brings
    [current_balance] back to where it was; [total_earned] and
    [total_spent] have both grown by [a], and the history has grown by
    the two entries, the earned one first. *)
Theorem award_then_spend db now1 now2 u r a s1 d1 s2 d2 :
  reachable db → user_points db !! u = Some r → 0 < a →
  total_earned r + a ≤ int4_max →
  ∃ db1 out1 db2 r2 e1 e2,
    award_points db now1 (Some u) (Some a) s1 d1 = Ok (db1, out1) ∧
    spend_points db1 now2 (Some u) (Some a) s2 d2 =
      Ok (db2, [(Some (current_balance r), Some true)]) ∧
    user_points db2 !! u = Some r2 ∧
    current_balance r2 = current_balance r ∧
    total_earned r2 = total_earned r + a ∧
    total_spent r2 = total_spent r + a ∧
    history_extends (points_history r) (points_history r2) [e1; e2] ∧
    is_entry e1 "earned" a ∧ is_entry e2 "spent" (- a).
Proof.
  intros Hreach Hr Ha Hfit.
  pose proof (reachable_wf db Hreach u r Hr) as Hwf.
  destruct (award_update_succeeds r now1 a
              (jsonb_build_object
                 [("amount", JNum a); ("source", jsonb_of_text s1);
                  ("description", jsonb_of_text d1); ("timestamp", JStr now1);
                  ("type", JStr "earned")]) Hwf Ha Hfit) as [r1 Hu1].
  pose proof (award_points_on_row db now1 u r a s1 d1 Hr Ha) as Hcall1.
  rewrite Hu1 in Hcall1. simpl in Hcall1.
  set (db1 := set_user_points db (<[u:=r1]> (user_points db))) in *.
  assert (Hreach1 : reachable db1).
  { rewrite <- (step_award_Ok _ _ _ _ _ _ _ _ Hcall1). by apply reachable_step. }
  assert (Hr1 : user_points db1 !! u = Some r1) by apply lookup_insert_eq.
  pose proof (reachable_wf db1 Hreach1 u r1 Hr1) as Hwf1.
  pose proof Hu1 as (? & [= <-] & Hr1eq & _)%award_update_Ok.
  assert (Hbal : 0 < a ≤ current_balance r1) by (rewrite Hr1eq; simpl;
    destruct Hwf as ((? & ? & ? & ?) & _); lia).
  assert (a ≤ int4_max) by (destruct Hwf as ((? & ? & ? & ?) & ? & _); lia).
  destruct (spend_update_succeeds r1 now2 a
              (jsonb_build_object
                 [("amount", JNum (- a)); ("purpose", jsonb_of_text s2);
                  ("description", jsonb_of_text d2); ("timestamp", JStr now2);
                  ("type", JStr "spent")]) Hwf1 Hbal) as [r2 Hu2].
  pose proof (spend_points_on_row db1 now2 u r1 a s2 d2 Hr1 Hbal ltac:(done)) as Hcall2.
  rewrite Hu2 in Hcall2. simpl in Hcall2.
  pose proof Hu2 as (? & [= <-] & Hr2eq & _)%spend_update_Ok.
  eexists db1, _, _, r2, _, _.
  split; [exact Hcall1|]. split.
  { rewrite Hcall2, Hr2eq, Hr1eq. simpl.
    replace (current_balance r + a - a) with (current_balance r) by lia.
    reflexivity. }
  split; [apply lookup_insert_eq|].
  rewrite Hr2eq, Hr1eq. simpl.
  do 3 (split; [lia|]). split.
  - destruct Hwf as (_ & _ & _ & _ & [l Hl]).
    destruct (points_history r); try discriminate Hl. simpl.
    exists elems. split; [done|]. by rewrite <- app_assoc.
  - split; split; reflexivity.
Qed.

Lemma award_then_spend_witness :
  reachable db_u1 ∧ user_points db_u1 !! "u1" = Some row_u1 ∧ 0 < 7 ∧
  total_earned row_u1 + 7 ≤ int4_max ∧
  ∃ db1 out1 db2 r2 e1 e2,
    award_points db_u1 "2025-01-03T00:00:00Z" (Some "u1") (Some 7) None None =
      Ok (db1, out1) ∧
    spend_points db1 "2025-01-04T00:00:00Z" (Some "u1") (Some 7) None None =
      Ok (db2, [(Some (current_balance row_u1), Some true)]) ∧
    user_points db2 !! "u1" = Some r2 ∧
    current_balance r2 = current_balance row_u1 ∧
    total_earned r2 = total_earned row_u1 + 7 ∧
    total_spent r2 = total_spent row_u1 + 7 ∧
    history_extends (points_history row_u1) (points_history r2) [e1; e2] ∧
    is_entry e1 "earned" 7 ∧ is_entry e2 "spent" (- 7).
Proof.
  split; [exact db_u1_reachable|]. split; [exact db_u1_row|]. split; [lia|].
  split; [unfold int4_max; simpl; lia|].
  apply (award_then_spend db_u1 "2025-01-03T00:00:00Z" "2025-01-04T00:00:00Z" "u1"
           row_u1 7 None None None None db_u1_reachable db_u1_row);
    [lia | unfold int4_max; simpl; lia].
Defined.

(** ** Invariants of the two tables together *)

Lemma insert_profile_username_free db now id p db' :
  insert_profile db now id p = Ok db' →
  ∀ j q, profiles db !! j = Some q → username q ≠ username p.
Proof.
  unfold insert_profile. destruct (profiles db !! id); [discriminate|].
  unfold username_taken. case_bool_decide as Hex; [discriminate|].
  intros _ j q Hq Heq. apply Hex. by exists j, q.
Qed.

Lemma rls_profiles_update_using uid id p :
  rls_using profiles_policies UPDATE uid id p = true ↔ uid = Some id.
Proof.
  unfold rls_using, profiles_policies. simpl.
  destruct uid as [u|]; simpl; [|done].
  case_bool_decide; (split; intros; by simplify_eq).
Qed.

Lemma rls_profiles_update_check uid id p :
  rls_with_check profiles_policies UPDATE uid id p = true ↔ uid = Some id.
Proof.
  unfold rls_with_check, profiles_policies. simpl.
  destruct uid as [u|]; simpl; [|done].
  case_bool_decide; (split; intros; by simplify_eq).
Qed.

(** A client's [UPDATE] of [profiles] reaches no row, or the client's
    own. *)
Lemma client_update_profile_targets_cases db uid where_ :
  client_update_profile_targets db uid where_ = ∅ ∨
  ∃ u p, uid = Some u ∧ profiles db !! u = Some p ∧ where_ u p = true ∧
         client_update_profile_targets db uid where_ = {[u := p]}.
Proof.
  unfold client_update_profile_targets.
  destruct uid as [u|].
  - destruct (profiles db !! u) as [p|] eqn:Hp.
    + destruct (where_ u p) eqn:Hw.
      * right. exists u, p. split_and!; try done.
        apply map_eq. intros k. destruct (decide (k = u)) as [->|Hne].
        -- rewrite lookup_singleton_eq. apply map_lookup_filter_Some. split; [done|].
           cbn [fst snd]. rewrite Hw, andb_true_l. by apply rls_profiles_update_using.
        -- rewrite lookup_singleton_ne by done. apply map_lookup_filter_None.
           right. intros q _. cbn [fst snd]. rewrite andb_true_iff.
           intros [_ Hu%rls_profiles_update_using]. congruence.
      * left. apply map_empty. intros k. apply map_lookup_filter_None.
        right. intros q Hq. cbn [fst snd]. rewrite andb_true_iff.
        intros [Hw' Hu%rls_profiles_update_using]. congruence.
    + left. apply map_empty. intros k. apply map_lookup_filter_None.
      right. intros q Hq. cbn [fst snd]. rewrite andb_true_iff.
      intros [_ Hu%rls_profiles_update_using]. congruence.
  - left. apply map_empty. intros k. apply map_lookup_filter_None.
    right. intros q Hq. cbn [fst snd]. rewrite andb_true_iff.
    intros [_ Hu%rls_profiles_update_using]. congruence.
Qed.

(** What a client's [UPDATE] of [profiles] does when it succeeds: nothing,
    or it replaces the client's own row by one whose username no other
    profile has.  The ledger is not touched. *)
Lemma client_update_profile_Ok db uid where_ set_ db' :
  client_update_profile db uid where_ set_ = Ok db' →
  user_points db' = user_points db ∧
  (profiles db' = profiles db ∨
   ∃ u p, uid = Some u ∧ profiles db !! u = Some p ∧ where_ u p = true ∧
          (∀ j q, j ≠ u → profiles db !! j = Some q →
                  username q ≠ username (set_ u p)) ∧
          profiles db' = <[u := set_ u p]> (profiles db)).
Proof.
  unfold client_update_profile.
  destruct (client_update_profile_targets_cases db uid where_)
    as [->|(u & p & -> & Hp & Hw & ->)].
  - rewrite map_to_list_empty. simpl. intros [= <-]. simpl. by split; [|left].
  - rewrite map_to_list_singleton. simpl.
    rewrite (bool_decide_eq_true_2 (u = u)) by done. simpl.
    case_bool_decide as Hex; simpl; [discriminate|].
    intros [= <-]. simpl. split; [done|]. right. exists u, p. split_and!; try done.
    intros j q Hj Hq Heq. apply Hex. by exists j, q.
Qed.

(** What a statement does to [profiles]: a row inserted under a fresh id
    and a free username, rows removed, a row replaced by one with a free
    username, or nothing. *)
Lemma exec_profiles db now ev db' :
  exec db now ev = Ok db' →
  (∃ id p, profiles db !! id = None ∧ user_points db !! id = None ∧
           (∀ j q, profiles db !! j = Some q → username q ≠ username p) ∧
           profiles db' = <[id := p]> (profiles db) ∧
           user_points db' = <[id := default_row now]> (user_points db)) ∨
  (∃ uid where_, ev = ev_client_delete_profile uid where_ ∧
                 client_delete_profile db uid where_ = Ok db') ∨
  (∃ u p p', profiles db !! u = Some p ∧
             (∀ j q, j ≠ u → profiles db !! j = Some q → username q ≠ username p') ∧
             profiles db' = <[u := p']> (profiles db) ∧
             user_points db' = user_points db) ∨
  (profiles db' = profiles db ∧
   ∀ v, is_Some (user_points db' !! v) ↔ is_Some (user_points db !! v)).
Proof.
  destruct ev; simpl.
  - intros Hins. left. eexists _, _.
    pose proof (insert_profile_username_free _ _ _ _ _ Hins).
    apply insert_profile_Ok in Hins as (? & ? & ? & ?). by split_and!.
  - unfold client_insert_profile. destruct (rls_with_check _ _ _ _ _); [|discriminate].
    intros Hins. left. eexists _, _.
    pose proof (insert_profile_username_free _ _ _ _ _ Hins).
    apply insert_profile_Ok in Hins as (? & ? & ? & ?). by split_and!.
  - intros Hdel. right. left. eauto.
  - intros [Hrows [Hsame|(u & p & _ & Hp & _ & Hfree & Hnew)]]%client_update_profile_Ok.
    + right. right. right. split; [done|]. intros v. by rewrite Hrows.
    + right. right. left. by exists u, p, (set_ u p).
  - destruct (award_points _ _ _ _ _ _) as [[db1 out]|] eqn:E; simpl; [|discriminate].
    intros [= <-]. right. right. right.
    apply award_points_Ok_shape, (replaced_row_frame db db1 p_user_id) in E. tauto.
  - destruct (spend_points _ _ _ _ _ _) as [[db1 out]|] eqn:E; simpl; [|discriminate].
    intros [= <-]. right. right. right.
    apply spend_points_Ok_shape, (replaced_row_frame db db1 p_user_id) in E. tauto.
  - by rewrite client_insert_user_points_refused.
  - rewrite client_update_user_points_noop. intros [= <-]. by right; right; right.
  - rewrite client_delete_user_points_noop. intros [= <-]. by right; right; right.
Qed.

(** After a client's [DELETE FROM profiles]: a profile is left when it
    was there and the statement did not reach it; a ledger row is left
    when it was there and its profile is. *)
Lemma client_delete_profile_lookups db uid where_ db' :
  client_delete_profile db uid where_ = Ok db' →
  (∀ id p, profiles db' !! id = Some p ↔
           profiles db !! id = Some p ∧
           (where_ id p && rls_using profiles_policies DELETE uid id p) = false) ∧
  (∀ id r, user_points db' !! id = Some r ↔
           user_points db !! id = Some r ∧
           (is_Some (profiles db' !! id) ∨ profiles db !! id = None)).
Proof.
  intros [= <-]. simpl. split.
  - intros id p. by rewrite map_lookup_filter_Some.
  - intros id r. by rewrite map_lookup_filter_Some.
Qed.

Lemma rls_profiles_delete uid id p :
  rls_using profiles_policies DELETE uid id p = true ↔ uid = Some id.
Proof.
  unfold rls_using, profiles_policies. simpl.
  destruct uid as [u|]; simpl; [|done].
  case_bool_decide; (split; intros; by simplify_eq).
Qed.

Lemma rls_profiles_insert uid id p :
  rls_with_check profiles_policies INSERT uid id p = true ↔ uid = Some id.
Proof.
  unfold rls_with_check, profiles_policies. simpl.
  destruct uid as [u|]; simpl; [|done].
  case_bool_decide; (split; intros; by simplify_eq).
Qed.

Lemma reachable_tables_agree db :
  reachable db → ∀ u, is_Some (profiles db !! u) ↔ is_Some (user_points db !! u).
Proof.
  induction 1 as [|db now ev Hreach IH]; intros u.
  - simpl. by rewrite !lookup_empty.
  - unfold step. destruct (exec db now ev) as [db'|] eqn:E; [|apply IH].
    apply exec_profiles in E
      as [(id & p & Hp & Hr & _ & -> & ->)|[(uid & w & _ & Hdel)|
          [(v & p & p' & Hp & _ & -> & ->)|[-> Hsame]]]].
    + destruct (decide (id = u)) as [->|Hne].
      * rewrite !lookup_insert_eq. split; by eexists.
      * rewrite !lookup_insert_ne by done. apply IH.
    + apply client_delete_profile_lookups in Hdel as [Hprof Hrow]. split.
      * intros [p Hp]. pose proof Hp as [Hold _]%Hprof.
        destruct (proj1 (IH u)) as [r Hr]; [by eexists|].
        exists r. apply Hrow. split; [done|]. left. by eexists.
      * intros [r Hr]. apply Hrow in Hr as [Hold [Hleft|Hnone]]; [done|].
        destruct (proj2 (IH u)) as [p Hp]; [by eexists|]. congruence.
    + rewrite <- IH. destruct (decide (v = u)) as [->|Hne].
      * rewrite lookup_insert_eq, Hp. split; by eexists.
      * by rewrite lookup_insert_ne.
    + rewrite Hsame. apply IH.
Qed.

(** X5.  In every reachable database a user has a ledger row exactly when
    the user has a profile: the trigger creates the row with the
    profile, the cascade removes it with the profile, and nothing else
    creates or removes either. *)
Theorem ledger_rows_follow_profiles db :
  reachable db → dom (user_points db) = dom (profiles db).
Proof.
  intros Hreach. apply set_eq. intros u. rewrite !elem_of_dom.
  symmetry. by apply reachable_tables_agree.
Qed.

Lemma ledger_rows_follow_profiles_witness :
  reachable db_u1 ∧ dom (user_points db_u1) = dom (profiles db_u1).
Proof.
  split; [exact db_u1_reachable|].
  apply (ledger_rows_follow_profiles db_u1 db_u1_reachable).
Defined.

(** X6.  In every reachable database no two profiles have the same
    username: the two statements that write the column, the [INSERT]
    behind a signup or sent by a client and the [UPDATE] the policy
    'Users can update own profile' allows, both keep it so, and a
    [DELETE] cannot break it. *)
Theorem usernames_are_unique db :
  reachable db →
  ∀ i j p q, profiles db !! i = Some p → profiles db !! j = Some q →
             username p = username q → i = j.
Proof.
  induction 1 as [|db now ev Hreach IH]; intros i j p q.
  - simpl. by rewrite lookup_empty.
  - unfold step. destruct (exec db now ev) as [db'|] eqn:E; [|apply IH].
    apply exec_profiles in E
      as [(id & p0 & Hp & _ & Hfree & -> & _)|[(uid & w & _ & Hdel)|
          [(u & p0 & p' & Hp & Hfree & -> & _)|[-> _]]]].
    + destruct (decide (id = i)) as [<-|Hi], (decide (id = j)) as [<-|Hj];
        rewrite ?lookup_insert_eq, ?lookup_insert_ne by done.
      * done.
      * intros [= <-] Hq Heq. exfalso. by eapply Hfree.
      * intros Hq [= <-] Heq. exfalso. by eapply Hfree.
      * apply IH.
    + apply client_delete_profile_lookups in Hdel as [Hprof _].
      intros [Hi _]%Hprof [Hj _]%Hprof. by apply IH.
    + destruct (decide (u = i)) as [<-|Hi], (decide (u = j)) as [<-|Hj];
        rewrite ?lookup_insert_eq, ?lookup_insert_ne by done.
      * done.
      * intros [= <-] Hq Heq. exfalso. by eapply (Hfree j q).
      * intros Hq [= <-] Heq. exfalso. by eapply (Hfree i p).
      * apply IH.
    + apply IH.
Qed.

Lemma usernames_are_unique_witness :
  reachable db_u1 ∧
  ∀ i j p q, profiles db_u1 !! i = Some p → profiles db_u1 !! j = Some q →
             username p = username q → i = j.
Proof.
  split; [exact db_u1_reachable|].
  apply (usernames_are_unique db_u1 db_u1_reachable).
Defined.

(** ** The history reconciles with the counters *)

Lemma sum_amounts_app l1 l2 : sum_amounts (l1 ++ l2) = sum_amounts l1 + sum_amounts l2.
Proof.
  unfold sum_amounts. induction l1 as [|e l1 IH]; simpl; [done|].
  rewrite IH. lia.
Qed.

Lemma is_entry_object e type a : is_entry e type a → ∃ kvs, e = JObj kvs.
Proof. intros [Ht _]. destruct e; try discriminate Ht. by eexists. Qed.

Lemma is_entry_amount e type a : is_entry e type a → entry_amount e = a.
Proof. intros [_ Ha]. unfold entry_amount. by rewrite Ha. Qed.

Lemma is_entry_type e type a type' :
  is_entry e type a → entry_has_type type' e = bool_decide (type = type').
Proof. intros [Ht _]. unfold entry_has_type. by rewrite Ht. Qed.

(** Appending an entry of type [type] and amount [a] to an array. *)
Lemma history_totals_append h e type a :
  is_Some (jsonb_array_elements h) → is_entry e type a →
  history_total (jsonb_concat h e) = history_total h + a ∧
  ∀ type', history_total_of type' (jsonb_concat h e) =
           history_total_of type' h + (if bool_decide (type = type') then a else 0).
Proof.
  intros [l Hl] He. destruct (is_entry_object _ _ _ He) as [kvs ->].
  destruct h; try discriminate Hl. simpl in Hl. injection Hl as ->.
  unfold history_total, history_total_of.
  cbn [jsonb_concat jsonb_array_elements default from_option]. unfold id.
  split.
  - rewrite sum_amounts_app. unfold sum_amounts at 2. simpl.
    rewrite (is_entry_amount _ _ _ He). lia.
  - intros type'. rewrite filter_app, sum_amounts_app. f_equal.
    rewrite filter_cons, filter_nil, (is_entry_type _ _ _ type' He).
    destruct (bool_decide_reflect (type = type')).
    + rewrite decide_True by done. unfold sum_amounts. simpl.
      rewrite (is_entry_amount _ _ _ He). lia.
    + by rewrite decide_False by done.
Qed.

(** X7.  In every reachable database the counters of a row can be read
    off its history: [total_earned] is the sum of the amounts of the
    ['earned'] entries, [total_spent] is minus the sum of the amounts of
    the ['spent'] entries, and [current_balance] is the sum of all
    amounts. *)
Theorem history_reconciles_with_counters db :
  reachable db → ∀ u r, user_points db !! u = Some r → reconciles r.
Proof.
  apply (reachable_rows_ind reconciles).
  - intros now. done.
  - intros r r' now a e (He & Hs & Hb) Hwf Ha Hentry Hu.
    apply award_update_Ok in Hu as (? & [= <-] & -> & _).
    destruct (history_totals_append (points_history r) e "earned" a) as [Htot Hof];
      [apply Hwf | done |].
    unfold reconciles. simpl. rewrite Htot, !Hof. simpl. lia.
  - intros r r' now a e (He & Hs & Hb) Hwf Ha Hentry Hu.
    apply spend_update_Ok in Hu as (? & [= <-] & -> & _).
    destruct (history_totals_append (points_history r) e "spent" (- a)) as [Htot Hof];
      [apply Hwf | done |].
    unfold reconciles. simpl. rewrite Htot, !Hof. simpl. lia.
Qed.

Lemma history_reconciles_with_counters_witness :
  reachable db_u1 ∧ user_points db_u1 !! "u1" = Some row_u1 ∧ reconciles row_u1.
Proof.
  split; [exact db_u1_reachable|]. split; [exact db_u1_row|].
  apply (history_reconciles_with_counters db_u1 db_u1_reachable "u1" row_u1 db_u1_row).
Defined.

(** X8.  No statement of the schema ever changes [level] or
    [weekly_goal]: in every reachable database every row still has the
    column defaults, [level = 1] and [weekly_goal = 100]. *)
Theorem level_and_weekly_goal_stay_default db :
  reachable db → ∀ u r, user_points db !! u = Some r →
  level r = 1 ∧ weekly_goal r = 100.
Proof.
  apply (reachable_rows_ind (λ r, level r = 1 ∧ weekly_goal r = 100)).
  - done.
  - intros r r' now a e Hr _ _ _ Hu.
    by apply award_update_Ok in Hu as (? & _ & -> & _).
  - intros r r' now a e Hr _ _ _ Hu.
    by apply spend_update_Ok in Hu as (? & _ & -> & _).
Qed.

Lemma level_and_weekly_goal_stay_default_witness :
  reachable db_u1 ∧ user_points db_u1 !! "u1" = Some row_u1 ∧
  level row_u1 = 1 ∧ weekly_goal row_u1 = 100.
Proof.
  split; [exact db_u1_reachable|]. split; [exact db_u1_row|].
  apply (level_and_weekly_goal_stay_default db_u1 db_u1_reachable "u1" row_u1 db_u1_row).
Defined.

(** ** The policies of [profiles] *)

(** X9.  A client can insert a profile only under their own id and can
    delete only their own profile: an [INSERT] for another id, or by an
    anonymous client, ends in a row-level-security violation, and a
    [DELETE], whatever its [WHERE] clause, leaves the profile and the
    ledger row of every other user in place; sent by an anonymous client
    it changes nothing. *)
Theorem clients_act_on_their_own_profile db uid :
  (∀ now id p, uid ≠ Some id →
     client_insert_profile db uid now id p = Raise (rls_violation "profiles")) ∧
  (∀ where_ db', client_delete_profile db uid where_ = Ok db' →
     ∀ id, uid ≠ Some id →
       profiles db' !! id = profiles db !! id ∧
       user_points db' !! id = user_points db !! id) ∧
  (∀ where_, uid = None → client_delete_profile db uid where_ = Ok db).
Proof.
  assert (Hother : ∀ where_ db', client_delete_profile db uid where_ = Ok db' →
            ∀ id, uid ≠ Some id →
              profiles db' !! id = profiles db !! id ∧
              user_points db' !! id = user_points db !! id).
  { intros where_ db' Hdel id Hne.
    apply client_delete_profile_lookups in Hdel as [Hprof Hrow].
    assert (Hp : profiles db' !! id = profiles db !! id).
    { apply option_eq. intros p. rewrite Hprof. split; [tauto|]. intros Hp.
      split; [done|]. apply andb_false_iff. right.
      apply not_true_iff_false. by rewrite rls_profiles_delete. }
    split; [done|].
    apply option_eq. intros r. rewrite Hrow, Hp. split; [tauto|]. intros Hr.
    split; [done|]. destruct (profiles db !! id); [left; by eexists | by right]. }
  split_and!.
  - intros now id p Hne. unfold client_insert_profile.
    destruct (rls_with_check _ _ _ _ _) eqn:Hc; [|done].
    by apply rls_profiles_insert in Hc.
  - exact Hother.
  - intros where_ ->.
    destruct (client_delete_profile db None where_) as [db'|] eqn:Hdel; [|done].
    f_equal. destruct db as [pr up], db' as [pr' up'].
    f_equal; apply map_eq; intros id;
      by destruct (Hother where_ _ Hdel id ltac:(done)).
Qed.

(** X10.  [handle_new_user], the trigger behind a signup, creates the
    profile and the zeroed ledger row together.  The username is the one
    in the metadata, or [user_] followed by the first eight characters of
    the id; the display name is the one in the metadata, or the e-mail
    address.  It succeeds exactly when the id has no profile and no
    ledger row and the username is free; otherwise it raises and neither
    table changes. *)
Theorem signup_creates_profile_and_ledger db now id mu md em :
  let p := {| username := default ("user_" +:+ String.substring 0 8 id) mu;
              display_name := match md with Some d => Some d | None => em end |} in
  ((profiles db !! id = None ∧ user_points db !! id = None ∧
    ∀ j q, profiles db !! j = Some q → username q ≠ username p) ↔
   ∃ db', handle_new_user db now id mu md em = Ok db') ∧
  (∀ db', handle_new_user db now id mu md em = Ok db' →
     profiles db' = <[id := p]> (profiles db) ∧
     user_points db' = <[id := default_row now]> (user_points db)) ∧
  (∀ e, handle_new_user db now id mu md em = Raise e →
     step db now (ev_new_user id mu md em) = db ∧
     ∃ c, e = unique_violation c).
Proof.
  intros p. unfold handle_new_user. fold p. split_and!.
  - split.
    + intros (Hp & Hr & Hfree). unfold insert_profile, handle_new_profile_points.
      rewrite Hp. unfold username_taken.
      rewrite bool_decide_eq_false_2; [|intros (j & q & Hq & Heq); by eapply Hfree].
      simpl. rewrite Hr. simpl. by eexists.
    + intros [db' Hins].
      pose proof (insert_profile_username_free _ _ _ _ _ Hins).
      apply insert_profile_Ok in Hins as (? & ? & ? & ?). done.
  - intros db' Hins. apply insert_profile_Ok in Hins as (? & ? & ? & ?). done.
  - intros e He. split.
    + unfold step, exec, handle_new_user. fold p. by rewrite He.
    + revert He. unfold insert_profile, handle_new_profile_points.
      destruct (profiles db !! id); [intros [= <-]; by eexists|].
      destruct (username_taken db (username p)); [intros [= <-]; by eexists|].
      simpl. destruct (user_points db !! id); [intros [= <-]; by eexists|].
      discriminate.
Qed.



End SchemaMore.

(* ===================================================================== *)
(** * Part X. The challenge functions: properties                         *)
(* ===================================================================== *)

Module ChallengesFacts.
Import Schema SchemaFacts Challenges.

#[local] Open Scope Z_scope.

Section functions.

Context (timestamptz_out : Z → string).

Abbreviation check := (check_challenge_completion timestamptz_out).

Lemma active_challenge_Some st id c :
  active_challenge st (Some id) = Some c ↔
  user_challenges st !! id = Some c ∧ status c = Some active.
Proof.
  unfold active_challenge. simpl. destruct (user_challenges st !! id) as [c'|]; simpl.
  - case_bool_decide; split; [by intros [= ->] | by intros [[= ->] _]
                             | done | intros [[= ->] ?]; done].
  - split; [done | by intros []].
Qed.

Lemma no_active_challenge st now p_challenge_id :
  active_challenge st p_challenge_id = None →
  check st now p_challenge_id = Ok (st, Some false).
Proof.
  unfold check_challenge_completion. intros Hc.
  destruct p_challenge_id as [id|]; [|done]. by rewrite Hc.
Qed.

(** X11.  [check_challenge_completion] returns [FALSE] and changes
    nothing when the id is [NULL] or unknown, when the challenge is not
    active, or when [current_value] is still below [target_value]. *)
Theorem unmet_challenge_is_left_alone st now p_challenge_id :
  (active_challenge st p_challenge_id = None ∨
   ∃ c, active_challenge st p_challenge_id = Some c ∧
        current_value c < target_value c) →
  check st now p_challenge_id = Ok (st, Some false).
Proof.
  intros [Hc|(c & Hc & Hlt)]; [by apply no_active_challenge|].
  unfold check_challenge_completion.
  destruct p_challenge_id as [id|]; [|done].
  rewrite Hc. simpl. by rewrite bool_decide_eq_false_2 by lia.
Qed.

Lemma met_challenge st now id c :
  user_challenges st !! id = Some c → status c = Some active →
  target_value c ≤ current_value c →
  check st now (Some id) =
  let marked := <[id := set_status c completed (Some now)]> (user_challenges st) in
  if sql_if (int4gt (points_reward c) (Some 0)) then
    out ←! award_points (db st) (timestamptz_out now) (Some (user_id c))
             (points_reward c) (Some "challenge_completion")
             (Some ("Completed: " +:+ title c));
    Ok ({| db := out.1; user_challenges := marked |}, Some true)
  else Ok ({| db := db st; user_challenges := marked |}, Some true).
Proof.
  intros Hc Hs Hmet. unfold check_challenge_completion.
  rewrite (proj2 (active_challenge_Some st id c)) by done. simpl.
  by rewrite bool_decide_eq_true_2 by lia.
Qed.

(** X12.  For an active challenge whose target is met and whose reward is
    [a > 0], owned by a user with a ledger row in a reachable database:
    [check_challenge_completion] returns [TRUE], marks the challenge
    completed at [NOW()], and the owner's ledger gets exactly [a]: the
    balance and [total_earned] grow by [a] and one ['earned'] entry with
    source ['challenge_completion'] and description ['Completed: ' ||
    title] is appended.  [ends_at] plays no part: a target met after the
    end still completes. *)
Theorem met_challenge_awards_its_reward st now id c r a :
  user_challenges st !! id = Some c → status c = Some active →
  target_value c ≤ current_value c →
  points_reward c = Some a → 0 < a →
  reachable (db st) → user_points (db st) !! user_id c = Some r →
  total_earned r + a ≤ int4_max →
  ∃ st' r' e,
    check st now (Some id) = Ok (st', Some true) ∧
    user_challenges st' =
      <[id := set_status c completed (Some now)]> (user_challenges st) ∧
    user_points (db st') = <[user_id c := r']> (user_points (db st)) ∧
    current_balance r' = current_balance r + a ∧
    total_earned r' = total_earned r + a ∧
    total_spent r' = total_spent r ∧
    history_extends (points_history r) (points_history r') [e] ∧
    is_entry e "earned" a ∧
    jsonb_object_field e "source" = Some (JStr "challenge_completion") ∧
    jsonb_object_field e "description" = Some (JStr ("Completed: " +:+ title c)).
Proof.
  intros Hc Hs Hmet Hreward Ha Hreach Hr Hfit.
  rewrite (met_challenge st now id c Hc Hs Hmet). cbn zeta.
  rewrite Hreward. simpl. rewrite bool_decide_eq_true_2 by lia.
  rewrite (award_points_on_row (db st) _ (user_id c) r a _ _ Hr Ha).
  pose proof (reachable_wf _ Hreach _ _ Hr) as Hwf.
  edestruct (award_update_succeeds r (timestamptz_out now) a) as [r' Hu]; [done..|].
  rewrite Hu. simpl.
  pose proof Hu as (? & [= <-] & Hr' & _)%award_update_Ok.
  eexists _, r', _. split; [reflexivity|]. simpl. split; [done|]. split; [done|].
  rewrite Hr'. simpl. do 3 (split; [done|]). split.
  - apply history_extends_entry, Hwf.
  - by split_and!.
Qed.

(** X13.  When the reward is [NULL] or 0 the challenge is completed all
    the same, [award_points] is not called and the ledger stays as it
    was. *)
Theorem met_challenge_without_reward st now id c :
  user_challenges st !! id = Some c → status c = Some active →
  target_value c ≤ current_value c →
  points_reward c = None ∨ (∃ a, points_reward c = Some a ∧ a ≤ 0) →
  check st now (Some id) =
    Ok ({| db := db st;
           user_challenges :=
             <[id := set_status c completed (Some now)]> (user_challenges st) |},
        Some true).
Proof.
  intros Hc Hs Hmet Hreward.
  rewrite (met_challenge st now id c Hc Hs Hmet). cbn zeta.
  destruct Hreward as [->|(a & -> & Ha)]; simpl; [done|].
  by rewrite bool_decide_eq_false_2 by lia.
Qed.

(** X14.  A reward that would take [total_earned] past 2147483647 makes
    [award_points] raise inside the function; the exception passes
    through, so the statement is rolled back and the challenge is left
    active instead of being completed without its points. *)
Theorem failed_award_keeps_challenge_active st now id c r a :
  user_challenges st !! id = Some c → status c = Some active →
  target_value c ≤ current_value c →
  points_reward c = Some a → 0 < a →
  reachable (db st) → user_points (db st) !! user_id c = Some r →
  int4_max < total_earned r + a →
  check st now (Some id) = Raise numeric_value_out_of_range.
Proof.
  intros Hc Hs Hmet Hreward Ha Hreach Hr Hbig.
  rewrite (met_challenge st now id c Hc Hs Hmet). cbn zeta.
  rewrite Hreward. simpl. rewrite bool_decide_eq_true_2 by lia.
  rewrite (award_points_on_row (db st) _ (user_id c) r a _ _ Hr Ha).
  destruct (reachable_wf _ Hreach _ _ Hr) as ((? & ? & ? & ?) & ? & _).
  unfold award_update. simpl. unfold int4.
  case_bool_decide; simpl; [|done].
  rewrite (bool_decide_eq_false_2 (int4_min ≤ total_earned r + a ≤ int4_max)) by lia.
  done.
Qed.

(** A call that returned [TRUE] has marked the challenge completed. *)
Lemma check_true_marks st now p_challenge_id st' :
  check st now p_challenge_id = Ok (st', Some true) →
  ∃ id c d, p_challenge_id = Some id ∧
            user_challenges st !! id = Some c ∧ status c = Some active ∧
            target_value c ≤ current_value c ∧
            st' = {| db := d;
                     user_challenges :=
                       <[id := set_status c completed (Some now)]>
                         (user_challenges st) |}.
Proof.
  unfold check_challenge_completion.
  destruct p_challenge_id as [id|]; [|discriminate].
  destruct (active_challenge st (Some id)) as [c|] eqn:Hc; [|discriminate].
  apply active_challenge_Some in Hc as [Hc Hs].
  simpl. case_bool_decide; [|discriminate].
  destruct (sql_if _).
  - destruct (award_points _ _ _ _ _ _) as [out|]; simpl; [|discriminate].
    intros [= <-]. by eexists id, c, _.
  - intros [= <-]. by eexists id, c, _.
Qed.

(** A call repeated on the state a [TRUE] call returned finds the
    challenge completed and returns [FALSE]. *)
Lemma repeated_check_is_refused st now p_challenge_id st' :
  check st now p_challenge_id = Ok (st', Some true) →
  ∀ now', check st' now' p_challenge_id = Ok (st', Some false).
Proof.
  intros (id & c & d & -> & _ & _ & _ & ->)%check_true_marks now'.
  apply no_active_challenge.
  unfold active_challenge. simpl. by rewrite lookup_insert_eq.
Qed.

(** The award of a met challenge, as far as the next call needs it. *)
Lemma met_challenge_award st now id c r a :
  user_challenges st !! id = Some c → status c = Some active →
  target_value c ≤ current_value c →
  points_reward c = Some a → 0 < a →
  reachable (db st) → user_points (db st) !! user_id c = Some r →
  total_earned r + a ≤ int4_max →
  ∃ st' r',
    check st now (Some id) = Ok (st', Some true) ∧
    user_challenges st' =
      <[id := set_status c completed (Some now)]> (user_challenges st) ∧
    reachable (db st') ∧
    user_points (db st') !! user_id c = Some r' ∧
    current_balance r' = current_balance r + a ∧
    total_earned r' = total_earned r + a.
Proof.
  intros Hc Hs Hmet Hreward Ha Hreach Hr Hfit.
  rewrite (met_challenge st now id c Hc Hs Hmet). cbn zeta.
  rewrite Hreward. simpl. rewrite bool_decide_eq_true_2 by lia.
  destruct (award_points (db st) (timestamptz_out now) (Some (user_id c)) (Some a)
              (Some "challenge_completion") (Some ("Completed: " +:+ title c)))
    as [[db1 out]|e] eqn:E.
  - pose proof (SchemaMore.step_award_Ok _ _ _ _ _ _ _ _ E) as Hstep.
    rewrite (award_points_on_row (db st) _ (user_id c) r a _ _ Hr Ha) in E.
    destruct (award_update r _ _ _) as [r'|] eqn:Hu; simpl in E; [|discriminate].
    injection E as <- <-.
    pose proof Hu as (? & [= <-] & Hr' & _)%award_update_Ok.
    exists {| db := set_user_points (db st) (<[user_id c := r']> (user_points (db st)));
              user_challenges :=
                <[id := set_status c completed (Some now)]> (user_challenges st) |}, r'.
    simpl. split_and!; try done.
    + rewrite <- Hstep. by apply reachable_step.
    + by rewrite lookup_insert_eq.
    + by rewrite Hr'.
    + by rewrite Hr'.
  - exfalso.
    rewrite (award_points_on_row (db st) _ (user_id c) r a _ _ Hr Ha) in E.
    pose proof (reachable_wf _ Hreach _ _ Hr) as Hwf.
    edestruct (award_update_succeeds r (timestamptz_out now) a) as [r' Hu]; [done..|].
    by rewrite Hu in E.
Qed.

Lemma rls_challenges_update_using uid id c :
  rls_using user_challenges_policies UPDATE uid id c = true ↔ uid = Some (user_id c).
Proof.
  unfold rls_using, user_challenges_policies. simpl.
  destruct uid as [u|]; simpl; [|done].
  case_bool_decide; (split; intros; by simplify_eq).
Qed.

Lemma rls_challenges_update_check uid id c :
  rls_with_check user_challenges_policies UPDATE uid id c = true ↔
  uid = Some (user_id c).
Proof.
  unfold rls_with_check, user_challenges_policies. simpl.
  destruct uid as [u|]; simpl; [|done].
  case_bool_decide; (split; intros; by simplify_eq).
Qed.

(** The owner's [UPDATE ... WHERE id = ...] of one challenge: it goes
    through when the new row keeps the owner and satisfies the
    constraints of the table. *)
Lemma owner_updates_a_challenge st id c set_ :
  user_challenges st !! id = Some c →
  user_id (set_ id c) = user_id c →
  user_challenge_checks (set_ id c) = Ok tt →
  client_update_challenge st (Some (user_id c)) (λ i _, bool_decide (i = id)) set_ =
  Ok {| db := db st; user_challenges := <[id := set_ id c]> (user_challenges st) |}.
Proof.
  intros Hc Howner Hchecks. unfold client_update_challenge.
  assert (client_update_challenge_targets st (Some (user_id c))
            (λ i _, bool_decide (i = id)) = {[id := c]}) as ->.
  { unfold client_update_challenge_targets. apply map_eq. intros k.
    destruct (decide (k = id)) as [->|Hne].
    - rewrite lookup_singleton_eq. apply map_lookup_filter_Some. split; [done|].
      cbn [fst snd]. rewrite bool_decide_eq_true_2, andb_true_l by done.
      by apply rls_challenges_update_using.
    - rewrite lookup_singleton_ne by done. apply map_lookup_filter_None.
      right. intros q _. cbn [fst snd]. by rewrite bool_decide_eq_false_2. }
  rewrite map_to_list_singleton. cbn [foldr sql_bind fst snd].
  rewrite (proj2 (rls_challenges_update_check (Some (user_id c)) id (set_ id c)))
    by (by rewrite Howner).
  by rewrite Hchecks.
Qed.

(** X15.  What stands between a completed challenge and a second award is
    its [status] alone.  A call repeated on the state the first call
    returned finds no active challenge and returns [FALSE], changing
    nothing.  But the policy 'System can update challenges' lets the
    owner update the row: once the owner has set [status] back to
    ['active'] ([current_value] still meets the target), the next call
    returns [TRUE] and awards the reward a second time. *)
Theorem completion_is_guarded_by_status_alone st now now' id c r a :
  user_challenges st !! id = Some c → status c = Some active →
  target_value c ≤ current_value c →
  points_reward c = Some a → 0 < a →
  user_challenge_checks c = Ok tt →
  reachable (db st) → user_points (db st) !! user_id c = Some r →
  total_earned r + a + a ≤ int4_max →
  ∃ st1 st2 st3 r3,
    check st now (Some id) = Ok (st1, Some true) ∧
    check st1 now' (Some id) = Ok (st1, Some false) ∧
    client_update_challenge st1 (Some (user_id c)) (λ i _, bool_decide (i = id))
      (λ _, reactivated) = Ok st2 ∧
    db st2 = db st1 ∧
    check st2 now' (Some id) = Ok (st3, Some true) ∧
    user_points (db st3) !! user_id c = Some r3 ∧
    current_balance r3 = current_balance r + a + a ∧
    total_earned r3 = total_earned r + a + a.
Proof.
  intros Hc Hs Hmet Hreward Ha Hchecks Hreach Hr Hfit.
  destruct (met_challenge_award st now id c r a)
    as (st1 & r1 & Hcheck1 & Hrows1 & Hreach1 & Hr1 & Hb1 & He1); try done; [lia|].
  set (c1 := set_status c completed (Some now)) in *.
  assert (Hc1 : user_challenges st1 !! id = Some c1)
    by (by rewrite Hrows1, lookup_insert_eq).
  set (st2 := {| db := db st1;
                 user_challenges := <[id := reactivated c1]> (user_challenges st1) |}).
  destruct (met_challenge_award st2 now' id (reactivated c1) r1 a)
    as (st3 & r3 & Hcheck3 & _ & _ & Hr3 & Hb3 & He3); try done.
  { simpl. by rewrite lookup_insert_eq. }
  { lia. }
  exists st1, st2, st3, r3. split_and!; try done.
  - by apply (repeated_check_is_refused st now).
  - by apply (owner_updates_a_challenge st1 id c1 (λ _, reactivated)).
  - lia.
  - lia.
Qed.

End functions.

(** ** [expire_old_challenges] *)

Lemma expirable_spec now c :
  expirable now c = true ↔
  status c = Some active ∧ ends_at c < now ∧ current_value c < target_value c.
Proof.
  unfold expirable. rewrite !andb_true_iff, !bool_decide_eq_true. tauto.
Qed.

Lemma expire_row_settled now now' c : expirable now' (expire_row now c) = false ∨
                                      expirable now c = false.
Proof.
  unfold expire_row. destruct (expirable now c) eqn:He; [left | by right].
  reflexivity.
Qed.

Lemma expire_Ok st now st' n :
  expire_old_challenges st now = Ok (st', n) →
  db st' = db st ∧
  user_challenges st' = expire_row now <$> user_challenges st ∧
  n = Some (Z.of_nat (size (filter (λ kv, expirable now kv.2 = true)
                                   (user_challenges st)))).
Proof.
  unfold expire_old_challenges.
  destruct (int4 _) as [k|] eqn:Hk; simpl; [|discriminate].
  apply int4_Ok in Hk as [-> _]. by intros [= <- <-].
Qed.

(** X16.  [expire_old_challenges] touches only [user_challenges], and in
    it only the challenges that are active, past [ends_at] and short of
    their target: those become ['expired'], every other row (and every
    other column) stays as it was.  The number it returns is the number
    of rows it changed, and running it again at the same time returns 0
    and changes nothing. *)
Theorem expire_marks_overdue_unmet_challenges st now st' n :
  expire_old_challenges st now = Ok (st', n) →
  db st' = db st ∧
  (∀ id c, user_challenges st !! id = Some c →
     status c = Some active → ends_at c < now → current_value c < target_value c →
     user_challenges st' !! id = Some (set_status c expired (completed_at c))) ∧
  (∀ id c, user_challenges st !! id = Some c →
     status c ≠ Some active ∨ now ≤ ends_at c ∨ target_value c ≤ current_value c →
     user_challenges st' !! id = Some c) ∧
  (∀ id, user_challenges st !! id = None → user_challenges st' !! id = None) ∧
  n = Some (Z.of_nat (size (filter (λ kv, user_challenges st' !! kv.1 ≠ Some kv.2)
                                   (user_challenges st)))) ∧
  expire_old_challenges st' now = Ok (st', Some 0).
Proof.
  intros Hex. pose proof Hex as (Hdb & Hrows & Hn)%expire_Ok.
  assert (Hlook : ∀ id, user_challenges st' !! id =
                        expire_row now <$> user_challenges st !! id).
  { intros id. by rewrite Hrows, lookup_fmap. }
  split_and!.
  - done.
  - intros id c Hc Hs He Ht. rewrite Hlook, Hc. simpl. unfold expire_row.
    by rewrite (proj2 (expirable_spec now c)).
  - intros id c Hc Hno. rewrite Hlook, Hc. simpl. unfold expire_row.
    destruct (expirable now c) eqn:He; [|done].
    apply expirable_spec in He. destruct Hno as [?|[?|?]]; [tauto | lia | lia].
  - intros id Hc. by rewrite Hlook, Hc.
  - rewrite Hn. do 3 f_equal. apply map_filter_ext. intros id c Hc. simpl.
    rewrite Hlook, Hc. simpl. unfold expire_row.
    destruct (expirable now c) eqn:He; split; try done.
    intros _ [= Heq]. apply expirable_spec in He as [Hs _].
    rewrite <- Heq in Hs. discriminate.
  - unfold expire_old_challenges.
    assert (filter (λ kv, expirable now kv.2 = true) (user_challenges st') = ∅) as ->.
    { apply map_empty. intros id. apply map_lookup_filter_None. right.
      intros c'. rewrite Hlook. intros Hc'. simpl.
      destruct (user_challenges st !! id) as [c|]; [|done].
      injection Hc' as <-. apply not_true_iff_false.
      destruct (expire_row_settled now now c) as [?|He]; [done|].
      unfold expire_row. by rewrite He. }
    rewrite map_size_empty. simpl. do 2 f_equal.
    destruct st' as [d' t']. simpl in *. f_equal.
    apply map_eq. intros id. rewrite lookup_fmap, Hlook.
    destruct (user_challenges st !! id) as [c|]; [|done]. simpl. f_equal.
    destruct (expire_row_settled now now c) as [Hset|He].
    + unfold expire_row at 1. by rewrite Hset.
    + unfold expire_row. rewrite He. by rewrite He.
Qed.


Lemma unmet_challenge_is_left_alone_witness :
  active_challenge state_u1 (Some "c2") = None ∧
  check_challenge_completion sample_timestamptz_out state_u1 1736000000000000
    (Some "c2") = Ok (state_u1, Some false).
Proof.
  assert (H : active_challenge state_u1 (Some "c2") = None) by reflexivity.
  split; [exact H|].
  apply (unmet_challenge_is_left_alone sample_timestamptz_out state_u1
           1736000000000000 (Some "c2")).
  left. exact H.
Defined.

Lemma met_challenge_awards_its_reward_witness :
  ∃ st' r' e,
    check_challenge_completion sample_timestamptz_out state_u1 1736400000000000
      (Some "c1") = Ok (st', Some true) ∧
    user_challenges st' =
      <["c1" := set_status challenge_c1 completed (Some 1736400000000000)]>
        (user_challenges state_u1) ∧
    user_points (db st') = <["u1" := r']> (user_points (db state_u1)) ∧
    current_balance r' = current_balance row_u1 + 50 ∧
    total_earned r' = total_earned row_u1 + 50 ∧
    total_spent r' = total_spent row_u1 ∧
    history_extends (points_history row_u1) (points_history r') [e] ∧
    is_entry e "earned" 50 ∧
    jsonb_object_field e "source" = Some (JStr "challenge_completion") ∧
    jsonb_object_field e "description" = Some (JStr "Completed: Three workouts").
Proof.
  apply (met_challenge_awards_its_reward sample_timestamptz_out state_u1
           1736400000000000 "c1" challenge_c1 row_u1 50);
    [reflexivity | reflexivity | simpl; lia | reflexivity | lia
    | exact db_u1_reachable | exact db_u1_row | unfold int4_max; simpl; lia].
Defined.

Lemma met_challenge_without_reward_witness :
  user_challenges state_no_reward !! "c2" = Some challenge_c2 ∧
  points_reward challenge_c2 = None ∧
  check_challenge_completion sample_timestamptz_out state_no_reward 1736400000000000
    (Some "c2") =
  Ok ({| db := db state_no_reward;
         user_challenges :=
           <["c2" := set_status challenge_c2 completed (Some 1736400000000000)]>
             (user_challenges state_no_reward) |},
      Some true).
Proof.
  split; [reflexivity|]. split; [reflexivity|].
  apply (met_challenge_without_reward sample_timestamptz_out state_no_reward
           1736400000000000 "c2" challenge_c2);
    [reflexivity | reflexivity | simpl; lia | left; reflexivity].
Defined.

Lemma failed_award_keeps_challenge_active_witness :
  reachable (db state_rich) ∧
  (total_earned <$> user_points (db state_rich) !! "u1") = Some 2147483610 ∧
  check_challenge_completion sample_timestamptz_out state_rich 1736400000000000
    (Some "c1") = Raise numeric_value_out_of_range.
Proof.
  assert (Hreach : reachable (db state_rich)).
  { simpl. apply reachable_step. exact db_u1_reachable. }
  split; [exact Hreach|]. split; [vm_compute; reflexivity|].
  eapply (failed_award_keeps_challenge_active sample_timestamptz_out state_rich
            1736400000000000 "c1" challenge_c1 _ 50);
    [reflexivity | reflexivity | simpl; lia | reflexivity | lia | exact Hreach
    | vm_compute; reflexivity | unfold int4_max; simpl; lia].
Defined.

Lemma completion_is_guarded_by_status_alone_witness :
  ∃ st1 st2 st3 r3,
    check_challenge_completion sample_timestamptz_out state_u1 1736400000000000
      (Some "c1") = Ok (st1, Some true) ∧
    check_challenge_completion sample_timestamptz_out st1 1736500000000000
      (Some "c1") = Ok (st1, Some false) ∧
    client_update_challenge st1 (Some "u1") (λ i _, bool_decide (i = "c1"))
      (λ _, reactivated) = Ok st2 ∧
    db st2 = db st1 ∧
    check_challenge_completion sample_timestamptz_out st2 1736500000000000
      (Some "c1") = Ok (st3, Some true) ∧
    user_points (db st3) !! "u1" = Some r3 ∧
    current_balance r3 = 110 ∧
    total_earned r3 = 110.
Proof.
  apply (completion_is_guarded_by_status_alone sample_timestamptz_out state_u1
           1736400000000000 1736500000000000 "c1" challenge_c1 row_u1 50);
    [reflexivity | reflexivity | simpl; lia | reflexivity | lia | reflexivity
    | exact db_u1_reachable | exact db_u1_row | unfold int4_max; simpl; lia].
Defined.

Lemma expire_marks_overdue_unmet_challenges_witness :
  ∃ st',
    expire_old_challenges state_overdue 1736400000000000 = Ok (st', Some 1) ∧
    db st' = db state_overdue ∧
    user_challenges st' !! "c1" = Some challenge_c1 ∧
    user_challenges st' !! "c3" = Some (set_status challenge_c3 expired None) ∧
    expire_old_challenges st' 1736400000000000 = Ok (st', Some 0).
Proof.
  assert (∃ st', expire_old_challenges state_overdue 1736400000000000 =
                 Ok (st', Some 1)) as [st' Hex].
  { eexists. vm_compute. reflexivity. }
  destruct (expire_marks_overdue_unmet_challenges state_overdue 1736400000000000
              st' (Some 1) Hex) as (Hdb & Hexp & Hkeep & _ & _ & Hagain).
  exists st'. split; [exact Hex|]. split; [exact Hdb|]. split.
  - apply Hkeep; [reflexivity | right; right; simpl; lia].
  - split; [|exact Hagain].
    apply (Hexp "c3" challenge_c3); [reflexivity | reflexivity | simpl; lia..].
Defined.

End ChallengesFacts.

(* ===================================================================== *)
(** * Part XI. [getCurrentUser], [useAuth] and [useUser]: properties      *)
(* ===================================================================== *)

Module HooksMoreFacts.
Import Hooks HooksMore.

(** X17.  [getCurrentUser] calls [createClient()] before its [try].  When
    that call returns, [getCurrentUser] makes one call and does not
    throw: it returns the user of the response, whether or not the
    response also carries an error, and [null] when the call rejects.
    When [createClient()] throws, [getCurrentUser] makes no call and
    throws what was thrown: its [catch] does not cover that. *)
Theorem getCurrentUser_swallows_call_errors (b : AuthUtils.backend) :
  AuthUtils.run AuthUtils.client_created b [] AuthUtils.getCurrentUser =
  ([AuthUtils.auth_getUser],
   inl match b [] AuthUtils.auth_getUser with
       | AuthUtils.resolved u _ => u
       | AuthUtils.rejected _ => None
       end) ∧
  (∀ t, AuthUtils.run (AuthUtils.creation_failed t) b [] AuthUtils.getCurrentUser =
        ([], inr t)) ∧
  (∀ c t, AuthUtils.result c b AuthUtils.getCurrentUser = inr t →
          c = AuthUtils.creation_failed t).
Proof.
  split_and!.
  - unfold AuthUtils.getCurrentUser. simpl.
    by destruct (b [] AuthUtils.auth_getUser).
  - reflexivity.
  - intros [|t'] t; unfold AuthUtils.result, AuthUtils.getCurrentUser; simpl.
    + by destruct (b [] AuthUtils.auth_getUser).
    + by intros [= ->].
Qed.

(** X18.  [signOut] of [useAuth] works on the client the hook created
    when it rendered.  It makes one call and pushes ['/'] whenever the
    call resolves, also when it resolves with an error, which is
    ignored; when the call rejects, [signOut] throws what was thrown and
    pushes nothing, where [logout], given a client, catches it and
    returns. *)
Theorem useAuth_signOut_ignores_errors (c : AuthUtils.creation) (b : AuthUtils.backend) :
  AuthUtils.run c b [] useAuth_signOut =
  ([AuthUtils.auth_signOut],
   match b [] AuthUtils.auth_signOut with
   | AuthUtils.resolved _ _ => inl ["/"]
   | AuthUtils.rejected t => inr t
   end) ∧
  (∀ t, b [] AuthUtils.auth_signOut = AuthUtils.rejected t →
        AuthUtils.result c b useAuth_signOut = inr t ∧
        ∃ r, AuthUtils.result AuthUtils.client_created b AuthUtils.logout = inl r).
Proof.
  split.
  - unfold useAuth_signOut. simpl. by destruct (b [] AuthUtils.auth_signOut).
  - intros t Ht. unfold AuthUtils.result, useAuth_signOut, AuthUtils.logout. simpl.
    rewrite Ht. simpl. split; [done | by eexists].
Qed.

Section hooks.

Context {User : Type} `{EqDecision User}.

Implicit Types (st : @user_state User) (ev : @auth_event User)
  (evs : list (@auth_event User)).

Lemma callback_result st ev :
  foldl apply_set st (callback ev) = {| user := announced ev; loading := false |}.
Proof. by destruct ev. Qed.

Lemma renders_last batched st ev :
  last (renders batched st ev) = Some {| user := announced ev; loading := false |}.
Proof. destruct batched, ev; reflexivity. Qed.

Lemma all_renders_cons batched st ev evs :
  all_renders batched st (ev :: evs) =
  renders batched st ev ++ all_renders batched (foldl apply_set st (callback ev)) evs.
Proof. done. Qed.

Lemma renders_settled batched st ev st' :
  loading st = false → st' ∈ renders batched st ev → loading st' = false.
Proof.
  intros Hst. destruct batched, ev; simpl; rewrite ?Hst;
    rewrite ?elem_of_cons, ?elem_of_nil; intros Hin;
    repeat destruct Hin as [->|Hin]; done.
Qed.

Lemma all_renders_settled batched st evs st' :
  loading st = false → st' ∈ all_renders batched st evs → loading st' = false.
Proof.
  revert st. induction evs as [|ev evs IH]; intros st Hst.
  - simpl. by rewrite elem_of_nil.
  - rewrite all_renders_cons, elem_of_app. intros [Hin|Hin].
    + by eapply renders_settled.
    + eapply IH; [|exact Hin]. by rewrite callback_result.
Qed.

(** X19.  The state of [useUser] depends on the last callback alone: after
    any sequence of callbacks ending in [ev], [user] is the user [ev]
    announced and [loading] is false.  Once the first callback has run,
    no later render has [loading] true again. *)
Theorem useUser_follows_last_callback evs ev :
  useUser_after (evs ++ [ev]) = {| user := announced ev; loading := false |} ∧
  (∀ batched, last (all_renders batched useUser_initial (evs ++ [ev])) =
              Some {| user := announced ev; loading := false |}) ∧
  (∀ batched evs' st',
     st' ∈ all_renders batched (useUser_after (evs ++ [ev])) evs' →
     loading st' = false).
Proof.
  assert (Hafter : useUser_after (evs ++ [ev]) =
                   {| user := announced ev; loading := false |}).
  { unfold useUser_after. rewrite foldl_app. simpl. apply callback_result. }
  split; [exact Hafter|]. split.
  - clear Hafter. intros batched. generalize (@useUser_initial User).
    induction evs as [|ev0 evs IH]; intros st.
    + rewrite app_nil_l, all_renders_cons. simpl all_renders.
      rewrite app_nil_r. apply renders_last.
    + rewrite <- app_comm_cons, all_renders_cons, last_app. by rewrite IH.
  - intros batched evs' st' Hin. rewrite Hafter in Hin.
    eapply all_renders_settled; [|exact Hin]. done.
Qed.

Lemma effect_runs_app (effect : @user_state User → list string) prev l1 l2 :
  effect_runs effect prev (l1 ++ l2) =
  effect_runs effect prev l1 ++ effect_runs effect (default prev (last l1)) l2.
Proof.
  revert prev. induction l1 as [|st l1 IH]; intros prev; [done|].
  simpl. rewrite IH, <- app_assoc. do 2 f_equal.
  assert (default prev (last (st :: l1)) = default st (last l1)) as ->; [|done].
  rewrite last_cons. destruct l1 as [|st' l1]; [done|].
  rewrite last_cons. by destruct (last l1).
Qed.

Lemma renders_same batched st ev (effect : @user_state User → list string) :
  loading st = false → announced ev = user st →
  effect_runs effect st (renders batched st ev) = [] ∧
  default st (last (renders batched st ev)) = st.
Proof.
  intros Hl Hu. destruct st as [x l]. simpl in *. subst.
  destruct batched, ev; simpl in *; subst; simpl;
    rewrite ?bool_decide_eq_true_2 by done; done.
Qed.

(** Callbacks that announce the user the state already has cause no run
    of the effect. *)
Lemma same_user_is_quiet batched (effect : @user_state User → list string) st evs :
  loading st = false → (∀ ev, ev ∈ evs → announced ev = user st) →
  effect_runs effect st (all_renders batched st evs) = [].
Proof.
  intros Hl. induction evs as [|ev evs IH]; intros Hsame; [done|].
  rewrite all_renders_cons, effect_runs_app.
  destruct (renders_same batched st ev effect Hl) as [-> ->];
    [apply Hsame; left |].
  rewrite callback_result, Hsame by left. simpl.
  replace {| user := user st; loading := false |} with st
    by (destruct st; simpl in *; by subst).
  apply IH. intros ev' Hin. apply Hsame. by right.
Qed.

(** X20.  If every callback announces the same user object, the effect of
    [useRedirectIfAuthenticated] pushes its target exactly once, however
    many callbacks arrive and however updates are batched; and if every
    callback announces that there is no user, the effect of
    [useRequireAuth] pushes ['/auth/login'] exactly once. *)
Theorem unchanged_user_navigates_once batched ev evs :
  (∀ redirectTo u,
     (∀ ev', ev' ∈ ev :: evs → announced ev' = Some u) →
     navigations (mounted batched (useRedirectIfAuthenticated_effect redirectTo)
                    (ev :: evs)) = [default "/dashboard" redirectTo]) ∧
  ((∀ ev', ev' ∈ ev :: evs → announced ev' = None) →
   navigations (mounted batched useRequireAuth_effect (ev :: evs)) = ["/auth/login"]).
Proof.
  split.
  - intros redirectTo u Hsame.
    unfold mounted. rewrite all_renders_cons, effect_runs_app.
    rewrite renders_last, callback_result. cbn [default from_option id].
    rewrite (same_user_is_quiet batched _ _ evs).
    + rewrite app_nil_r. pose proof (Hsame ev ltac:(left)) as Hev.
      destruct batched, ev as [x|x]; simpl in Hev; subst; simpl;
        rewrite ?bool_decide_eq_false_2 by done; try done.
      all: destruct x as [[x]|]; simplify_eq/=;
        rewrite ?bool_decide_eq_false_2 by done; done.
    + done.
    + simpl. intros ev' Hin. rewrite Hsame by (by right). symmetry. apply Hsame. by left.
  - intros Hsame.
    unfold mounted. rewrite all_renders_cons, effect_runs_app.
    rewrite renders_last, callback_result. cbn [default from_option id].
    rewrite (same_user_is_quiet batched _ _ evs).
    + rewrite app_nil_r. pose proof (Hsame ev ltac:(left)) as Hev.
      destruct batched, ev as [x|x]; simpl in Hev; subst; simpl;
        rewrite ?bool_decide_eq_false_2 by done;
        rewrite ?bool_decide_eq_true_2 by done; try done.
      all: destruct x as [[x]|]; simplify_eq/=;
        rewrite ?bool_decide_eq_false_2 by done;
        rewrite ?bool_decide_eq_true_2 by done; done.
    + done.
    + simpl. intros ev' Hin. rewrite Hsame by (by right). symmetry. apply Hsame. by left.
Qed.

End hooks.

Lemma unchanged_user_navigates_once_witness :
  (∀ ev', ev' ∈ [getUser_resolved (Some "user-1");
                 onAuthStateChange (Some {| session_user := "user-1" |});
                 onAuthStateChange (Some {| session_user := "user-1" |})] →
          announced ev' = Some "user-1") ∧
  navigations (mounted false (useRedirectIfAuthenticated_effect (Some "/dashboard"))
                 [getUser_resolved (Some "user-1");
                  onAuthStateChange (Some {| session_user := "user-1" |});
                  onAuthStateChange (Some {| session_user := "user-1" |})]) =
  ["/dashboard"].
Proof.
  assert (Hsame : ∀ ev', ev' ∈ [getUser_resolved (Some "user-1");
                    onAuthStateChange (Some {| session_user := "user-1" |});
                    onAuthStateChange (Some {| session_user := "user-1" |})] →
                  announced ev' = Some "user-1").
  { intros ev'. rewrite !elem_of_cons, elem_of_nil.
    intros [->|[->|[->|[]]]]; reflexivity. }
  split; [exact Hsame|].
  destruct (unchanged_user_navigates_once false (getUser_resolved (Some "user-1"))
              [onAuthStateChange (Some {| session_user := "user-1" |});
               onAuthStateChange (Some {| session_user := "user-1" |})])
    as [Hredirect _].
  exact (Hredirect (Some "/dashboard") "user-1" Hsame).
Defined.

End HooksMoreFacts.

(* ===================================================================== *)
(** * Part XII. The signup and login pages: properties                    *)
(* ===================================================================== *)

Module PagesFacts.
Import Validators ValidatorsFacts Pages.

Lemma run_bind {A B} (c : AuthUtils.creation) (b : AuthUtils.backend) log
  (p : AuthUtils.prog A) (f : A → AuthUtils.prog B) :
  AuthUtils.run c b log (AuthUtils.bind p f) =
  match AuthUtils.run c b log p with
  | (log', inl a) => AuthUtils.run c b log' (f a)
  | (log', inr t) => (log', inr t)
  end.
Proof.
  revert log. induction p as [a|t|r k IH|k IH]; intros log; simpl; [done..| |];
    apply IH.
Qed.

Lemma lookup_set_error key o m k :
  set_error key o m !! k =
  if decide (key = k) then match o with Some msg => Some msg | None => m !! k end
  else m !! k.
Proof.
  unfold set_error. destruct o as [msg|].
  - rewrite lookup_insert. by case_decide.
  - by case_decide.
Qed.

Lemma no_errors_spec m : no_errors m = true ↔ m = ∅.
Proof. unfold no_errors. rewrite bool_decide_eq_true. apply map_size_empty_iff. Qed.

Lemma set_error_if key (c1 c2 : bool) msg1 msg2 m :
  (if c1 then <[key := msg1]> m else if c2 then <[key := msg2]> m else m) =
  set_error key (if c1 then Some msg1 else if c2 then Some msg2 else None) m.
Proof. by destruct c1, c2. Qed.

Lemma signup_validateForm_steps f :
  (SignUpPage.validateForm f).1 =
  set_error "displayName" (display_error (SignUpPage.displayName f))
    (set_error "username" (username_error (SignUpPage.username f))
       (set_error "confirmPassword"
          (confirm_error (SignUpPage.password f) (SignUpPage.confirmPassword f))
          (set_error "password" (password_error (SignUpPage.password f))
             (set_error "email" (email_error (SignUpPage.email f)) ∅)))).
Proof.
  unfold SignUpPage.validateForm. cbn [fst]. cbv zeta.
  by rewrite !set_error_if.
Qed.

Lemma is_empty_spec s : is_empty s = true ↔ s = [].
Proof. by destruct s. Qed.

Lemma email_error_None e : email_error e = None ↔ isValidEmail e = true.
Proof.
  unfold email_error. destruct e as [|c e]; [done|]. simpl is_empty. cbv iota.
  by destruct (isValidEmail (c :: e)).
Qed.

Lemma password_error_None p : password_error p = None ↔ valid (validatePassword p) = true.
Proof.
  unfold password_error. destruct p as [|c p]; [done|]. simpl is_empty. cbv iota.
  by destruct (valid (validatePassword (c :: p))).
Qed.

Lemma confirm_error_None p c : confirm_error p c = None ↔ c ≠ [] ∧ p = c.
Proof.
  unfold confirm_error. destruct c as [|x c]; simpl is_empty; cbv iota.
  - split; [done | by intros []].
  - case_bool_decide as Hne; [split; [done | by intros [_ ?]]|]. by split.
Qed.

Lemma username_error_None u : username_error u = None ↔ valid (validateUsername u) = true.
Proof.
  unfold username_error. destruct u as [|c u]; [done|]. simpl is_empty. cbv iota.
  by destruct (valid (validateUsername (c :: u))).
Qed.

Lemma display_error_None d : display_error d = None ↔ 2 ≤ length d.
Proof.
  unfold display_error. destruct d as [|c d]; simpl is_empty; cbv iota.
  - split; [done | simpl; lia].
  - case_bool_decide; split; try done; lia.
Qed.

(** A key that is set last, or under which nothing later is set, reads
    back the error of its field. *)
Ltac read_error :=
  rewrite signup_validateForm_steps, !lookup_set_error;
  repeat (case_decide; try discriminate);
  rewrite ?lookup_empty;
  repeat match goal with |- context [match ?o with _ => _ end] => destruct o end;
  try reflexivity.

Lemma signup_errors_lookup f :
  let errs := (SignUpPage.validateForm f).1 in
  errs !! "email" = email_error (SignUpPage.email f) ∧
  errs !! "password" = password_error (SignUpPage.password f) ∧
  errs !! "confirmPassword" =
    confirm_error (SignUpPage.password f) (SignUpPage.confirmPassword f) ∧
  errs !! "username" = username_error (SignUpPage.username f) ∧
  errs !! "displayName" = display_error (SignUpPage.displayName f) ∧
  (∀ k, k ∉ ["email"; "password"; "confirmPassword"; "username"; "displayName"] →
        errs !! k = None).
Proof.
  cbv zeta. split_and!; try (by read_error).
  intros k Hk. rewrite !not_elem_of_cons in Hk. destruct Hk as (?&?&?&?&?&_).
  rewrite signup_validateForm_steps, !lookup_set_error.
  repeat (case_decide; [congruence|]). apply lookup_empty.
Qed.

Lemma signup_errors_empty f :
  (SignUpPage.validateForm f).1 = ∅ ↔
  email_error (SignUpPage.email f) = None ∧
  password_error (SignUpPage.password f) = None ∧
  confirm_error (SignUpPage.password f) (SignUpPage.confirmPassword f) = None ∧
  username_error (SignUpPage.username f) = None ∧
  display_error (SignUpPage.displayName f) = None.
Proof.
  destruct (signup_errors_lookup f) as (He & Hp & Hc & Hu & Hd & _). split.
  - intros Hempty. rewrite Hempty in *. by rewrite !lookup_empty in *.
  - intros (E1 & E2 & E3 & E4 & E5).
    by rewrite signup_validateForm_steps, E1, E2, E3, E4, E5.
Qed.

(** X21.  [validateForm] of the signup page returns [true] exactly when it
    has set no error, and that is exactly when the e-mail address passes
    [isValidEmail], the password passes [validatePassword], the
    confirmation equals the password, the username passes
    [validateUsername] and the display name has at least two code units.
    Each of the five keys is free of an error exactly when its field
    passes, and no other key is ever set. *)
Theorem signup_form_accepts_the_well_formed f :
  let errs := (SignUpPage.validateForm f).1 in
  let ok := (SignUpPage.validateForm f).2 in
  (ok = true ↔ errs = ∅) ∧
  (ok = true ↔
   isValidEmail (SignUpPage.email f) = true ∧
   valid (validatePassword (SignUpPage.password f)) = true ∧
   SignUpPage.confirmPassword f = SignUpPage.password f ∧
   valid (validateUsername (SignUpPage.username f)) = true ∧
   2 ≤ length (SignUpPage.displayName f)) ∧
  (errs !! "email" = None ↔ isValidEmail (SignUpPage.email f) = true) ∧
  (errs !! "password" = None ↔
   valid (validatePassword (SignUpPage.password f)) = true) ∧
  (errs !! "confirmPassword" = None ↔
   SignUpPage.confirmPassword f ≠ [] ∧
   SignUpPage.password f = SignUpPage.confirmPassword f) ∧
  (errs !! "username" = None ↔
   valid (validateUsername (SignUpPage.username f)) = true) ∧
  (errs !! "displayName" = None ↔ 2 ≤ length (SignUpPage.displayName f)) ∧
  (∀ k, k ∉ ["email"; "password"; "confirmPassword"; "username"; "displayName"] →
        errs !! k = None).
Proof.
  cbv zeta. destruct (signup_errors_lookup f) as (He & Hp & Hc & Hu & Hd & Hk).
  assert (Hok : (SignUpPage.validateForm f).2 = true ↔
                (SignUpPage.validateForm f).1 = ∅) by apply no_errors_spec.
  split_and!.
  - exact Hok.
  - rewrite Hok, signup_errors_empty, email_error_None, password_error_None,
      confirm_error_None, username_error_None, display_error_None.
    split.
    + intros (? & ? & [? ?] & ? & ?). done.
    + intros (? & Hpw & Heq & ? & ?). split_and!; try done.
      rewrite Heq. intros Hnil. by rewrite Hnil in Hpw.
  - by rewrite He, email_error_None.
  - by rewrite Hp, password_error_None.
  - by rewrite Hc, confirm_error_None.
  - by rewrite Hu, username_error_None.
  - by rewrite Hd, display_error_None.
  - exact Hk.
Qed.

(** ** Submitting *)

Section submit.

Context (text_of : list N → string).

(** X22.  A signup form that fails [validateForm] is not submitted:
    [handleSubmit] makes no call to the backend (and none of
    [createClient()]: it does not reach [signUp]), pushes nothing, leaves
    [loading] as it was and shows the errors [validateForm] found. *)
Theorem signup_invalid_form_is_not_sent (c : AuthUtils.creation)
  (b : AuthUtils.backend) f v :
  (SignUpPage.validateForm f).2 = false →
  AuthUtils.run c b [] (SignUpPage.handleSubmit text_of f v) =
  ([], inl {| loading := loading v;
              errors := (SignUpPage.validateForm f).1;
              pushed := pushed v |}).
Proof.
  intros Hbad. unfold SignUpPage.handleSubmit.
  destruct (SignUpPage.validateForm f) as [errs ok]. simpl in *. by subst.
Qed.

(** Where [signUp] files its errors. *)
Lemma signUp_error_keys (b : AuthUtils.backend) d res e :
  AuthUtils.result AuthUtils.client_created b (AuthUtils.signUp d) = inl res →
  AuthUtils.UserResult.error res = Some e →
  field_or_general (AuthUtils.AuthError.field e) = "general" ∨
  (field_or_general (AuthUtils.AuthError.field e) = "username" ∧
   AuthUtils.AuthError.message e = "Username already taken").
Proof.
  unfold AuthUtils.result. rewrite AuthUtilsFacts.run_signUp.
  destruct (b [] _) as [[row|] [e'|]|t]; simpl.
  - intros [= <-] [= <-]. by right.
  - intros [= <-] [= <-]. by right.
  - case_bool_decide; simpl.
    + intros [= <-] He. apply AuthUtilsFacts.passed_through_user_no_field in He.
      rewrite He. by left.
    + intros [= <-] [= <-]. by left.
  - intros [= <-] He. apply AuthUtilsFacts.passed_through_user_no_field in He.
    rewrite He. by left.
  - intros [= <-] [= <-]. by left.
Qed.

(** X23.  A signup form that passes [validateForm] is handed to [signUp]
    and to nothing else; [handleSubmit] has no [try] of its own.  When
    [createClient()] throws inside [signUp], [handleSubmit] throws the
    same and no call has been made.  When it returns, [handleSubmit]
    makes the calls [signUp] makes and returns: an error comes back with
    [loading] false, no navigation, and as the only entry of [errors],
    under [username] when the username is taken and under [general]
    otherwise; without an error the page pushes ['/dashboard'] if a user
    came back and otherwise stays as it is, with [loading] still true. *)
Theorem signup_valid_form_is_sent_once (b : AuthUtils.backend) f v :
  (SignUpPage.validateForm f).2 = true →
  (∀ t, AuthUtils.run (AuthUtils.creation_failed t) b []
          (SignUpPage.handleSubmit text_of f v) = ([], inr t)) ∧
  ∃ res,
    AuthUtils.result AuthUtils.client_created b
      (AuthUtils.signUp (signup_data text_of f)) = inl res ∧
    AuthUtils.run AuthUtils.client_created b [] (SignUpPage.handleSubmit text_of f v) =
      (AuthUtils.requests AuthUtils.client_created b
         (AuthUtils.signUp (signup_data text_of f)),
       inl (view_after (λ e, field_or_general (AuthUtils.AuthError.field e)) v res)) ∧
    (∀ e, AuthUtils.UserResult.error res = Some e →
          field_or_general (AuthUtils.AuthError.field e) = "general" ∨
          (field_or_general (AuthUtils.AuthError.field e) = "username" ∧
           AuthUtils.AuthError.message e = "Username already taken")) ∧
    (pushed (view_after (λ e, field_or_general (AuthUtils.AuthError.field e)) v res) =
       pushed v ++ ["/dashboard"] ↔
     AuthUtils.UserResult.error res = None ∧
     is_Some (AuthUtils.UserResult.user res)).
Proof.
  intros Hok. split.
  { intros t. unfold SignUpPage.handleSubmit.
    destruct (SignUpPage.validateForm f) as [errs ok]. simpl in Hok. subst ok.
    simpl negb. cbv iota. fold (signup_data text_of f).
    by rewrite run_bind, AuthUtilsFacts.run_signUp_no_client. }
  destruct (AuthUtilsFacts.signUp_calls b (signup_data text_of f)) as [_ [res Hres]].
  exists res. split; [exact Hres|]. split; [|split].
  - unfold SignUpPage.handleSubmit.
    destruct (SignUpPage.validateForm f) as [errs ok]. simpl in Hok. subst ok.
    simpl negb. cbv iota. fold (signup_data text_of f). rewrite run_bind.
    unfold AuthUtils.result, AuthUtils.requests in *.
    destruct (AuthUtils.run AuthUtils.client_created b []
                (AuthUtils.signUp (signup_data text_of f))) as [log out].
    simpl in Hres. subst out. unfold view_after.
    destruct (AuthUtils.UserResult.error res); [done|].
    destruct (AuthUtils.UserResult.user res); simpl; [done|].
    by rewrite app_nil_r.
  - intros e He. by apply (signUp_error_keys b (signup_data text_of f) res e).
  - unfold view_after.
    destruct (AuthUtils.UserResult.error res), (AuthUtils.UserResult.user res); simpl.
    + split; [|by intros []]. intros Heq.
      apply (f_equal length) in Heq. rewrite length_app in Heq. simpl in Heq. lia.
    + split; [|by intros []]. intros Heq.
      apply (f_equal length) in Heq. rewrite length_app in Heq. simpl in Heq. lia.
    + split; [|done]. intros _. split; [done | by eexists].
    + split; [|by intros [_ []]]. intros Heq.
      apply (f_equal length) in Heq. rewrite !length_app in Heq. simpl in Heq. lia.
Qed.

Lemma set_error_if1 key (c : bool) msg m :
  (if c then <[key := msg]> m else m) = set_error key (if c then Some msg else None) m.
Proof. by destruct c. Qed.

Lemma login_validateForm_ok f :
  (LoginPage.validateForm f).2 = true ↔
  isValidEmail (LoginPage.email f) = true ∧ LoginPage.password f ≠ [].
Proof.
  unfold LoginPage.validateForm. cbn [snd]. cbv zeta.
  rewrite set_error_if, set_error_if1, no_errors_spec.
  fold (email_error (LoginPage.email f)).
  rewrite <- email_error_None. split.
  - intros Hempty. split.
    + pose proof (f_equal (λ m : gmap string string, m !! "email") Hempty) as Hl.
      simpl in Hl. rewrite !lookup_set_error, lookup_empty in Hl.
      repeat case_decide; try done.
      by destruct (email_error _).
    + pose proof (f_equal (λ m : gmap string string, m !! "password") Hempty) as Hl.
      simpl in Hl. rewrite !lookup_set_error, lookup_empty in Hl.
      repeat case_decide; try done.
      destruct (LoginPage.password f); [done | discriminate].
  - intros [-> Hpw]. by destruct (LoginPage.password f).
Qed.

(** X24.  The login page submits exactly the forms whose e-mail address
    passes [isValidEmail] and whose password is not empty.  Any other
    form makes no call and is left with the errors [validateForm] found.
    A submitted form is handed to [login], with no [try] around it: when
    [createClient()] throws inside [login], [handleSubmit] throws the
    same and no call has been made; when it returns, [handleSubmit]
    makes the one call of [login] and returns, an error that [login]
    returns is shown under [general] with [loading] false, and the page
    pushes ['/dashboard'] only when there is no error and a user came
    back. *)
Theorem login_page_submits_well_formed_forms (b : AuthUtils.backend) f v :
  ((LoginPage.validateForm f).2 = true ↔
   isValidEmail (LoginPage.email f) = true ∧ LoginPage.password f ≠ []) ∧
  ((LoginPage.validateForm f).2 = false →
   ∀ c, AuthUtils.run c b [] (LoginPage.handleSubmit text_of f v) =
        ([], inl {| loading := loading v;
                    errors := (LoginPage.validateForm f).1;
                    pushed := pushed v |})) ∧
  ((LoginPage.validateForm f).2 = true →
   AuthUtils.run AuthUtils.client_created b [] (LoginPage.handleSubmit text_of f v) =
   ([login_request text_of f],
    inl (view_after (λ _, "general") v
           (AuthUtils.passed_through_user (b [] (login_request text_of f))))) ∧
   ∀ t, AuthUtils.run (AuthUtils.creation_failed t) b []
          (LoginPage.handleSubmit text_of f v) = ([], inr t)).
Proof.
  split; [apply login_validateForm_ok|]. split.
  - intros Hbad c. unfold LoginPage.handleSubmit.
    destruct (LoginPage.validateForm f) as [errs ok]. simpl in *. by subst.
  - intros Hok. unfold LoginPage.handleSubmit.
    destruct (LoginPage.validateForm f) as [errs ok]. simpl in Hok. subst ok.
    simpl negb. cbv iota. split.
    + rewrite run_bind, AuthUtilsFacts.run_login.
      fold (login_request text_of f). unfold view_after.
      destruct (AuthUtils.passed_through_user _) as [u [e|]]; simpl; [done|].
      destruct u; simpl; [done|]. by rewrite app_nil_r.
    + intros t. by rewrite run_bind, AuthUtilsFacts.run_login_no_client.
Qed.

End submit.

Lemma signup_invalid_form_is_not_sent_witness :
  (SignUpPage.validateForm signup_long_username).2 = false ∧
  AuthUtils.run AuthUtils.client_created AuthUtils.backend_username_free []
    (SignUpPage.handleSubmit sample_text_of signup_long_username blank_view) =
  ([], inl {| loading := false;
              errors := {[ "username" :=
                             "Username must be no more than 20 characters" ]};
              pushed := [] |}).
Proof.
  assert (Hbad : (SignUpPage.validateForm signup_long_username).2 = false)
    by (vm_compute; reflexivity).
  split; [exact Hbad|].
  rewrite (signup_invalid_form_is_not_sent sample_text_of AuthUtils.client_created
             AuthUtils.backend_username_free signup_long_username blank_view Hbad).
  do 3 f_equal.
Defined.

Lemma signup_valid_form_is_sent_once_witness :
  (SignUpPage.validateForm signup_alice).2 = true ∧
  ∃ res,
    AuthUtils.result AuthUtils.client_created AuthUtils.backend_username_taken
      (AuthUtils.signUp (signup_data sample_text_of signup_alice)) = inl res ∧
    AuthUtils.run AuthUtils.client_created AuthUtils.backend_username_taken []
      (SignUpPage.handleSubmit sample_text_of signup_alice blank_view) =
      (AuthUtils.requests AuthUtils.client_created AuthUtils.backend_username_taken
         (AuthUtils.signUp (signup_data sample_text_of signup_alice)),
       inl (view_after (λ e, field_or_general (AuthUtils.AuthError.field e))
              blank_view res)).
Proof.
  assert (Hok : (SignUpPage.validateForm signup_alice).2 = true)
    by (vm_compute; reflexivity).
  split; [exact Hok|].
  destruct (signup_valid_form_is_sent_once sample_text_of
              AuthUtils.backend_username_taken signup_alice blank_view Hok)
    as (_ & res & Hres & Hrun & _).
  exists res. split; [exact Hres | exact Hrun].
Defined.

(** The taken username of the sample ends up under the [username] key. *)
Example signup_alice_username_taken :
  AuthUtils.run AuthUtils.client_created AuthUtils.backend_username_taken []
    (SignUpPage.handleSubmit sample_text_of signup_alice blank_view) =
  ([AuthUtils.profiles_select_username_eq "alice"],
   inl {| loading := false;
          errors := {[ "username" := "Username already taken" ]};
          pushed := [] |}).
Proof. vm_compute. reflexivity. Qed.

End PagesFacts.
